(** * tigger-tag: selecting and tagging the sources of a sky model

    A shallow embedding of [Tigger/bin/tigger_tag.py] (function [main] and its
    nested helpers) and the properties of its token language: how a token is
    classified, how selections accumulate, how values are coerced and how
    attribute paths are resolved.

    Layout:
    - [Str]      small helpers on [string] (Python's [str.lower], [split], ...);
    - [Re]       the fragment of Python's [re] used by the four patterns of
                 [main], as a backtracking matcher;
    - [Py]       Python values, truthiness, comparison with a float;
    - the catalog objects, the program state and the program ([main]);
    - [RefEnv]   a reference implementation of the built-ins [int], [float],
                 [complex] and [fnmatch.fnmatch] on ASCII text, and
                 [Scenario], a catalog of three sources;
    - the notions the statements use, and the theorems: value coercion,
      errors, the selection state machine, the comparison pattern and the
      operator aliases;
    - further properties: how each form of token is read, what the
      selections select, how paths are resolved, what the mutations do to
      the sources, and how a whole run ends;
    - the accumulated selection against the sources that match, the sources
      a mutation works on, and the whole of [main] with the search for the
      package Tigger and the dispatch of [--transfer-tags].

    Text is modelled as [string] (a sequence of 8-bit characters): tokens and
    names are taken to be ASCII, and case folding is ASCII case folding. *)

From Stdlib Require Import ZArith String Ascii List Bool Lia.
From Stdlib Require Import Floats.PrimFloat Floats.FloatOps Floats.SpecFloat.
From stdpp Require Import gmap strings list.

Local Open Scope Z_scope.

(* ===================================================================== *)
(** ** Strings *)
(* ===================================================================== *)

Module Str.

(** ASCII [c.lower()]. *)
Definition lower_chr (c : ascii) : ascii :=
  let n := nat_of_ascii c in
  if (Nat.leb 65 n && Nat.leb n 90)%bool then ascii_of_nat (n + 32) else c.

(** [s.lower()] *)
Fixpoint lower (s : string) : string :=
  match s with
  | EmptyString => EmptyString
  | String c s' => String (lower_chr c) (lower s')
  end.

(** The first [n] characters of [s]. *)
Fixpoint take (n : nat) (s : string) : string :=
  match n, s with
  | S n', String c s' => String c (take n' s')
  | _, _ => EmptyString
  end.

(** [s.split(sep)] for a one-character separator: never empty. *)
Fixpoint split (sep : ascii) (s : string) : list string :=
  match s with
  | EmptyString => [EmptyString]
  | String c s' =>
      if Ascii.eqb c sep then EmptyString :: split sep s'
      else match split sep s' with
           | x :: xs => String c x :: xs
           | [] => [String c EmptyString]
           end
  end.

(** [sep.join(l)] *)
Fixpoint join (sep : string) (l : list string) : string :=
  match l with
  | [] => EmptyString
  | [x] => x
  | x :: xs => x +:+ sep +:+ join sep xs
  end.

(** [all p s]: every character of [s] satisfies [p]. *)
Fixpoint all (p : ascii -> bool) (s : string) : bool :=
  match s with
  | EmptyString => true
  | String c s' => p c && all p s'
  end.

(** The longest prefix of [s] whose characters satisfy [p], and the rest. *)
Fixpoint span (p : ascii -> bool) (s : string) : string * string :=
  match s with
  | EmptyString => (EmptyString, EmptyString)
  | String c s' =>
      if p c then let '(v, rest) := span p s' in (String c v, rest)
      else (EmptyString, s)
  end.

(** Does [s] start with a character that satisfies [p]? *)
Definition starts (p : ascii -> bool) (s : string) : bool :=
  match s with
  | EmptyString => false
  | String c _ => p c
  end.

End Str.

(* ===================================================================== *)
(** ** Regular expressions *)
(* ===================================================================== *)

(** The patterns of [main] use: [^] and [$], literals, character sets
    ([[dms]], [[^dms]], [.]), greedy [+] on a set, greedy [?], alternation,
    capturing groups, and the flag [(?i)].  [re.match] is Python's
    backtracking matcher: alternatives are tried left to right, a greedy
    repetition tries the longest run first and gives characters back one at a
    time, and the first way of matching the whole pattern wins. *)

Module Re.

(** A character set; [neg] is the leading [^]. *)
Record cls := Cls { neg : bool; members : string }.

(** [.] without DOTALL: anything but a newline. *)
Definition dot : cls := Cls true (String "010"%char EmptyString).

Inductive re : Type :=
| Fail                        (* matches nothing (the empty alternation) *)
| Set_ (c : cls)              (* one character of a set *)
| Lit (s : string)            (* literal text *)
| Seq (r1 r2 : re)
| Alt (r1 r2 : re)            (* r1|r2 *)
| Plus (c : cls)              (* set+ , greedy *)
| Opt (r : re)                (* r? , greedy *)
| Grp (n : nat) (r : re)      (* the n-th capturing group *)
| Bos                         (* ^ *)
| Eos.                        (* $ *)

(** [a|b|c|...] *)
Definition alts (rs : list re) : re := foldr Alt Fail rs.

(** Two characters are the same, up to case under [(?i)]. *)
Definition chr_eq (ic : bool) (a b : ascii) : bool :=
  if ic then Ascii.eqb (Str.lower_chr a) (Str.lower_chr b) else Ascii.eqb a b.

Fixpoint in_members (ic : bool) (a : ascii) (m : string) : bool :=
  match m with
  | EmptyString => false
  | String b m' => chr_eq ic a b || in_members ic a m'
  end.

Definition cls_match (ic : bool) (c : cls) (a : ascii) : bool :=
  xorb (neg c) (in_members ic a (members c)).

(** Captured groups; an absent key is a group that did not take part. *)
Abbreviation caps := (gmap nat string).

(** A continuation receives the position reached, the text left and the
    groups captured so far. *)
Abbreviation cont := (nat -> string -> caps -> option caps).

Fixpoint lit (ic : bool) (l : string) (pos : nat) (s : string) : option (nat * string) :=
  match l, s with
  | EmptyString, _ => Some (pos, s)
  | String a l', String b s' => if chr_eq ic b a then lit ic l' (S pos) s' else None
  | String _ _, EmptyString => None
  end.

(** Greedy [set+]: take one more character when possible, and only when the
    rest of the pattern then fails, stop here. *)
Fixpoint plus (ic : bool) (c : cls) (pos : nat) (s : string) (g : caps) (k : cont)
  : option caps :=
  match s with
  | String a s' =>
      if cls_match ic c a then
        match plus ic c (S pos) s' g k with
        | Some r => Some r
        | None => k (S pos) s' g
        end
      else None
  | EmptyString => None
  end.

Fixpoint go (ic : bool) (r : re) (pos : nat) (s : string) (g : caps) (k : cont)
  : option caps :=
  match r with
  | Fail => None
  | Set_ c =>
      match s with
      | String a s' => if cls_match ic c a then k (S pos) s' g else None
      | EmptyString => None
      end
  | Lit l =>
      match lit ic l pos s with
      | Some (pos', s') => k pos' s' g
      | None => None
      end
  | Seq r1 r2 => go ic r1 pos s g (fun pos' s' g' => go ic r2 pos' s' g' k)
  | Alt r1 r2 =>
      match go ic r1 pos s g k with
      | Some res => Some res
      | None => go ic r2 pos s g k
      end
  | Plus c => plus ic c pos s g k
  | Opt r1 =>
      match go ic r1 pos s g k with
      | Some res => Some res
      | None => k pos s g
      end
  | Grp n r1 =>
      go ic r1 pos s g (fun pos' s' g' => k pos' s' (<[n := Str.take (pos' - pos) s]> g'))
  | Bos => match pos with O => k pos s g | S _ => None end
  | Eos =>
      match s with
      | EmptyString => k pos s g
      | String a EmptyString => if Ascii.eqb a "010"%char then k pos s g else None
      | _ => None
      end
  end.

(** [re.match(pattern, s)]: anchored at the start, no need to reach the end. *)
Definition match_ (ic : bool) (r : re) (s : string) : option caps :=
  go ic r 0 s ∅ (fun _ _ g => Some g).

End Re.

(* ===================================================================== *)
(** ** Python values *)
(* ===================================================================== *)

Module Py.

(** The values a tag can hold and the objects that carry them.  An object is
    its attribute dictionary; [float] is IEEE binary64, as in CPython. *)
#[warnings="-register-all"] Inductive value : Type :=
| VNone
| VBool (b : bool)
| VInt (n : Z)
| VFloat (f : float)
| VComplex (re im : float)
| VStr (s : string)
| VObj (attrs : gmap string value).

(** [type(v).__name__] *)
Definition type_name (v : value) : string :=
  match v with
  | VNone => "NoneType"
  | VBool _ => "bool"
  | VInt _ => "int"
  | VFloat _ => "float"
  | VComplex _ _ => "complex"
  | VStr _ => "str"
  | VObj _ => "object"
  end.

Definition is_none (v : value) : bool :=
  match v with VNone => true | _ => false end.

(** A computation that may raise: [Exc e] is an exception of class [e]. *)
Inductive try (A : Type) : Type :=
| Val (a : A)
| Exc (e : string).
Arguments Val {A} a.
Arguments Exc {A} e.

Definition try_bind {A B} (x : try A) (f : A -> try B) : try B :=
  match x with Val a => f a | Exc e => Exc e end.

#[global] Instance try_ret : MRet try := fun A a => Val a.
#[global] Instance try_mbind : MBind try := fun A B f x => try_bind x f.
#[global] Instance try_fmap : FMap try := fun A B f x => try_bind x (fun a => Val (f a)).

(** [getattr(o, name, None)] and [hasattr(o, name)].  Only objects carry
    attributes in this model: the methods and properties of numbers and
    strings are not represented. *)
Definition getattr_opt (o : value) (name : string) : option value :=
  match o with VObj a => a !! name | _ => None end.

Definition getattr_default (o : value) (name : string) (d : value) : value :=
  default d (getattr_opt o name).

Definition hasattr (o : value) (name : string) : bool :=
  match getattr_opt o name with Some _ => true | None => false end.

(** [o.name], raising [AttributeError] when there is no such attribute. *)
Definition getattr (o : value) (name : string) : try value :=
  match getattr_opt o name with
  | Some v => Val v
  | None => Exc "AttributeError"
  end.

(** [bool(v)]; an object is taken to be true, as instances of classes that
    define neither [__bool__] nor [__len__] are. *)
Definition truthy (v : value) : bool :=
  match v with
  | VNone => false
  | VBool b => b
  | VInt n => negb (n =? 0)
  | VFloat f => negb (PrimFloat.eqb f 0%float)
  | VComplex re im => negb (PrimFloat.eqb re 0%float) || negb (PrimFloat.eqb im 0%float)
  | VStr s => negb (String.eqb s "")
  | VObj _ => true
  end.

(** An integer against a float, exactly (no rounding of the integer);
    [None] when the float is a NaN. *)
Definition Z_cmp_float (n : Z) (f : float) : option comparison :=
  match Prim2SF f with
  | S754_nan => None
  | S754_zero _ => Some (n ?= 0)
  | S754_infinity sgn => Some (if sgn then Gt else Lt)
  | S754_finite sgn m e =>
      let v := if sgn then Z.neg m else Z.pos m in
      Some (if 0 <=? e then n ?= v * 2 ^ e else n * 2 ^ (- e) ?= v)
  end.

Definition Z_of_bool (b : bool) : Z := if b then 1 else 0.

(** [x == y] for a float [y]; never raises. *)
Definition eq (x : value) (y : float) : try bool :=
  Val match x with
      | VBool b => match Z_cmp_float (Z_of_bool b) y with Some Eq => true | _ => false end
      | VInt n => match Z_cmp_float n y with Some Eq => true | _ => false end
      | VFloat f => PrimFloat.eqb f y
      | VComplex re im => PrimFloat.eqb re y && PrimFloat.eqb im 0%float
      | VNone | VStr _ | VObj _ => false
      end.

(** [x != y] *)
Definition ne (x : value) (y : float) : try bool :=
  try_bind (eq x y) (fun b => Val (negb b)).

(** The four orderings share their shape: integers are compared exactly,
    floats by IEEE comparison, and the other types do not order against a
    float ([TypeError]). *)
Definition order (on_cmp : comparison -> bool) (on_float : float -> float -> bool)
    (x : value) (y : float) : try bool :=
  match x with
  | VBool b => Val match Z_cmp_float (Z_of_bool b) y with Some c => on_cmp c | None => false end
  | VInt n => Val match Z_cmp_float n y with Some c => on_cmp c | None => false end
  | VFloat f => Val (on_float f y)
  | VNone | VComplex _ _ | VStr _ | VObj _ => Exc "TypeError"
  end.

Definition ge := order (fun c => match c with Lt => false | _ => true end) (fun a b => PrimFloat.leb b a).
Definition le := order (fun c => match c with Gt => false | _ => true end) PrimFloat.leb.
Definition gt := order (fun c => match c with Gt => true | _ => false end) (fun a b => PrimFloat.ltb b a).
Definition lt := order (fun c => match c with Lt => true | _ => false end) PrimFloat.ltb.

(** [math.pi] *)
Definition pi : float := 0x1.921fb54442d18p+1%float.

End Py.

(** The built-in conversions the program calls, and [fnmatch.fnmatch].  They
    belong to the Python runtime, not to this program: the program is
    modelled over any implementation of them, and [RefEnv] below gives one for
    ASCII text.  [None] is the [ValueError] the conversion raises. *)
Class Builtins : Type := {
  py_int : string -> option Z;                 (* int(s) *)
  py_float : string -> option float;           (* float(s) *)
  py_complex : string -> option (float * float); (* complex(s) *)
  fnmatch : string -> string -> bool           (* fnmatch.fnmatch(name, pat) *)
}.

(* ===================================================================== *)
(** ** The catalog *)
(* ===================================================================== *)

Import Py.

(** Modelled from the spec: the model classes of the [Tigger] package
    ([Tigger.load], the source objects and their [setAttribute] and
    [removeAttribute]) are not in [tigger_tag.py].  Following the
    attribute-access contract of the spec, a source is an object with a
    [name], the sub-objects [pos] and [flux] and optionally [shape] and
    [spectrum]; [setAttribute] binds an attribute of the object,
    [removeAttribute] unbinds it and leaves an object without it as it is.
    Calling either on something that is not an object is an
    [AttributeError]. *)
Definition setAttribute (obj : value) (tag : string) (v : value) : try value :=
  match obj with
  | VObj a => Val (VObj (<[tag := v]> a))
  | _ => Exc "AttributeError"
  end.

Definition removeAttribute (obj : value) (tag : string) : try value :=
  match obj with
  | VObj a => Val (VObj (delete tag a))
  | _ => Exc "AttributeError"
  end.

(** Objects are mutated in place.  A sub-object is reached from its source
    by a path of attribute names, and writing [new] back at that path is the
    effect the mutation of the sub-object has on the source. *)
Fixpoint put (path : list string) (new : value) (o : value) : value :=
  match path with
  | [] => new
  | p :: ps =>
      match o with
      | VObj a =>
          match a !! p with
          | Some sub => VObj (<[p := put ps new sub]> a)
          | None => o
          end
      | _ => o
      end
  end.

(* ===================================================================== *)
(** ** The program state *)
(* ===================================================================== *)

(** What the program writes. *)
Inductive line : Type :=
| Printed (fmt : string) (args : list value)        (* print(fmt % args) *)
| ParserError (fmt : string) (args : list value)  (* parser.error(fmt % args): usage and message *)
| Save (path : string) (srcs : list value).       (* model.save(path) *)

(** How a run ends early: [sys.exit(code)] or an exception nobody catches. *)
Inductive outcome : Type :=
| Exit (code : Z)
| Raise (exc : string).

(** [sources] is [model.sources]; the sources of a model are distinct
    objects, and a source is identified by its position in that list, which
    stands for [id(src)].  [selected_ids], [selection] and
    [listed] are the globals of that name ([listed] is unbound until it is
    first assigned), [modified] the local of [main]. *)
Record state : Type := State {
  sources : list value;
  selected_ids : option (gset nat);
  selection : option (list nat);
  listed : option bool;
  modified : bool;
  out : list line
}.

Inductive res (A : Type) : Type :=
| Ok (a : A) (st : state)
| Stop (o : outcome) (st : state).
Arguments Ok {A} a st.
Arguments Stop {A} o st.

Definition M (A : Type) : Type := state -> res A.

#[global] Instance M_ret : MRet M := fun A a st => Ok a st.

#[global] Instance M_bind : MBind M := fun A B f m st =>
  match m st with
  | Ok a st' => f a st'
  | Stop o st' => Stop o st'
  end.

Abbreviation ret := mret.

Definition get : M state := fun st => Ok st st.
Definition stop {A} (o : outcome) : M A := fun st => Stop o st.
Definition sys_exit {A} (code : Z) : M A := stop (Exit code).

Definition emit (l : line) : M unit :=
  fun st => Ok tt (State (sources st) (selected_ids st) (selection st) (listed st)
                         (modified st) (out st ++ [l])).
Definition print (fmt : string) (args : list value) : M unit := emit (Printed fmt args).

Definition parser_error {A} (fmt : string) (args : list value) : M A :=
  emit (ParserError fmt args) ;; sys_exit 2.

Definition set_sources (srcs : list value) : M unit :=
  fun st => Ok tt (State srcs (selected_ids st) (selection st) (listed st) (modified st) (out st)).
Definition set_selected_ids (ids : option (gset nat)) : M unit :=
  fun st => Ok tt (State (sources st) ids (selection st) (listed st) (modified st) (out st)).
Definition set_selection (sel : option (list nat)) : M unit :=
  fun st => Ok tt (State (sources st) (selected_ids st) sel (listed st) (modified st) (out st)).
Definition set_listed (b : bool) : M unit :=
  fun st => Ok tt (State (sources st) (selected_ids st) (selection st) (Some b) (modified st) (out st)).
Definition set_modified (b : bool) : M unit :=
  fun st => Ok tt (State (sources st) (selected_ids st) (selection st) (listed st) b (out st)).

(** An exception raised outside any [try] ends the run. *)
Definition lift {A} (x : try A) : M A :=
  match x with Val a => ret a | Exc e => stop (Raise e) end.

Fixpoint forM_ {A} (l : list A) (f : A -> M unit) : M unit :=
  match l with
  | [] => ret tt
  | x :: xs => f x ;; forM_ xs f
  end.

(** [[x for x in l if p(x)]] for a test that may raise. *)
Fixpoint try_filter {A} (p : A -> try bool) (l : list A) : try (list A) :=
  match l with
  | [] => Val []
  | x :: xs =>
      try_bind (p x) (fun b =>
      try_bind (try_filter p xs) (fun ys => Val (if b then x :: ys else ys)))
  end.

Fixpoint try_map {A B} (f : A -> try B) (l : list A) : try (list B) :=
  match l with
  | [] => Val []
  | x :: xs => try_bind (f x) (fun y => try_bind (try_map f xs) (fun ys => Val (y :: ys)))
  end.

(** The sources behind a list of identities. *)
Definition deref (srcs : list value) (ids : list nat) : list value :=
  omap (fun i => srcs !! i) ids.

(** [[src.name for src in l]] *)
Definition names (l : list value) : try (list value) :=
  try_map (fun src => getattr src "name") l.

(** [" ".join(l)]: every item has to be a string. *)
Definition join_names (l : list value) : try value :=
  try_bind (try_map (fun v => match v with VStr s => Val s | _ => Exc "TypeError" end) l)
           (fun ss => Val (VStr (Str.join " " ss))).

Definition VLen {A} (l : list A) : value := VInt (Z.of_nat (length l)).

(* ===================================================================== *)
(** ** The program *)
(* ===================================================================== *)

(** The command-line options [main] reads. *)
Record Options : Type := {
  opt_list : bool;              (* -l / --list *)
  opt_output : option string;   (* -o / --output *)
  opt_force : bool              (* -f / --force *)
}.

Definition DEG : float := (Py.pi / 180)%float.
Definition ARCSEC : float := (DEG / 3600)%float.

(** [x is not None] for a variable that holds [None] or a value. *)
Definition not_None {A} (x : option A) : bool :=
  match x with Some _ => true | None => false end.

(** The double quote character, as a string. *)
Definition dq : string := String "034"%char EmptyString.

(** [d[key]] on a dictionary written as its items, in insertion order. *)
Fixpoint dict_get {V} (d : list (string * V)) (key : string) : option V :=
  match d with
  | [] => None
  | (k, v) :: d' => if String.eqb k key then Some v else dict_get d' key
  end.

(** comparison predicates for the SELTAG<>SELVAL option *)
Definition select_predicates : list (string * (value -> float -> try bool)) :=
  [ ("==", Py.eq); ("!=", Py.ne); (">=", Py.ge); ("<=", Py.le); (">", Py.gt); ("<", Py.lt);
    (".eq.", Py.eq); (".ne.", Py.ne); (".ge.", Py.ge); (".le.", Py.le);
    (".gt.", Py.gt); (".lt.", Py.lt) ].

(** units for same *)
Definition select_units : list (string * float) :=
  [ ("d", DEG); ("m", (DEG / 60)%float); ("s", (DEG / 3600)%float) ].

(** [select_units.get(unit, 1.)]; [unit] is [None] when the group is absent. *)
Definition unit_factor (unit : option string) : float :=
  match unit with
  | Some u => default 1%float (dict_get select_units u)
  | None => 1%float
  end.

(** The four patterns of the main loop.  The alternation of the first one is
    built from the keys of [select_predicates], with their dots escaped. *)
Definition mselcomp_re : Re.re :=
  Re.Seq Re.Bos
 (Re.Seq (Re.Grp 1 (Re.Plus (Re.Cls true "=<>!.")))
 (Re.Seq (Re.Grp 2 (Re.alts (map (fun kv => Re.Lit (fst kv)) select_predicates)))
 (Re.Seq (Re.Grp 3 (Re.Plus (Re.Cls true "dms")))
         (Re.Opt (Re.Grp 4 (Re.Set_ (Re.Cls false "dms"))))))).

Definition mseltag_re : Re.re :=
  Re.Seq (Re.Lit "=") (Re.Seq (Re.Grp 1 (Re.Plus Re.dot)) Re.Eos).

Definition mset_re : Re.re :=
  Re.Seq Re.Bos
 (Re.Seq (Re.Grp 1 (Re.Plus Re.dot))
 (Re.Seq (Re.Lit "=")
 (Re.Seq (Re.Opt (Re.Grp 2 (Re.Seq
            (Re.Grp 3 (Re.alts (map Re.Lit ["bool"; "int"; "str"; "float"; "complex"])))
            (Re.Lit ":"))))
 (Re.Seq (Re.Grp 4 (Re.Plus Re.dot)) Re.Eos)))).

Definition msetbool_re : Re.re :=
  Re.Seq Re.Bos
 (Re.Seq (Re.Grp 1 (Re.Set_ (Re.Cls false "+!/")))
 (Re.Seq (Re.Grp 2 (Re.Plus Re.dot)) Re.Eos)).

(** A group that takes part in every match of its pattern. *)
Definition group (g : Re.caps) (n : nat) : string := default EmptyString (g !! n).

(** The four matches of the loop body with their [groups()]. *)
Definition mselcomp (arg : string) : option (string * string * string * option string) :=
  (fun g => (group g 1, group g 2, group g 3, g !! 4%nat)) <$> Re.match_ true mselcomp_re arg.

Definition mseltag (arg : string) : option string :=
  (fun g => group g 1) <$> Re.match_ false mseltag_re arg.

Definition mset (arg : string) : option (string * option string * option string * string) :=
  (fun g => (group g 1, g !! 2%nat, g !! 3%nat, group g 4)) <$> Re.match_ false mset_re arg.

Definition msetbool (arg : string) : option (string * string) :=
  (fun g => (group g 1, group g 2)) <$> Re.match_ false msetbool_re arg.

(** The names bound in the module's global namespace when [main] runs: the
    module attributes every module has, the module's imports, constants and
    functions, and the three names [main] declares [global]. *)
Definition module_globals : list string :=
  [ "__name__"; "__doc__"; "__package__"; "__loader__"; "__spec__"; "__file__";
    "__cached__"; "__builtins__";
    "fnmatch"; "math"; "re"; "sys"; "os";
    "DEG"; "ARCSEC"; "NATIVE"; "transfer_tags"; "main";
    "selected_ids"; "selection"; "listed" ].

Section Program.

Context {B : Builtins}.
Variable options : Options.

(** The built-in types by name: what [getattr] finds in the module of
    built-ins for the type names the assignment pattern lets through. *)
Definition int_ (s : string) : option value := VInt <$> py_int s.
Definition float_ (s : string) : option value := VFloat <$> py_float s.
Definition complex_ (s : string) : option value := (fun c => VComplex (fst c) (snd c)) <$> py_complex s.
Definition str_ (s : string) : option value := Some (VStr s).

Definition builtin_type (typename : string) : option (string -> option value) :=
  dict_get [("int", int_); ("float", float_); ("complex", complex_); ("str", str_)] typename.

(** Helper function: applies selection argument *)
Definition apply_selection (sel : list nat) (selstr : string) : M unit :=
  set_listed false;;
  st ← get;
  (* if selection is not None, then we've already selected and tagged
     something, so we need to reset the selection to empty and start again.
     If selected_ids is None, this is the first selection *)
  (if not_None (selection st) || negb (not_None (selected_ids st)) then
     print "Selecting sources:" [];;
     set_selected_ids (Some ∅);;
     set_selection None
   else ret tt);;
  (* add to current selection *)
  st ← get;
  set_selected_ids (Some (default ∅ (selected_ids st) ∪ list_to_set sel));;
  (* print result *)
  match sel with
  | [] => print "  %-16s: no sources selected" [VStr selstr]
  | [_] =>
      nms ← lift (names (deref (sources st) sel));
      print "  %-16s: one source selected (%s)" (VStr selstr :: nms)
  | _ =>
      if (length sel <=? 5)%nat then
        nms ← lift (names (deref (sources st) sel) ≫= join_names);
        print "  %-16s: %d sources selected (%s)" [VStr selstr; VLen sel; nms]
      else print "  %-16s: %d sources selected" [VStr selstr; VLen sel]
  end.

(** Helper function: retrieves current selection in preparation for tagging.
    The list bound to [selection] is never changed once it is bound, so that
    [selection = model.sources] binds the list of all identities. *)
Definition retrieve_selection : M (list nat) :=
  st ← get;
  (* if selection is None, then we need to set it up based on selected_ids *)
  match selection st with
  | None =>
      match selected_ids st with
      | None =>
          (* no explicit selection: use entire model *)
          set_selection (Some (seq 0 (length (sources st))));;
          print "No explicit selection, using all sources." []
      | Some ids =>
          (* else use selected set *)
          let sel := filter (fun i => i ∈ ids) (seq 0 (length (sources st))) in
          set_selection (Some sel);;
          print "Using %d selected sources:" [VLen sel]
      end
  | Some _ => ret tt
  end;;
  st ← get;
  let sel := default [] (selection st) in
  (if opt_list options then
     nms ← lift (names (deref (sources st) sel) ≫= join_names);
     print "Sources: %s" [nms];;
     set_listed true
   else ret tt);;
  ret sel.

(** The loop of [getTagValue] over the objects to look into: the first one
    that is not [None] and has the attribute gives the value. *)
Fixpoint first_tag (objs : list value) (tag : string) : try value :=
  match objs with
  | [] => Val VNone
  | obj :: rest =>
      if negb (is_none obj) && hasattr obj tag then getattr obj tag
      else first_tag rest tag
  end.

(** Helper function: looks for the given tag in the source, or in its
    sub-objects.  The tuple of objects is built before the loop starts, so
    that [src.pos] and [src.flux] have to exist. *)
Definition getTagValue (src : value) (tag : string) : try value :=
  pos ← getattr src "pos";
  flux ← getattr src "flux";
  first_tag [src; pos; flux; getattr_default src "shape" VNone;
             getattr_default src "spectrum" VNone] tag.

(** helper function to look into sub-objects of a Source object.
    Given src and "a", returns src,"a".
    Given src and "a.b", returns src.a and "b".
    The loop rebinds [src] at each step, and the message of the failing step
    reads [src.name] from the rebound variable. *)
Fixpoint lookupObject_loop (tagname : string) (src : value) (subobjs : list string)
  : M value :=
  match subobjs with
  | [] => ret src
  | subobj :: rest =>
      let src := getattr_default src subobj VNone in
      if is_none src then
        nm ← lift (getattr src "name");
        print "Can't resolve attribute %s for source %s" [VStr tagname; nm];;
        sys_exit 1
      else lookupObject_loop tagname src rest
  end.

Definition lookupObject (src : value) (tagname : string) : M (value * string) :=
  let tags := Str.split "." tagname in
  obj ← lookupObject_loop tagname src (removelast tags);
  ret (obj, List.last tags EmptyString).

(** [obj, tag = lookupObject(src, tagname)] followed by a method call on
    [obj], for the source of identity [i]: the object found is changed in
    place, which changes the source it is part of. *)
Definition mutate (i : nat) (tagname : string) (method : value -> string -> try value)
  : M unit :=
  st ← get;
  match sources st !! i with
  | None => ret tt
  | Some src =>
      '(obj, tag) ← lookupObject src tagname;
      obj' ← lift (method obj tag);
      st ← get;
      set_sources (<[i := put (removelast (Str.split "." tagname)) obj' src]> (sources st))
  end.

(** The explicit conversion [getattr(globals()["__builtin__"], typename)(value)]
    inside its [try]: any exception, the [KeyError] of the dictionary lookup
    included, is the failure [None]. *)
Definition explicit_convert (typename value : string) : option Py.value :=
  if bool_decide (("__builtin__" : string) ∈ module_globals) then
    match builtin_type typename with
    | Some tp => tp value
    | None => None
    end
  else None.

(** [for tp in int, float, complex, str: try: newval = tp(value); break;
    except: pass], from [newval]. *)
Fixpoint first_conversion (tps : list (string -> option Py.value)) (value : string)
    (newval : Py.value) : Py.value :=
  match tps with
  | [] => newval
  | tp :: rest =>
      match tp value with
      | Some v => v
      | None => first_conversion rest value newval
      end
  end.

Definition auto_convert (value : string) : Py.value :=
  first_conversion [int_; float_; complex_; str_] value VNone.

(** The conversion of the value of an assignment token: [if typename ==
    "bool": ... elif typename: ... else: ...]. *)
Definition convert (typename : option string) (value : string) : M Py.value :=
  if bool_decide (typename = Some "bool") then
    (* first bool: allow True/False/T/F *)
    let val := Str.lower value in
    if String.eqb val "true" || String.eqb val "t" then ret (VBool true)
    else if String.eqb val "false" || String.eqb val "f" then ret (VBool false)
    else match py_int value with
         | Some n => ret (VBool (negb (n =? 0)))
         | None =>
             print ("Can't parse " +:+ dq +:+ "%s" +:+ dq +:+ " as a value of type bool")
                   [VStr value];;
             sys_exit 2
         end
  else
    match typename with
    | Some (String c t) =>
        (* else some other type is specified -- use it to convert the value *)
        match explicit_convert (String c t) value with
        | Some newval => ret newval
        | None =>
            print ("Can't parse " +:+ dq +:+ "%s" +:+ dq +:+ " as a value of type %s")
                  [VStr value; VStr (String c t)];;
            sys_exit 2
        end
    | _ =>
        (* else auto-convert *)
        ret (auto_convert value)
    end.

(** [[src for src, tag in srctag if tag is not None and predicate(tag, selval)]],
    after [srctag] has been built for all the sources. *)
Definition select_comp (seltag : string) (predicate : Py.value -> float -> try bool)
    (selval : float) (srcs : list Py.value) : try (list nat) :=
  srctag ← try_map (fun src => getTagValue src seltag) srcs;
  sel ← try_filter (fun it => if is_none (snd it) then Val false
                              else predicate (snd it) selval)
                   (zip (seq 0 (length srctag)) srctag);
  Val (map fst sel).

(** [[src for src in model.sources if getTagValue(src, seltag)]] *)
Definition select_tag (seltag : string) (srcs : list Py.value) : try (list nat) :=
  sel ← try_filter (fun it => truthy <$> getTagValue (snd it) seltag)
                   (zip (seq 0 (length srcs)) srcs);
  Val (map fst sel).

(** [[src for src in model.sources if fnmatch.fnmatch(src.name, arg)]];
    [fnmatch] wants a string. *)
Definition select_name (arg : string) (srcs : list Py.value) : try (list nat) :=
  sel ← try_filter (fun it => nm ← getattr (snd it) "name";
                              match nm with
                              | VStr s => Val (fnmatch s arg)
                              | _ => Exc "TypeError"
                              end)
                   (zip (seq 0 (length srcs)) srcs);
  Val (map fst sel).

(** The assignment branch, from the line after the [--list] test on. *)
Definition set_branch (tagname : string) (typename : option string) (value : string)
    (srcs : list nat) : M unit :=
  (* if type is specified, use it to explicitly convert the value *)
  newval ← convert typename value;
  (* ok, value determined *)
  let value := match newval with VStr _ => dq +:+ value +:+ dq | _ => value end in
  match srcs with
  | _ :: _ =>
      print "  setting tag %s=%s (type '%s')"
            [VStr tagname; VStr value; VStr (type_name newval)];;
      forM_ srcs (fun i => mutate i tagname (fun obj tag => setAttribute obj tag newval));;
      set_modified true
  | [] => print "No sources selected, ignoring tagging commands" []
  end.

(** The boolean branch, from the line after the [--list] test on.  The
    arguments of the method call hold [tagname], the whole path, and not the
    last segment [lookupObject] returns. *)
Definition setbool_branch (op tagname : string) (srcs : list nat) : M unit :=
  match srcs with
  | _ :: _ =>
      method ←
        (if String.eqb op "+" then
           print "  setting tag %s=True" [VStr tagname];;
           ret (fun obj (_ : string) => setAttribute obj tagname (VBool true))
         else if String.eqb op "!" then
           print "  setting tag %s=False" [VStr tagname];;
           ret (fun obj (_ : string) => setAttribute obj tagname (VBool false))
         else
           print "  removing tag %s" [VStr tagname];;
           ret (fun obj (_ : string) => removeAttribute obj tagname));
      forM_ srcs (fun i => mutate i tagname method);;
      set_modified true
  | [] => print "No sources selected, ignoring tagging commands" []
  end.

(** One turn of the loop over the arguments. *)
Definition step (arg : string) : M unit :=
  match mselcomp arg, mseltag arg, mset arg, msetbool arg with
  | Some (seltag, oper, selval, unit), _, _, _ =>
      (* SELTAG<>SELVAL selection *)
      match py_float selval with
      | None =>
          parser_error "Malformed selection string '%s': right-hand side is not a number."
                       [VStr arg]
      | Some f =>
          let selval := (f * unit_factor unit)%float in
          match dict_get select_predicates (Str.lower oper) with
          | None => stop (Raise "KeyError")
          | Some predicate =>
              st ← get;
              sel ← lift (select_comp seltag predicate selval (sources st));
              apply_selection sel arg
          end
      end
  | None, Some seltag, _, _ =>
      st ← get;
      sel ← lift (select_tag seltag (sources st));
      apply_selection sel arg
  | None, None, None, None =>
      st ← get;
      sel ← lift (select_name arg (sources st));
      apply_selection sel arg
  | None, None, Some (tagname, typespec, typename, value), _ =>
      srcs ← retrieve_selection;
      if opt_list options then
        print "--list in effect, ignoring tagging commands" []
      else set_branch tagname typename value srcs
  | None, None, None, Some (op, tagname) =>
      srcs ← retrieve_selection;
      if opt_list options then
        print "--list in effect, ignoring tagging commands" []
      else setbool_branch op tagname srcs
  end.

(** What follows the loop.  [stdin_ok] tells whether [input] returns (the
    user presses ENTER) or raises (Ctrl+C, end of input). *)
Definition finish (skymodel : string) (stdin_ok : bool) : M unit :=
  (if opt_list options then
     st ← get;
     match listed st with
     | None => stop (Raise "NameError")
     | Some false => retrieve_selection;; ret tt
     | Some true => ret tt
     end
   else ret tt);;
  st ← get;
  (if negb (modified st) then
     print "Model was not modified" [];;
     sys_exit 0
   else ret tt);;
  (* prompt *)
  (if negb (opt_force options) then
     print "Press ENTER to save model or Ctrl+C to cancel: " [];;
     if stdin_ok then ret tt else print "Cancelling" [];; sys_exit 1
   else ret tt);;
  (* save output *)
  st ← get;
  match opt_output options with
  | Some (String c o) =>
      emit (Save (String c o) (sources st));;
      print "Saved updated model to %s" [VStr (String c o)]
  | _ =>
      emit (Save skymodel (sources st));;
      print "Saved updated model" []
  end.

(** [main], from the parsed command line on ([rem_args] is what is left of it
    after the options) and without the [--transfer-tags] mode.  [model] is
    what [Tigger.load] gives for the file named first. *)
Definition main (rem_args : list string) (stdin_ok : bool) : M unit :=
  match rem_args with
  | skymodel :: ((_ :: _) as args) =>
      st ← get;
      match sources st with
      | [] =>
          print "Input model %s contains no sources" [VStr skymodel];;
          sys_exit 0
      | _ :: _ =>
          print "Input model contains %d sources" [VLen (sources st)];;
          (* loop over all arguments *)
          forM_ args step;;
          finish skymodel stdin_ok
      end
  | _ => parser_error "Incorrect number of arguments. Use -h for help." []
  end.

End Program.

(** The state [main] starts in: nothing selected, [listed] unbound, nothing
    modified, nothing written. *)
Definition initial (model : list value) : state :=
  State model None None None false [].

(* ===================================================================== *)
(** ** Reference built-ins *)
(* ===================================================================== *)

(** CPython's [int], [float], [complex] and [fnmatch.fnmatch] on ASCII text
    (without the limit recent versions put on the number of digits of an
    integer).  Used to run the program on concrete command lines; the
    theorems about the program hold for every implementation of [Builtins]. *)

Module RefEnv.

Definition is_digit (c : ascii) : bool :=
  let n := nat_of_ascii c in (Nat.leb 48 n && Nat.leb n 57)%bool.

Definition digit_val (c : ascii) : Z := Z.of_nat (nat_of_ascii c) - 48.

(** The characters the conversions skip at both ends of ASCII text: the
    space and the characters 9 to 13. *)
Definition is_space (c : ascii) : bool :=
  let n := nat_of_ascii c in
  ((Nat.leb 9 n && Nat.leb n 13) || Nat.eqb n 32)%bool.

Fixpoint lstrip (s : string) : string :=
  match s with
  | String c s' => if is_space c then lstrip s' else s
  | EmptyString => s
  end.

Fixpoint rstrip (s : string) : string :=
  match s with
  | EmptyString => EmptyString
  | String c s' =>
      match rstrip s' with
      | EmptyString => if is_space c then EmptyString else String c EmptyString
      | r => String c r
      end
  end.

Definition strip (s : string) : string := rstrip (lstrip s).

(** Underscores are accepted between two digits only, and then ignored. *)
Fixpoint drop_underscores (prev : option ascii) (s : string) : option string :=
  match s with
  | EmptyString => Some EmptyString
  | String c s' =>
      if Ascii.eqb c "_" then
        match prev, s' with
        | Some p, String n _ =>
            if is_digit p && is_digit n then drop_underscores (Some c) s' else None
        | _, _ => None
        end
      else String c <$> drop_underscores (Some c) s'
  end.

(** The longest run of digits at the front of [s], its value from [acc] on,
    how many digits it has, and what follows it. *)
Fixpoint digits (s : string) (acc : Z) (n : Z) : Z * Z * string :=
  match s with
  | String c s' => if is_digit c then digits s' (acc * 10 + digit_val c) (n + 1) else (acc, n, s)
  | EmptyString => (acc, n, s)
  end.

Definition sign (s : string) : bool * string :=
  match s with
  | String "-" s' => (true, s')
  | String "+" s' => (false, s')
  | _ => (false, s)
  end.

(** [int(s)], base ten. *)
Definition int (s : string) : option Z :=
  body ← drop_underscores None (strip s);
  let '(neg, body) := sign body in
  match digits body 0 0 with
  | (v, n, EmptyString) => if 0 <? n then Some (if neg then - v else v) else None
  | _ => None
  end.

(** The binary64 nearest to [m * 10 ^ e] for [0 <= m] (ties to even), with
    the sign [neg].  A quotient is cut to 64 bits and more, with the bit below
    them telling whether anything was cut off. *)
Definition round_decimal (neg : bool) (m e : Z) : float :=
  let sgn (x : Z) := if neg then - x else x in
  if m =? 0 then (if neg then (-0)%float else 0%float)
  else if 309 <=? Z.log2 m / 4 + e then (if neg then neg_infinity else infinity)
  else if Z.log2 m / 3 + 1 + e <=? -324 then (if neg then (-0)%float else 0%float)
  else if 0 <=? e then SF2Prim (binary_normalize 53 1024 (sgn (m * 10 ^ e)) 0 false)
  else
    let d := 10 ^ (- e) in
    let sh := Z.max 0 (Z.log2 d - Z.log2 m + 66) in
    let q := (m * 2 ^ sh) / d in
    let sticky := if (m * 2 ^ sh) mod d =? 0 then 0 else 1 in
    SF2Prim (binary_normalize 53 1024 (sgn (2 * q + sticky)) (- (sh + 1)) false).

(** Does [s] start with [p], up to case?  What follows it. *)
Fixpoint skip_nocase (p s : string) : option string :=
  match p, s with
  | EmptyString, _ => Some s
  | String a p', String b s' =>
      if Ascii.eqb (Str.lower_chr b) a then skip_nocase p' s' else None
  | _, _ => None
  end.

(** An exponent [e[+-]digits] at the front of [s], when there is a whole one. *)
Definition exponent (s : string) : Z * string :=
  match s with
  | String c s' =>
      if Ascii.eqb (Str.lower_chr c) "e" then
        let '(neg, s'') := sign s' in
        match digits s'' 0 0 with
        | (v, n, rest) => if 0 <? n then (if neg then - v else v, rest) else (0, s)
        end
      else (0, s)
  | EmptyString => (0, s)
  end.

(** The longest float at the front of [s] and what follows it (C's [strtod]
    restricted to what Python accepts: decimal numbers, [inf], [infinity],
    [nan]). *)
Definition float_prefix (s : string) : option (float * string) :=
  let '(neg, body) := sign s in
  match skip_nocase "infinity" body with
  | Some rest => Some (if neg then neg_infinity else infinity, rest)
  | None =>
  match skip_nocase "inf" body with
  | Some rest => Some (if neg then neg_infinity else infinity, rest)
  | None =>
  match skip_nocase "nan" body with
  | Some rest => Some (nan, rest)
  | None =>
      let '(ip, ni, rest) := digits body 0 0 in
      let '(m, nf, rest) :=
        match rest with
        | String "." rest' =>
            let '(m, nf, rest'') := digits rest' ip 0 in
            if 0 <? ni + nf then (m, nf, rest'') else (ip, 0, rest)
        | _ => (ip, 0, rest)
        end in
      if 0 <? ni + nf then
        let '(ex, rest) := exponent rest in
        Some (round_decimal neg m (ex - nf), rest)
      else None
  end end end.

(** [float(s)] *)
Definition float (s : string) : option PrimFloat.float :=
  body ← drop_underscores None (strip s);
  match float_prefix body with
  | Some (f, EmptyString) => Some f
  | _ => None
  end.

(** [complex(s)]: [<float>], [<float>j], [<float><signed-float>j], with [j]
    alone standing for one, the whole optionally in parentheses. *)
Definition is_j (c : ascii) : bool := Ascii.eqb (Str.lower_chr c) "j".

Definition complex_body (s : string) : option (PrimFloat.float * PrimFloat.float * string) :=
  match float_prefix s with
  | Some (z, rest) =>
      match rest with
      | String c rest' =>
          if Ascii.eqb c "+" || Ascii.eqb c "-" then
            let '(y, rest2) :=
              match float_prefix rest with
              | Some (y, r) => (y, r)
              | None => (if Ascii.eqb c "+" then 1%float else (-1)%float, rest')
              end in
            match rest2 with
            | String j rest3 => if is_j j then Some (z, y, rest3) else None
            | EmptyString => None
            end
          else if is_j c then Some (0%float, z, rest')
          else Some (z, 0%float, rest)
      | EmptyString => Some (z, 0%float, rest)
      end
  | None =>
      let '(neg, rest) := sign s in
      match rest with
      | String j rest' =>
          if is_j j then Some (0%float, if neg then (-1)%float else 1%float, rest') else None
      | EmptyString => None
      end
  end.

Definition complex (s : string) : option (PrimFloat.float * PrimFloat.float) :=
  body ← drop_underscores None (strip s);
  let '(bracket, body) :=
    match body with
    | String "(" b => (true, lstrip b)
    | _ => (false, body)
    end in
  '(re, im, rest) ← complex_body body;
  let rest := lstrip rest in
  match bracket, rest with
  | false, EmptyString => Some (re, im)
  | true, String ")" EmptyString => Some (re, im)
  | _, _ => None
  end.

(** [fnmatch.fnmatch(name, pat)] on a POSIX system (no case folding): [*]
    matches any run of characters, [?] any one character, [[seq]] one
    character of a set, [[!seq]] one character outside it; a [[] that is
    never closed stands for itself. *)
Inductive glob : Type :=
| GStar
| GAny
| GSet (negated : bool) (ranges : list (ascii * ascii))
| GChr (c : ascii).

(** The items of a set: [a-b] is a range, anything else stands for itself. *)
Fixpoint set_ranges (stuff : string) : list (ascii * ascii) :=
  match stuff with
  | String a (String "-" (String b rest)) => (a, b) :: set_ranges rest
  | String a rest => (a, a) :: set_ranges rest
  | EmptyString => []
  end.

(** The text up to the next []] and what follows it. *)
Fixpoint until_close (s : string) : option (string * string) :=
  match s with
  | EmptyString => None
  | String "]" rest => Some (EmptyString, rest)
  | String c rest =>
      '(stuff, rest') ← until_close rest;
      Some (String c stuff, rest')
  end.

(** A set, read after its opening bracket: a leading [!] negates it and a
    []] right at its start belongs to it. *)
Definition read_set (s : string) : option (glob * string) :=
  let '(negated, s1) :=
    match s with String "!" s' => (true, s') | _ => (false, s) end in
  let '(first, s2) :=
    match s1 with String "]" s' => ("]"%string, s') | _ => (EmptyString, s1) end in
  '(stuff, rest) ← until_close s2;
  Some (GSet negated (set_ranges (first +:+ stuff)), rest).

Fixpoint translate (fuel : nat) (pat : string) : list glob :=
  match fuel, pat with
  | S fuel', String c rest =>
      if Ascii.eqb c "*" then GStar :: translate fuel' rest
      else if Ascii.eqb c "?" then GAny :: translate fuel' rest
      else if Ascii.eqb c "[" then
        match read_set rest with
        | Some (g, rest') => g :: translate fuel' rest'
        | None => GChr c :: translate fuel' rest
        end
      else GChr c :: translate fuel' rest
  | _, _ => []
  end.

Definition in_range (c : ascii) (r : ascii * ascii) : bool :=
  (Nat.leb (nat_of_ascii (fst r)) (nat_of_ascii c)
   && Nat.leb (nat_of_ascii c) (nat_of_ascii (snd r)))%bool.

Fixpoint glob_match (items : list glob) (s : string) : bool :=
  match items with
  | [] => match s with EmptyString => true | _ => false end
  | GStar :: rest =>
      (fix star (s : string) : bool :=
         glob_match rest s
         || match s with String _ s' => star s' | EmptyString => false end) s
  | GAny :: rest =>
      match s with String _ s' => glob_match rest s' | EmptyString => false end
  | GSet negated ranges :: rest =>
      match s with
      | String c s' => xorb negated (existsb (in_range c) ranges) && glob_match rest s'
      | EmptyString => false
      end
  | GChr a :: rest =>
      match s with
      | String c s' => Ascii.eqb c a && glob_match rest s'
      | EmptyString => false
      end
  end.

Definition fnmatch (name pat : string) : bool :=
  glob_match (translate (String.length pat) pat) name.

Definition builtins : Builtins := Build_Builtins int float complex fnmatch.

End RefEnv.

(* ===================================================================== *)
(** ** A small catalog *)
(* ===================================================================== *)

(** Three sources A, B and C at right ascensions of 5, 15 and 25 degrees,
    and the two ways of running the program used in the examples. *)
Module Scenario.

Definition source_at (name : string) (degrees : float) : value :=
  VObj (<["name" := VStr name]>
       (<["pos" := VObj {[ "ra" := VFloat (degrees * DEG)%float ]}]>
       (<["flux" := VObj {[ "I" := VFloat 1%float ]}]> ∅))).

Definition catalog : list value :=
  [source_at "A" 5%float; source_at "B" 15%float; source_at "C" 25%float].

(** Save without prompting; with and without [--list]. *)
Definition plain : Options := Build_Options false None true.
Definition listing : Options := Build_Options true None true.

(** The state after the tokens [args], from the state [main] starts in. *)
Definition after (options : Options) (args : list string) : state :=
  match forM_ args (step (B := RefEnv.builtins) options) (initial catalog) with
  | Ok _ st => st
  | Stop _ st => st
  end.

End Scenario.

(* ===================================================================== *)
(** ** Notions used in the statements *)
(* ===================================================================== *)

(** The state a computation ends in, however it ends. *)
Definition final {A} (r : res A) : state :=
  match r with Ok _ st => st | Stop _ st => st end.

Definition with_out (st : state) (o : list line) : state :=
  State (sources st) (selected_ids st) (selection st) (listed st) (modified st) o.

(** The accumulator a selection token adds to: empty at the start of a cycle
    (nothing selected yet, or the last selection has been used by a mutation),
    the identities accumulated so far otherwise. *)
Definition cycle_start (st : state) : bool :=
  not_None (selection st) || negb (not_None (selected_ids st)).

Definition base (st : state) : gset nat :=
  if cycle_start st then ∅ else default ∅ (selected_ids st).

Definition all_ids (st : state) : list nat := seq 0 (length (sources st)).

(** The selection a mutation token works on in state [st]. *)
Definition materialized (st : state) : list nat :=
  match selection st with
  | Some sel => sel
  | None =>
      match selected_ids st with
      | None => all_ids st
      | Some ids => filter (fun i => i ∈ ids) (all_ids st)
      end
  end.

(** The line [apply_selection] prints about the sources it was given. *)
Definition report (srcs : list value) (sel : list nat) (selstr : string) : try line :=
  match sel with
  | [] => Val (Printed "  %-16s: no sources selected" [VStr selstr])
  | [_] =>
      nms ← names (deref srcs sel);
      Val (Printed "  %-16s: one source selected (%s)" (VStr selstr :: nms))
  | _ =>
      if (length sel <=? 5)%nat then
        nms ← names (deref srcs sel) ≫= join_names;
        Val (Printed "  %-16s: %d sources selected (%s)" [VStr selstr; VLen sel; nms])
      else Val (Printed "  %-16s: %d sources selected" [VStr selstr; VLen sel])
  end.

Definition header (st : state) : list line :=
  if cycle_start st then [Printed "Selecting sources:" []] else [].

(** The calls of [model.save] in an output. *)
Definition saved (o : list line) : list (string * list value) :=
  omap (fun l => match l with Save path srcs => Some (path, srcs) | _ => None end) o.

(** Nothing of the catalog has changed between two states: same sources,
    same flag [modified], no new save. *)
Definition quiet (st st' : state) : Prop :=
  sources st' = sources st /\ modified st' = modified st /\
  saved (out st') = saved (out st).

(** What a mutation of the sources in [T] may change: those sources, the
    flag [modified] and the output. *)
Definition touches_only (T : list nat) (st st' : state) : Prop :=
  selection st' = selection st /\
  selected_ids st' = selected_ids st /\
  listed st' = listed st /\
  length (sources st') = length (sources st) /\
  (forall i, i ∉ T -> sources st' !! i = sources st !! i).

Definition tag_chr : ascii -> bool := Re.cls_match true (Re.Cls true "=<>!.").
Definition val_chr : ascii -> bool := Re.cls_match true (Re.Cls true "dms").

(** The value and the unit the comparison pattern finds in the text after
    the operator. *)
Definition value_unit (r : string) : string * option string :=
  let '(v, rest) := Str.span val_chr r in
  (v, match rest with
      | String u _ => Some (String u EmptyString)
      | EmptyString => None
      end).

(** The alternation of the operators. *)
Definition ops_re : Re.re :=
  Re.alts (map (fun kv => Re.Lit (fst kv)) select_predicates).

(** The alternation reads [op] in front of [r], and nothing else first. *)
Definition picks (op r : string) : Prop :=
  forall pos g k res,
    k (pos + String.length op)%nat r g = Some res ->
    Re.go true ops_re pos (op +:+ r) g k = Some res.

(** The symbolic comparison operators with their FORTRAN-style spelling. *)
Definition operator_aliases : list (string * string) :=
  [ ("==", ".eq."); ("!=", ".ne."); ("<", ".lt."); ("<=", ".le.");
    (">", ".gt."); (">=", ".ge.") ].

(** Two states that differ at most in the text of the lines written. *)
Definition same_state (s1 s2 : state) : Prop :=
  sources s1 = sources s2 /\ selected_ids s1 = selected_ids s2 /\
  selection s1 = selection s2 /\ listed s1 = listed s2 /\
  modified s1 = modified s2 /\ length (out s1) = length (out s2).

(** Two runs that end the same way in such states. *)
Definition same_effect (r1 r2 : res unit) : Prop :=
  match r1, r2 with
  | Ok _ s1, Ok _ s2 => same_state s1 s2
  | Stop o1 s1, Stop o2 s2 => o1 = o2 /\ same_state s1 s2
  | _, _ => False
  end.

Section Notions.

Context {B : Builtins}.
Variable options : Options.

(** A mutation token: one that reaches the assignment or the boolean branch
    of the loop. *)
Definition is_mutation (arg : string) : bool :=
  match mselcomp arg, mseltag arg, mset arg, msetbool arg with
  | None, None, Some _, _ => true
  | None, None, None, Some _ => true
  | _, _, _, _ => false
  end.

(** What a mutation token does to the selection it is given. *)
Definition branch (arg : string) (srcs : list nat) : M unit :=
  match mset arg, msetbool arg with
  | Some (tagname, _, typename, value), _ => set_branch tagname typename value srcs
  | None, Some (op, tagname) => setbool_branch op tagname srcs
  | None, None => ret tt
  end.

(** The match set of a selection token on its own: what the token selects
    when it is the first token of a run on the sources [srcs].  [None] for a
    token that is not a selection token or whose processing fails. *)
Definition alone (srcs : list value) (arg : string) : option (gset nat) :=
  match step options arg (initial srcs) with
  | Ok _ st => selected_ids st
  | Stop _ _ => None
  end.

End Notions.

(* ===================================================================== *)
(** ** Notions used in the further properties *)
(* ===================================================================== *)

(** A character [.] matches: anything but a newline. *)
Definition dot_chr : ascii -> bool := Re.cls_match false Re.dot.

(** Not the character [=]. *)
Definition not_equals (c : ascii) : bool := negb (Ascii.eqb c "=").

(** Not the character [:]. *)
Definition not_colon (c : ascii) : bool := negb (Ascii.eqb c ":").

(** Not the character [.]. *)
Definition not_dot (c : ascii) : bool := negb (Ascii.eqb c ".").

(** What follows the [=] in the assignment pattern. *)
Definition mset_tail : Re.re :=
  Re.Seq (Re.Opt (Re.Grp 2 (Re.Seq
            (Re.Grp 3 (Re.alts (map Re.Lit ["bool"; "int"; "str"; "float"; "complex"])))
            (Re.Lit ":"))))
         (Re.Seq (Re.Grp 4 (Re.Plus Re.dot)) Re.Eos).

(** The operators of a comparison, as the pattern reads them. *)
Definition symbolic_ops : list string := ["=="; "!="; ">="; "<="; ">"; "<"].
Definition alias_ops : list string := [".eq."; ".ne."; ".ge."; ".le."; ".gt."; ".lt."].

Definition operator (op : string) : Prop :=
  In op symbolic_ops \/ In (Str.lower op) alias_ops.

(** The object a path leads to from [src]; [None] when a step finds nothing,
    or finds [None]. *)
Fixpoint resolve (src : value) (path : list string) : option value :=
  match path with
  | [] => Some src
  | p :: rest =>
      match getattr_default src p VNone with
      | VNone => None
      | sub => resolve sub rest
      end
  end.

(** A value that carries attributes. *)
Definition is_object (v : value) : Prop := exists a, v = VObj a.

(** The source after [setAttribute(tag, v)], after [removeAttribute(tag)]. *)
Definition with_attr (tag : string) (v : value) (src : value) : value :=
  match src with VObj a => VObj (<[tag := v]> a) | _ => src end.

Definition without_attr (tag : string) (src : value) : value :=
  match src with VObj a => VObj (delete tag a) | _ => src end.

(** The sources after each source of identity in [T] went through [f]. *)
Definition each (f : value -> value) (T : list nat) (srcs : list value) : list value :=
  foldl (fun s i => alter f i s) srcs T.

(** What every part of a run keeps: the number of sources, the saves made
    so far, and the flag [modified] once it is set. *)
Definition steady (st st' : state) : Prop :=
  length (sources st') = length (sources st) /\
  saved (out st') = saved (out st) /\
  (modified st = true -> modified st' = true).

(** The ways a token ends a run: an exception, or the exit status 2. *)
Definition aborts (o : outcome) : Prop :=
  match o with
  | Exit c => c = 2
  | Raise _ => True
  end.

(** A computation that, from [st], has ended in [r] without saving, that
    has not touched a source unless it has set [modified], and that has
    stopped, if it has, in one of the ways above. *)
Definition kept {A} (st : state) (r : res A) : Prop :=
  steady st (final r) /\
  match r with
  | Ok _ st' => modified st' = false -> sources st' = sources st
  | Stop o _ => aborts o
  end.

(** The ways [main] ends a run after the loop without saving: status 0 for
    a model that was not modified, status 1 for a prompt that was declined,
    or an exception. *)
Definition gives_up (options : Options) (stdin_ok : bool) (md : bool) (o : outcome) : Prop :=
  match o with
  | Exit c => (c = 0 /\ md = false) \/
              (c = 1 /\ md = true /\ opt_force options = false /\ stdin_ok = false)
  | Raise _ => True
  end.

(** The file the model is saved to. *)
Definition save_path (options : Options) (skymodel : string) : string :=
  match opt_output options with
  | Some (String c o) => String c o
  | _ => skymodel
  end.

(** Prompt before saving. *)
Definition prompting : Options := Build_Options false None false.

(** The attributes of the source A of the small catalog. *)
Definition attrs_A : gmap string value :=
  <["name" := VStr "A"]>
    (<["pos" := VObj {[ "ra" := VFloat (5 * DEG)%float ]}]>
    (<["flux" := VObj {[ "I" := VFloat 1%float ]}]> ∅)).

(* ===================================================================== *)
(** ** Matching sources, the operation of a mutation, and the whole of [main] *)
(* ===================================================================== *)

(** The method call of a mutation on the object a dotted name leads to from
    [src], and the source it leaves: what [lookupObject] and the call that
    follows it do for one source. *)
Definition act (tagname : string) (method : value -> string -> try value) (src : value)
  : try value :=
  let tags := Str.split "." tagname in
  match resolve src (removelast tags) with
  | None => Exc "AttributeError"
  | Some obj =>
      obj' ← method obj (List.last tags EmptyString);
      Val (put (removelast tags) obj' src)
  end.

Section Matching.

Context {B : Builtins}.

(** The source of identity [i] matches the selection token [arg]: the
    condition of the list comprehension of the branch the token takes. *)
Definition selects (srcs : list value) (arg : string) (i : nat) : Prop :=
  match mselcomp arg, mseltag arg, mset arg, msetbool arg with
  | Some (seltag, oper, selval, unit), _, _, _ =>
      exists f predicate src v,
        py_float selval = Some f /\
        dict_get select_predicates (Str.lower oper) = Some predicate /\
        srcs !! i = Some src /\ getTagValue src seltag = Val v /\ v <> VNone /\
        predicate v (f * unit_factor unit)%float = Val true
  | None, Some seltag, _, _ =>
      exists src v,
        srcs !! i = Some src /\ getTagValue src seltag = Val v /\ truthy v = true
  | None, None, None, None =>
      exists src nm,
        srcs !! i = Some src /\ getattr src "name" = Val (VStr nm) /\ fnmatch nm arg = true
  | _, _, _, _ => False
  end.

(** The value an assignment binds: the conversion of its text, when that
    does not end the run. *)
Definition converted (typename : option string) (value : string) : option Py.value :=
  match convert typename value (initial []) with
  | Ok newval _ => Some newval
  | Stop _ _ => None
  end.

(** What a mutation token does to one source of its selection. *)
Definition operation (m : string) (src : value) : try value :=
  match mset m, msetbool m with
  | Some (tagname, _, typename, value), _ =>
      match converted typename value with
      | Some newval => act tagname (fun obj tag => setAttribute obj tag newval) src
      | None => Exc "SystemExit"
      end
  | None, Some (op, tagname) =>
      if String.eqb op "+" then
        act tagname (fun obj _ => setAttribute obj tagname (VBool true)) src
      else if String.eqb op "!" then
        act tagname (fun obj _ => setAttribute obj tagname (VBool false)) src
      else act tagname (fun obj _ => removeAttribute obj tagname) src
  | None, None => Val src
  end.

End Matching.

(** How the search for the package Tigger at the start of [main] ends: the
    package is imported, at once or from the directory [Tigger] found above
    the script; no directory of that name is above the script [file]; or
    the directory [dirname] is found and the import fails all the same. *)
Inductive tigger_import : Type :=
| Imported
| NotAParent (file : string)
| Unimportable (dirname : string).

Section Whole.

Context {B : Builtins}.
Variable options : Options.

(** The function [transfer_tags] of the module works on two models it loads
    itself through the package Tigger, and saves the second one; it is a
    parameter here, called with the arguments [main] gives it. *)
Variable transfer_tags : string -> string -> option string -> string -> float -> M unit.

(** The whole of [main], for a command line the option parser accepts:
    [found] is how the import of Tigger ends, [opt_transfer_tags] the value
    of [-t / --transfer-tags], and the state holds the sources of the model
    [Tigger.load] returns for the file named first.  The import of
    [Kittens.utils] and the call [Tigger.nuke_matplotlib()] are taken to
    return. *)
Definition program (found : tigger_import) (opt_transfer_tags : option string)
    (rem_args : list string) (stdin_ok : bool) : M unit :=
  match found with
  | NotAParent file =>
      print "Unable to locate the Tigger directory, it is not a parent of %s. Please check your installation and/or PYTHONPATH."
            [VStr file];;
      sys_exit 1
  | Unimportable dirname =>
      print "Unable to import the Tigger package from %s. Please check your installation and PYTHONPATH."
            [VStr dirname];;
      sys_exit 1
  | Imported =>
      (* get filenames *)
      match rem_args with
      | skymodel :: ((_ :: _) as args) =>
          st ← get;
          match sources st with
          | [] =>
              print "Input model %s contains no sources" [VStr skymodel];;
              sys_exit 0
          | _ :: _ =>
              print "Input model contains %d sources" [VLen (sources st)];;
              match opt_transfer_tags with
              | Some (String c t) =>
                  match Str.split ":" (String c t) with
                  | [fromlsm; tolerance] =>
                      let tags := Str.join " " args in
                      match py_float tolerance with
                      | Some tol =>
                          transfer_tags fromlsm skymodel (opt_output options) tags tol;;
                          sys_exit 0
                      | None => stop (Raise "ValueError")
                      end
                  | _ => stop (Raise "ValueError")
                  end
              | _ =>
                  (* loop over all arguments *)
                  forM_ args (step options);;
                  finish options skymodel stdin_ok
              end
          end
      | _ => parser_error "Incorrect number of arguments. Use -h for help." []
      end
  end.

End Whole.

(** What stands for [transfer_tags] in the examples, none of which asks for
    a transfer. *)
Definition no_transfer : string -> string -> option string -> string -> float -> M unit :=
  fun _ _ _ _ _ => stop (Raise "NotImplementedError").

(* ===================================================================== *)
(** ** Running programs *)
(* ===================================================================== *)

Lemma bind_eq {A B} (m : M A) (f : A -> M B) st :
  (m ≫= f) st = match m st with Ok a st' => f a st' | Stop o st' => Stop o st' end.
Proof. reflexivity. Qed.

Lemma bind_Ok {A B} (m : M A) (f : A -> M B) st a st' :
  m st = Ok a st' -> (m ≫= f) st = f a st'.
Proof. intros H. rewrite bind_eq, H. reflexivity. Qed.

Lemma bind_Stop {A B} (m : M A) (f : A -> M B) st o st' :
  m st = Stop o st' -> (m ≫= f) st = Stop o st'.
Proof. intros H. rewrite bind_eq, H. reflexivity. Qed.

(* ===================================================================== *)
(** ** Value coercion *)
(* ===================================================================== *)

Section Coercion.

Context {B : Builtins}.



(** Without a type the value is converted by the first of [int], [float],
    [complex] and [str] that accepts it. *)
Lemma auto_convert_eq (value : string) :
  auto_convert value =
  match py_int value with
  | Some n => VInt n
  | None =>
      match py_float value with
      | Some f => VFloat f
      | None =>
          match py_complex value with
          | Some c => VComplex (fst c) (snd c)
          | None => VStr value
          end
      end
  end.
Proof.
  unfold auto_convert, first_conversion, int_, float_, complex_, str_.
  destruct (py_int value), (py_float value), (py_complex value); reflexivity.
Qed.

(** C9: an assignment token without an explicit type has its value converted
    by the first of [int], [float], [complex], [str], in this order, that
    accepts it; [str] accepts everything, so that the conversion always
    returns a value, and never ends the run or prints.  The value is the
    integer [int] reads when it reads one; if not, the float [float] reads
    when it reads one; if not, the complex number [complex] reads when it
    reads one; and the text itself otherwise. *)
Theorem auto_detect_first_success (value : string) (st : state) :
  convert None value st = Ok (auto_convert value) st /\
  (exists pre tp post,
     [int_; float_; complex_; str_] = pre ++ tp :: post /\
     Forall (fun t => t value = None) pre /\
     tp value = Some (auto_convert value)) /\
  (py_int value = None -> py_float value = None -> py_complex value = None ->
   auto_convert value = VStr value) /\
  (forall n, py_int value = Some n -> auto_convert value = VInt n) /\
  (forall f, py_int value = None -> py_float value = Some f ->
             auto_convert value = VFloat f) /\
  (forall c, py_int value = None -> py_float value = None -> py_complex value = Some c ->
             auto_convert value = VComplex (fst c) (snd c)).
Proof.
  split; [reflexivity|]. split; [|split; [|split; [|split]]].
  - rewrite auto_convert_eq.
    destruct (py_int value) as [n|] eqn:Hi.
    { exists [], int_, [float_; complex_; str_]. repeat split; auto.
      unfold int_. rewrite Hi. reflexivity. }
    destruct (py_float value) as [f|] eqn:Hf.
    { exists [int_], float_, [complex_; str_]. repeat split.
      - repeat constructor. unfold int_. rewrite Hi. reflexivity.
      - unfold float_. rewrite Hf. reflexivity. }
    destruct (py_complex value) as [c|] eqn:Hc.
    { exists [int_; float_], complex_, [str_]. repeat split.
      - repeat constructor; [unfold int_; rewrite Hi | unfold float_; rewrite Hf]; reflexivity.
      - unfold complex_. rewrite Hc. reflexivity. }
    exists [int_; float_; complex_], str_, []. repeat split.
    repeat constructor;
      [unfold int_; rewrite Hi | unfold float_; rewrite Hf | unfold complex_; rewrite Hc];
      reflexivity.
  - intros Hi Hf Hc. rewrite auto_convert_eq, Hi, Hf, Hc. reflexivity.
  - intros n Hi. rewrite auto_convert_eq, Hi. reflexivity.
  - intros f Hi Hf. rewrite auto_convert_eq, Hi, Hf. reflexivity.
  - intros c Hi Hf Hc. rewrite auto_convert_eq, Hi, Hf, Hc. reflexivity.
Qed.

End Coercion.

(** C1: the token [name=complex:1+2j] ends the run with status 2 and the
    message that ["1+2j"] cannot be parsed as a [complex]; no source gets the
    tag. *)
Theorem explicit_complex_token_aborts :
  main (B := RefEnv.builtins) Scenario.plain ["model.lsm"; "name=complex:1+2j"] true (initial Scenario.catalog) =
  Stop (Exit 2)
    (State Scenario.catalog None (Some [0; 1; 2]%nat) None false
       [ Printed "Input model contains %d sources" [VInt 3];
         Printed "No explicit selection, using all sources." [];
         Printed ("Can't parse " +:+ dq +:+ "%s" +:+ dq +:+ " as a value of type %s")
               [VStr "1+2j"; VStr "complex"] ]).
Proof. vm_compute. reflexivity. Qed.

(* ===================================================================== *)
(** ** Malformed comparisons and unresolved paths *)
(* ===================================================================== *)

Section Errors.

Context {B : Builtins}.
Variable options : Options.

(** C2: a token of the comparison shape whose right-hand side [float] does
    not accept ends the run: [parser.error] reports the token and exits with
    status 2, and no other way of reading the token is tried. *)
Theorem malformed_comparison_aborts (arg seltag oper selval : string)
    (unit : option string) (st : state) :
  mselcomp arg = Some (seltag, oper, selval, unit) ->
  py_float selval = None ->
  step options arg st =
  Stop (Exit 2)
    (with_out st
       (out st ++ [ParserError
                     "Malformed selection string '%s': right-hand side is not a number."
                     [VStr arg]])).
Proof.
  intros Hm Hf. unfold step. rewrite Hm, Hf. reflexivity.
Qed.

(** A step of a path that finds nothing (or finds [None]) raises
    [AttributeError] before anything is printed: the message is built from
    [src.name] after [src] has become [None]. *)
Lemma lookupObject_loop_unresolved (tagname subobj : string) (rest : list string)
    (src : value) (st : state) :
  getattr_default src subobj VNone = VNone ->
  lookupObject_loop tagname src (subobj :: rest) st = Stop (Raise "AttributeError") st.
Proof.
  intros H. cbn [lookupObject_loop]. rewrite H. reflexivity.
Qed.

End Errors.

(** The token [ra<abc] has the comparison shape and a right-hand side that
    is not a number: the run stops there with status 2. *)
Lemma malformed_comparison_counterexample :
  mselcomp "ra<abc" = Some ("ra", "<", "abc", None) /\
  RefEnv.float "abc" = None /\
  step (B := RefEnv.builtins) Scenario.plain "ra<abc" (initial Scenario.catalog) =
  Stop (Exit 2)
    (State Scenario.catalog None None None false
       [ParserError "Malformed selection string '%s': right-hand side is not a number."
                    [VStr "ra<abc"]]).
Proof. vm_compute. repeat split. Qed.

Lemma malformed_comparison_witness :
  step (B := RefEnv.builtins) Scenario.plain "ra<abc" (initial Scenario.catalog) =
  Stop (Exit 2)
    (with_out (initial Scenario.catalog)
       [ParserError "Malformed selection string '%s': right-hand side is not a number."
                    [VStr "ra<abc"]]).
Proof.
  apply (malformed_comparison_aborts (B := RefEnv.builtins) Scenario.plain
           "ra<abc" "ra" "<" "abc" None
           (initial Scenario.catalog)); vm_compute; reflexivity.
Defined.

(** C3: the token [+foo.bar] on sources without an attribute [foo] ends the
    run with an uncaught [AttributeError]; the message naming the path and
    the source is not printed. *)
Theorem unresolved_path_raises :
  main (B := RefEnv.builtins) Scenario.plain ["model.lsm"; "+foo.bar"] true (initial Scenario.catalog) =
  Stop (Raise "AttributeError")
    (State Scenario.catalog None (Some [0; 1; 2]%nat) None false
       [ Printed "Input model contains %d sources" [VInt 3];
         Printed "No explicit selection, using all sources." [];
         Printed "  setting tag %s=True" [VStr "foo.bar"] ]).
Proof. vm_compute. reflexivity. Qed.

(* ===================================================================== *)
(** ** The selection state machine *)
(* ===================================================================== *)

(** Evaluation of the primitives of the monad, on a state given by its
    fields ([run]) or on any state ([run1], [run0]). *)
Ltac run :=
  cbv beta iota delta
    [mbind mret M_bind M_ret get stop sys_exit emit print parser_error lift
     set_sources set_selected_ids set_selection set_listed set_modified
     sources selected_ids selection listed modified out with_out final].

Ltac run1 :=
  cbv beta iota delta
    [mbind mret M_bind M_ret get stop sys_exit emit print parser_error lift
     set_sources set_selected_ids set_selection set_listed set_modified with_out final];
  cbn [sources selected_ids selection listed modified out].

Ltac run0 := cbv beta iota delta [mbind mret M_bind M_ret get stop sys_exit lift].

Section Machine.

Context {B : Builtins}.
Variable options : Options.

Lemma apply_selection_eq (sel : list nat) (selstr : string) (st : state) :
  apply_selection sel selstr st =
  let st' := State (sources st) (Some (base st ∪ list_to_set sel)) None (Some false)
                   (modified st) (out st ++ header st) in
  match report (sources st) sel selstr with
  | Val l => Ok tt (with_out st' (out st' ++ [l]))
  | Exc e => Stop (Raise e) st'
  end.
Proof.
  destruct st as [srcs ids seln lst md o].
  unfold apply_selection, report, base, header, cycle_start.
  destruct seln as [s0|], ids as [i0|]; run; cbn [not_None orb negb]; cbv [from_option id].
  all: rewrite ?app_nil_r.
  all: destruct sel as [|a [|b sel']]; [reflexivity| |].
  all: try (destruct (length (a :: b :: sel') <=? 5)%nat; [|reflexivity]).
  all: unfold try_mbind, try_bind.
  all: repeat match goal with
         | |- context [match ?x with Val _ => _ | Exc _ => _ end] =>
             destruct x eqn:?; cbn [try_bind]
         end; reflexivity.
Qed.

Lemma retrieve_selection_eq (st : state) :
  retrieve_selection options st =
  let sel := materialized st in
  let note := match selection st, selected_ids st with
              | Some _, _ => []
              | None, None => [Printed "No explicit selection, using all sources." []]
              | None, Some _ => [Printed "Using %d selected sources:" [VLen sel]]
              end in
  let st' := State (sources st) (selected_ids st) (Some sel) (listed st) (modified st)
                   (out st ++ note) in
  if opt_list options then
    match names (deref (sources st) sel) ≫= join_names with
    | Val nms =>
        Ok sel (State (sources st) (selected_ids st) (Some sel) (Some true) (modified st)
                      (out st' ++ [Printed "Sources: %s" [nms]]))
    | Exc e => Stop (Raise e) st'
    end
  else Ok sel st'.
Proof.
  destruct st as [srcs ids seln lst md o].
  unfold retrieve_selection, materialized, all_ids.
  destruct seln as [s0|], ids as [i0|]; run; cbv [from_option id].
  all: rewrite ?app_nil_r.
  all: destruct (opt_list options); [|reflexivity].
  all: unfold try_mbind, try_bind.
  all: repeat match goal with
         | |- context [match ?x with Val _ => _ | Exc _ => _ end] =>
             destruct x eqn:?; cbn [try_bind]
         end; reflexivity.
Qed.

(** [lookupObject] either finds the object or raises; it never prints. *)
Lemma lookupObject_loop_cases (tagname : string) (path : list string) (src : value)
    (st : state) :
  (exists obj, lookupObject_loop tagname src path st = Ok obj st) \/
  lookupObject_loop tagname src path st = Stop (Raise "AttributeError") st.
Proof.
  revert src. induction path as [|p path IH]; intros src; cbn [lookupObject_loop].
  - left. eexists. reflexivity.
  - destruct (getattr_default src p VNone) eqn:E; cbn [is_none]; try apply IH.
    right. reflexivity.
Qed.

Lemma lookupObject_cases (src : value) (tagname : string) (st : state) :
  (exists r, lookupObject src tagname st = Ok r st) \/
  lookupObject src tagname st = Stop (Raise "AttributeError") st.
Proof.
  unfold lookupObject.
  destruct (lookupObject_loop_cases tagname (removelast (Str.split "." tagname)) src st)
    as [[obj H]|H].
  - left. eexists. rewrite (bind_Ok _ _ _ _ _ H). reflexivity.
  - right. rewrite (bind_Stop _ _ _ _ _ H). reflexivity.
Qed.

Lemma touches_only_refl T st : touches_only T st st.
Proof. repeat split; auto. Qed.

Lemma touches_only_trans T st1 st2 st3 :
  touches_only T st1 st2 -> touches_only T st2 st3 -> touches_only T st1 st3.
Proof.
  intros (?&?&?&?&Ha) (?&?&?&?&Hb). repeat split; try congruence.
  intros i Hi. rewrite Hb, Ha; auto.
Qed.

Lemma touches_only_out T st o : touches_only T st (with_out st o).
Proof. destruct st. repeat split; auto. Qed.

Lemma mutate_touches T i tagname method st :
  i ∈ T -> touches_only T st (final (mutate i tagname method st)).
Proof.
  intros Hi. unfold mutate. rewrite bind_eq. cbn [get].
  destruct (sources st !! i) as [src|] eqn:Hsrc; [|apply touches_only_refl].
  rewrite bind_eq.
  destruct (lookupObject_cases src tagname st) as [[[obj tag] ->]| ->];
    [|apply touches_only_refl].
  rewrite bind_eq.
  destruct (method obj tag) as [obj'|e]; cbn [lift]; [|apply touches_only_refl].
  destruct st as [srcs ids seln lst md o]. run. repeat split; auto.
  - apply length_insert.
  - intros j Hj. apply list_lookup_insert_ne. intros ->. contradiction.
Qed.

Lemma forM_mutate_touches T tagname method (l : list nat) st :
  Forall (fun i => i ∈ T) l ->
  touches_only T st (final (forM_ l (fun i => mutate i tagname method) st)).
Proof.
  intros Hl. revert st. induction Hl as [|i l Hi Hl IH]; intros st; cbn [forM_].
  - apply touches_only_refl.
  - rewrite bind_eq.
    pose proof (mutate_touches T i tagname method st Hi) as H1.
    destruct (mutate i tagname method st) as [[] st1|o st1]; cbn [final] in *; auto.
    eapply touches_only_trans; [exact H1|apply IH].
Qed.

(** A conversion returns a value and leaves the state alone, or prints its
    message and exits with status 2. *)
Lemma convert_cases (typename : option string) (value : string) (st : state) :
  (exists v, convert typename value st = Ok v st) \/
  (exists l, convert typename value st = Stop (Exit 2) (with_out st (out st ++ [l]))).
Proof.
  unfold convert. case_bool_decide.
  - destruct (_ || _); [left; eexists; reflexivity|].
    destruct (_ || _); [left; eexists; reflexivity|].
    destruct (py_int value); [left; eexists; reflexivity|].
    right. eexists. reflexivity.
  - destruct typename as [[|c t]|]; try (left; eexists; reflexivity).
    destruct (explicit_convert (String c t) value); [left; eexists; reflexivity|].
    right. eexists. reflexivity.
Qed.

Lemma forM_sources_after_touch T (m : M unit) (k : M unit) st :
  touches_only T st (final (m st)) ->
  (forall st', touches_only T st' (final (k st'))) ->
  touches_only T st (final ((m ;; k) st)).
Proof.
  intros Hm Hk. rewrite bind_eq.
  destruct (m st) as [[] st1|o st1]; cbn [final] in *; auto.
  eapply touches_only_trans; [exact Hm|apply Hk].
Qed.

Lemma print_touches T fmt args st : touches_only T st (final (print fmt args st)).
Proof. destruct st. repeat split; auto. Qed.

Lemma set_modified_touches T b st : touches_only T st (final (set_modified b st)).
Proof. destruct st. repeat split; auto. Qed.

Lemma set_branch_touches tagname typename value srcs st :
  touches_only srcs st (final (set_branch tagname typename value srcs st)).
Proof.
  unfold set_branch. rewrite bind_eq.
  destruct (convert_cases typename value st) as [[v ->]|[l ->]];
    [|apply touches_only_out].
  destruct srcs as [|i srcs]; [apply print_touches|].
  apply forM_sources_after_touch; [apply print_touches|]. intros st1.
  apply forM_sources_after_touch; [|intros; apply set_modified_touches].
  apply forM_mutate_touches. apply Forall_forall. auto.
Qed.

Lemma setbool_branch_touches op tagname srcs st :
  touches_only srcs st (final (setbool_branch op tagname srcs st)).
Proof.
  unfold setbool_branch.
  destruct srcs as [|i srcs]; [apply print_touches|].
  rewrite bind_eq.
  assert (Hafter : forall method st1,
             touches_only (i :: srcs) st1
               (final ((forM_ (i :: srcs) (fun i0 => mutate i0 tagname method);;
                        set_modified true) st1))).
  { intros method st1.
    apply forM_sources_after_touch; [|intros; apply set_modified_touches].
    apply forM_mutate_touches. apply Forall_forall. auto. }
  destruct (String.eqb op "+"); [|destruct (String.eqb op "!")].
  all: rewrite bind_eq; destruct st; run;
    eapply touches_only_trans; [|apply Hafter]; repeat split; auto.
Qed.

Lemma step_mutation (arg : string) (st : state) :
  is_mutation arg = true ->
  step options arg st =
  (srcs ← retrieve_selection options;
   if opt_list options then print "--list in effect, ignoring tagging commands" []
   else branch arg srcs) st.
Proof.
  unfold is_mutation, step, branch.
  destruct (mselcomp arg) as [[[[? ?] ?] ?]|]; [discriminate|].
  destruct (mseltag arg); [discriminate|].
  destruct (mset arg) as [[[[? ?] ?] ?]|]; [reflexivity|].
  destruct (msetbool arg) as [[? ?]|]; [reflexivity|discriminate].
Qed.

Lemma branch_touches (arg : string) (srcs : list nat) (st : state) :
  touches_only srcs st (final (branch arg srcs st)).
Proof.
  unfold branch.
  destruct (mset arg) as [[[[? ?] ?] ?]|]; [apply set_branch_touches|].
  destruct (msetbool arg) as [[? ?]|]; [apply setbool_branch_touches|].
  apply touches_only_refl.
Qed.

(** A mutation token freezes the materialized selection and leaves the
    accumulator, the number of sources and the sources outside the selection
    as they are, however the token ends. *)
Lemma step_mutation_touches (arg : string) (st : state) :
  is_mutation arg = true ->
  let st' := final (step options arg st) in
  selection st' = Some (materialized st) /\
  selected_ids st' = selected_ids st /\
  length (sources st') = length (sources st) /\
  (forall i, i ∉ materialized st -> sources st' !! i = sources st !! i).
Proof.
  intros Hm. rewrite (step_mutation _ _ Hm), bind_eq, retrieve_selection_eq.
  cbv zeta.
  destruct (opt_list options).
  - destruct (names _ ≫= join_names); destruct st; cbn; auto.
  - pose proof (branch_touches arg (materialized st)
       (State (sources st) (selected_ids st) (Some (materialized st)) (listed st)
          (modified st)
          (out st ++ match selection st, selected_ids st with
                     | Some _, _ => []
                     | None, None => [Printed "No explicit selection, using all sources." []]
                     | None, Some _ =>
                         [Printed "Using %d selected sources:" [VLen (materialized st)]]
                     end))) as (H1 & H2 & _ & H4 & H5).
    cbn [selection selected_ids sources] in *. auto.
Qed.

(** A selection token does to any state what it does on its own, but for
    the accumulator it adds to. *)
Lemma step_selection (arg : string) (ids : gset nat) (st : state) :
  alone options (sources st) arg = Some ids ->
  exists st', step options arg st = Ok tt st' /\
    sources st' = sources st /\ modified st' = modified st /\
    selection st' = None /\ selected_ids st' = Some (base st ∪ ids).
Proof.
  unfold alone.
  destruct (is_mutation arg) eqn:Hmut.
  { pose proof (step_mutation_touches arg (initial (sources st)) Hmut) as (_ & H & _).
    destruct (step options arg (initial (sources st))); cbn in H |- *;
      [rewrite H|]; intros; discriminate. }
  revert Hmut. unfold is_mutation, step.
  assert (Hsel : forall t : try (list nat),
    match (sel ← lift t; apply_selection sel arg) (initial (sources st)) with
    | Ok _ st0 => selected_ids st0
    | Stop _ _ => None
    end = Some ids ->
    exists st', (sel ← lift t; apply_selection sel arg) st = Ok tt st' /\
      sources st' = sources st /\ modified st' = modified st /\
      selection st' = None /\ selected_ids st' = Some (base st ∪ ids)).
  { intros [sel|e]; run0; [|discriminate].
    rewrite !apply_selection_eq. cbv zeta. cbn [initial sources].
    destruct (report (sources st) sel arg); [|discriminate].
    cbn. unfold base at 1. cbn. rewrite (left_id_L ∅ (∪)).
    intros [= <-]. eexists. repeat split. }
  destruct (mselcomp arg) as [[[[seltag oper] selval] unit]|].
  { intros _. destruct (py_float selval); [|discriminate].
    destruct (dict_get select_predicates (Str.lower oper)); [|discriminate].
    apply Hsel. }
  destruct (mseltag arg) as [seltag|]; [intros _; apply Hsel|].
  destruct (mset arg) as [[[[? ?] ?] ?]|]; [discriminate|].
  destruct (msetbool arg) as [[? ?]|]; [discriminate|].
  intros _. apply Hsel.
Qed.

Lemma cycle_start_false (st : state) (ids : gset nat) :
  selection st = None -> selected_ids st = Some ids ->
  cycle_start st = false /\ base st = ids.
Proof.
  intros Hs Hi. unfold base, cycle_start. rewrite Hs, Hi. auto.
Qed.

(** Consecutive selection tokens add their match sets to the accumulator. *)
Lemma selections_accumulate (args : list string) (st : state) :
  Forall (fun arg => is_Some (alone options (sources st) arg)) args ->
  exists st', forM_ args (step options) st = Ok tt st' /\
    sources st' = sources st /\ modified st' = modified st /\
    (args <> [] ->
     selection st' = None /\
     selected_ids st' = Some (base st ∪ ⋃ omap (alone options (sources st)) args)).
Proof.
  intros Hall. revert st Hall.
  induction args as [|arg args IH]; intros st Hall.
  { exists st. repeat split; auto; congruence. }
  apply Forall_cons in Hall as [[ids Hids] Hall].
  destruct (step_selection arg ids st Hids) as (st1 & Hstep & Hsrc & Hmod & Hsel & Hacc).
  rewrite <- Hsrc in Hall.
  destruct (IH st1 Hall) as (st' & Hrun & Hsrc' & Hmod' & Hrest).
  exists st'. cbn [forM_]. rewrite (bind_Ok _ _ _ _ _ Hstep).
  repeat split; [exact Hrun|congruence|congruence| |].
  all: destruct (cycle_start_false st1 _ Hsel Hacc) as [_ Hbase].
  all: destruct args as [|arg' args].
  - cbn in Hrun. injection Hrun as <-. exact Hsel.
  - apply Hrest. discriminate.
  - cbn in Hrun. injection Hrun as <-. rewrite Hacc. f_equal.
    cbn [omap list_omap]. rewrite Hids. cbn [union_list foldr].
    rewrite (right_id_L ∅ (∪)). reflexivity.
  - destruct Hrest as [_ ->]; [discriminate|]. f_equal.
    rewrite Hbase, Hsrc. cbn [omap list_omap]. rewrite Hids.
    cbn [union_list foldr]. rewrite (assoc_L (∪)). reflexivity.
Qed.

(** Mutation tokens that complete keep the frozen selection, the
    accumulator, the number of sources and the sources outside the
    selection. *)
Lemma mutations_keep_selection (ms : list string) (st st' : state) (sel : list nat) :
  Forall (fun m => is_mutation m = true) ms ->
  selection st = Some sel ->
  forM_ ms (step options) st = Ok tt st' ->
  selection st' = Some sel /\ selected_ids st' = selected_ids st /\
  length (sources st') = length (sources st) /\
  (forall i, i ∉ sel -> sources st' !! i = sources st !! i).
Proof.
  intros Hms. revert st. induction Hms as [|m ms Hm Hms IH]; intros st Hsel Hrun.
  { cbn in Hrun. injection Hrun as <-. auto. }
  cbn [forM_] in Hrun. rewrite bind_eq in Hrun.
  pose proof (step_mutation_touches m st Hm) as (H1 & H2 & H3 & H4).
  destruct (step options m st) as [[] st1|]; [|discriminate]. cbn [final] in *.
  unfold materialized in H1, H4. rewrite Hsel in H1, H4.
  destruct (IH st1 H1 Hrun) as (H1' & H2' & H3' & H4').
  repeat split; try congruence. intros i Hi. rewrite H4', H4; auto.
Qed.

(** C6: applying the effects of a mutation token does not change the
    selection it was given; the selection the token leaves is the one it
    materialized; and the selection token that comes next starts again from
    its own match set. *)
Theorem frozen_selection_is_replaced (m arg : string) (st : state) :
  is_mutation m = true ->
  let st1 := final (step options m st) in
  (forall srcs s, selection (final (branch m srcs s)) = selection s /\
                  selected_ids (final (branch m srcs s)) = selected_ids s) /\
  selection st1 = Some (materialized st) /\
  (forall ids, alone options (sources st1) arg = Some ids ->
     exists st2, step options arg st1 = Ok tt st2 /\
       selected_ids st2 = Some ids /\ selection st2 = None).
Proof.
  intros Hm st1. split; [|split].
  - intros srcs s. destruct (branch_touches m srcs s) as (H1 & H2 & _). auto.
  - apply (step_mutation_touches m st Hm).
  - intros ids Hids.
    destruct (step_selection arg ids st1 Hids) as (st2 & Hstep & _ & _ & Hsel & Hacc).
    exists st2. repeat split; auto. rewrite Hacc. f_equal.
    assert (Hfrozen : selection st1 = Some (materialized st))
      by apply (step_mutation_touches m st Hm).
    unfold base, cycle_start. rewrite Hfrozen. cbn. apply (left_id_L ∅ (∪)).
Qed.

(** C7, with a proviso on the conversion of the value: a mutation token that
    finds the materialized selection empty changes no source and not the flag
    [modified], prints its notice and lets the run go on -- provided, when [--list] is off and the token is
    an assignment, that the conversion of its value succeeds. *)
Theorem empty_selection_is_skipped (m : string) (st : state) :
  is_mutation m = true ->
  materialized st = [] ->
  (opt_list options = false ->
   forall tagname typespec typename value,
     mset m = Some (tagname, typespec, typename, value) ->
     exists v, forall s, convert typename value s = Ok v s) ->
  exists st' pre,
    step options m st = Ok tt st' /\
    sources st' = sources st /\ modified st' = modified st /\
    out st' = out st ++ pre ++
      [Printed (if opt_list options then "--list in effect, ignoring tagging commands"
              else "No sources selected, ignoring tagging commands") []].
Proof.
  intros Hm Hempty Hconv.
  rewrite (step_mutation _ _ Hm), bind_eq, retrieve_selection_eq. cbv zeta.
  rewrite Hempty.
  set (note := match selection st, selected_ids st with
               | Some _, _ => []
               | None, None => [Printed "No explicit selection, using all sources." []]
               | None, Some _ => [Printed "Using %d selected sources:" [VLen []]]
               end).
  destruct (opt_list options).
  - exists (State (sources st) (selected_ids st) (Some []) (Some true) (modified st)
              (((out st ++ note) ++ [Printed "Sources: %s" [VStr ""]]) ++
               [Printed "--list in effect, ignoring tagging commands" []])),
           (note ++ [Printed "Sources: %s" [VStr ""]]).
    split; [reflexivity|]. repeat split. cbn [out]. rewrite <- !app_assoc. reflexivity.
  - exists (State (sources st) (selected_ids st) (Some []) (listed st) (modified st)
              ((out st ++ note) ++
               [Printed "No sources selected, ignoring tagging commands" []])), note.
    split; [|repeat split; cbn [out]; rewrite <- !app_assoc; reflexivity].
    unfold branch. specialize (Hconv eq_refl).
    destruct (mset m) as [[[[tagname typespec] typename] value]|] eqn:Hset.
    + destruct (Hconv _ _ _ _ eq_refl) as [v Hv].
      unfold set_branch. rewrite bind_eq, Hv. reflexivity.
    + unfold is_mutation in Hm. rewrite Hset in Hm.
      destruct (mselcomp m) as [[[[? ?] ?] ?]|]; [discriminate|].
      destruct (mseltag m); [discriminate|].
      destruct (msetbool m) as [[op tagname]|]; [|discriminate].
      reflexivity.
Qed.

Lemma quiet_refl st : quiet st st.
Proof. repeat split. Qed.

Lemma quiet_trans st1 st2 st3 : quiet st1 st2 -> quiet st2 st3 -> quiet st1 st3.
Proof. intros (?&?&?) (?&?&?). repeat split; congruence. Qed.

Lemma saved_app o1 o2 : saved (o1 ++ o2) = saved o1 ++ saved o2.
Proof. unfold saved. apply omap_app. Qed.

Lemma report_print srcs sel selstr l :
  report srcs sel selstr = Val l -> saved [l] = [].
Proof.
  unfold report. destruct sel as [|a [|b sel]].
  - intros [= <-]. reflexivity.
  - destruct (names _); cbn; [intros [= <-]; reflexivity|discriminate].
  - destruct (_ <=? _)%nat; [|intros [= <-]; reflexivity].
    destruct (names _ ≫= join_names); cbn; [intros [= <-]; reflexivity|discriminate].
Qed.

Lemma apply_selection_quiet sel selstr st :
  quiet st (final (apply_selection sel selstr st)).
Proof.
  rewrite apply_selection_eq. cbv zeta.
  assert (Hh : saved (header st) = []) by (unfold header; destruct (cycle_start st); reflexivity).
  destruct (report (sources st) sel selstr) as [l|e] eqn:Hr; repeat split; cbn.
  - rewrite !saved_app, Hh, (report_print _ _ _ _ Hr), !app_nil_r. reflexivity.
  - rewrite saved_app, Hh, app_nil_r. reflexivity.
Qed.

Lemma retrieve_selection_quiet st :
  quiet st (final (retrieve_selection options st)).
Proof.
  rewrite retrieve_selection_eq. cbv zeta.
  assert (Hn : forall n, saved (match selection st, selected_ids st with
                      | Some _, _ => []
                      | None, None => [Printed "No explicit selection, using all sources." []]
                      | None, Some _ => [Printed "Using %d selected sources:" [n]]
                      end) = []).
  { intros n. destruct (selection st), (selected_ids st); reflexivity. }
  destruct (opt_list options); [destruct (names _ ≫= join_names)|]; repeat split; cbn.
  all: rewrite ?saved_app, Hn, ?app_nil_r; reflexivity.
Qed.

(** What a token that is not a mutation token does. *)
Lemma step_not_mutation (arg : string) (st : state) :
  is_mutation arg = false ->
  (exists sel, step options arg st = apply_selection sel arg st) \/
  (exists e, step options arg st = Stop (Raise e) st) \/
  step options arg st =
    Stop (Exit 2)
      (with_out st
         (out st ++ [ParserError
                       "Malformed selection string '%s': right-hand side is not a number."
                       [VStr arg]])).
Proof.
  unfold is_mutation, step.
  assert (Hsel : forall t : try (list nat),
    (exists sel, (sel ← lift t; apply_selection sel arg) st = apply_selection sel arg st) \/
    (exists e, (sel ← lift t; apply_selection sel arg) st = Stop (Raise e) st) \/
    (sel ← lift t; apply_selection sel arg) st =
      Stop (Exit 2)
        (with_out st
           (out st ++ [ParserError
                         "Malformed selection string '%s': right-hand side is not a number."
                         [VStr arg]]))).
  { intros [sel|e]; [left; exists sel|right; left; exists e]; reflexivity. }
  destruct (mselcomp arg) as [[[[seltag oper] selval] unit]|].
  { intros _. destruct (py_float selval); [|right; right; reflexivity].
    destruct (dict_get select_predicates (Str.lower oper));
      [apply Hsel|right; left; eexists; reflexivity]. }
  destruct (mseltag arg) as [seltag|]; [intros _; apply Hsel|].
  destruct (mset arg) as [[[[? ?] ?] ?]|]; [discriminate|].
  destruct (msetbool arg) as [[? ?]|]; [discriminate|].
  intros _. apply Hsel.
Qed.

Lemma step_list_quiet (arg : string) (st : state) :
  opt_list options = true ->
  quiet st (final (step options arg st)).
Proof.
  intros Hlist. destruct (is_mutation arg) eqn:Hm.
  - rewrite (step_mutation _ _ Hm), bind_eq, Hlist.
    pose proof (retrieve_selection_quiet st) as Hq.
    destruct (retrieve_selection options st) as [sel st1|]; cbn [final] in *; [|exact Hq].
    eapply quiet_trans; [exact Hq|]. destruct st1. repeat split. cbn.
    rewrite saved_app, app_nil_r. reflexivity.
  - destruct (step_not_mutation arg st Hm) as [[sel ->]|[[e ->]| ->]].
    + apply apply_selection_quiet.
    + apply quiet_refl.
    + destruct st. repeat split. cbn. rewrite saved_app, app_nil_r. reflexivity.
Qed.

Lemma loop_list_quiet (args : list string) (st : state) :
  opt_list options = true ->
  quiet st (final (forM_ args (step options) st)).
Proof.
  intros Hlist. revert st. induction args as [|arg args IH]; intros st; cbn [forM_].
  - apply quiet_refl.
  - rewrite bind_eq. pose proof (step_list_quiet arg st Hlist) as Hq.
    destruct (step options arg st) as [[] st1|]; cbn [final] in *; [|exact Hq].
    eapply quiet_trans; [exact Hq|apply IH].
Qed.

(** C10: with [--list], whatever the tokens, the sources at the end of the
    run -- and after any number of tokens -- are the sources loaded, the flag
    [modified] is still false, the model has not been saved, and the run ends
    through an exit or an exception before the saving code. *)
Theorem list_mode_changes_nothing (rem_args : list string) (stdin_ok : bool)
    (model : list value) :
  opt_list options = true ->
  (forall args : list string,
     let st := final (forM_ args (step options) (initial model)) in
     sources st = model /\ modified st = false /\ saved (out st) = []) /\
  (let st := final (main options rem_args stdin_ok (initial model)) in
   sources st = model /\ modified st = false /\ saved (out st) = []) /\
  (exists o st, main options rem_args stdin_ok (initial model) = Stop o st).
Proof.
  intros Hlist. split.
  { intros args. apply (loop_list_quiet args (initial model) Hlist). }
  assert (Hmain :
    quiet (initial model) (final (main options rem_args stdin_ok (initial model))) /\
    exists o st, main options rem_args stdin_ok (initial model) = Stop o st).
  { unfold main.
    destruct rem_args as [|skymodel [|arg args]].
    1,2: split; [repeat split|eexists _, _; reflexivity].
    rewrite bind_eq. cbn [get initial sources].
    destruct model as [|src model];
      [split; [repeat split|eexists _, _; reflexivity]|].
    rewrite bind_eq. cbn [print emit].
    set (st0 := State _ _ _ _ _ _).
    assert (Hq0 : quiet (initial (src :: model)) st0) by (repeat split).
    rewrite bind_eq.
    pose proof (loop_list_quiet (arg :: args) st0 Hlist) as Hq1.
    destruct (forM_ (arg :: args) (step options) st0) as [[] st1|o st1];
      cbn [final] in *;
      [|split; [eapply quiet_trans; [exact Hq0|exact Hq1]|eexists _, _; reflexivity]].
    unfold finish. rewrite Hlist, !bind_eq. cbn [get].
    assert (Hfin : forall st2, quiet st1 st2 ->
      let r := ((st ← get;
                 (if negb (modified st)
                  then print "Model was not modified" [];; sys_exit 0 else ret ());;
                 (if negb (opt_force options)
                  then print "Press ENTER to save model or Ctrl+C to cancel: " [];;
                       (if stdin_ok then ret () else print "Cancelling" [];; sys_exit 1)
                  else ret ());;
                 st3 ← get;
                 match opt_output options with
                 | Some (String c o) =>
                     emit (Save (String c o) (sources st3));;
                     print "Saved updated model to %s" [VStr (String c o)]
                 | _ => emit (Save skymodel (sources st3));; print "Saved updated model" []
                 end) st2) in
      quiet (initial (src :: model)) (final r) /\ exists o st, r = Stop o st).
    { intros st2 Hq2 r.
      assert (Hq : quiet (initial (src :: model)) st2)
        by (eapply quiet_trans; [exact Hq0|eapply quiet_trans; eauto]).
      assert (Hmod : modified st2 = false) by apply Hq.
      subst r. rewrite bind_eq. cbn [get]. rewrite Hmod. cbn [negb].
      destruct st2 as [srcs2 ids2 sel2 lst2 md2 o2].
      destruct Hq as (Ha & Hb & Hs). cbn [sources modified out] in Ha, Hb, Hs.
      run1. split; [|eauto]. unfold quiet. cbn [sources modified out].
      split; [exact Ha|split; [exact Hb|]]. rewrite saved_app, Hs. reflexivity. }
    destruct (listed st1) as [[|]|].
    - apply Hfin, quiet_refl.
    - rewrite bind_eq. pose proof (retrieve_selection_quiet st1) as Hq2.
      destruct (retrieve_selection options st1) as [sel st2|o st2]; cbn [final] in *.
      + apply Hfin, Hq2.
      + split; [|eexists _, _; reflexivity].
        eapply quiet_trans; [exact Hq0|eapply quiet_trans; [exact Hq1|exact Hq2]].
    - split; [|eexists _, _; reflexivity]. cbn [final].
      eapply quiet_trans; [exact Hq0|exact Hq1]. }
  destruct Hmain as [Hq Hstop]. split; [|exact Hstop]. exact Hq.
Qed.
End Machine.

(* ===================================================================== *)
(** ** Reading a comparison token *)
(* ===================================================================== *)

Lemma append_cons (c : ascii) (t r : string) : String c t +:+ r = String c (t +:+ r).
Proof. reflexivity. Qed.

Lemma append_nil (r : string) : EmptyString +:+ r = r.
Proof. reflexivity. Qed.

Lemma take_app (t rest : string) : Str.take (String.length t) (t +:+ rest) = t.
Proof.
  induction t as [|c t IH]; [reflexivity|].
  rewrite append_cons. cbn [String.length Str.take]. rewrite IH. reflexivity.
Qed.

Lemma plus_stuck ic c pos s g k :
  Str.starts (Re.cls_match ic c) s = false -> Re.plus ic c pos s g k = None.
Proof. destruct s as [|a s]; cbn; [reflexivity|]. intros ->. reflexivity. Qed.

(** A greedy repetition stops after the longest run, when the rest of the
    pattern succeeds there. *)
Lemma plus_longest ic c (t rest : string) pos g k res :
  t <> EmptyString ->
  Str.all (Re.cls_match ic c) t = true ->
  Str.starts (Re.cls_match ic c) rest = false ->
  k (pos + String.length t)%nat rest g = Some res ->
  Re.plus ic c pos (t +:+ rest) g k = Some res.
Proof.
  intros Hne Hall Hrest. revert pos.
  induction t as [|a t IH]; [congruence|]. intros pos Hk.
  cbn [Str.all] in Hall. apply andb_true_iff in Hall as [Ha Hall].
  rewrite append_cons. cbn [Re.plus]. rewrite Ha.
  destruct t as [|b t].
  - rewrite append_nil, (plus_stuck _ _ _ _ _ _ Hrest).
    cbn in Hk. rewrite Nat.add_1_r in Hk. exact Hk.
  - rewrite IH; [reflexivity|discriminate|exact Hall|].
    cbn [String.length] in *. rewrite <- Hk. f_equal. lia.
Qed.

Lemma span_spec (p : ascii -> bool) (s : string) :
  s = fst (Str.span p s) +:+ snd (Str.span p s) /\
  Str.all p (fst (Str.span p s)) = true /\
  Str.starts p (snd (Str.span p s)) = false.
Proof.
  induction s as [|c s (IH1 & IH2 & IH3)]; cbn [Str.span]; [repeat split|].
  destruct (p c) eqn:Hc; [|repeat split; exact Hc].
  destruct (Str.span p s) as [v rest]. cbn [fst snd] in *.
  rewrite append_cons. cbn [Str.all]. rewrite Hc, IH2, <- IH1. repeat split. exact IH3.
Qed.

Lemma take_span (p : ascii -> bool) (s : string) :
  Str.take (String.length (fst (Str.span p s))) s = fst (Str.span p s).
Proof.
  destruct (span_spec p s) as (Hs & _). destruct (Str.span p s) as [v rest].
  cbn [fst snd] in *. subst s. apply take_app.
Qed.

Lemma cls_complement (m : string) (a : ascii) :
  Re.cls_match true (Re.Cls false m) a = negb (Re.cls_match true (Re.Cls true m) a).
Proof. unfold Re.cls_match. cbn. destruct (Re.in_members true a m); reflexivity. Qed.

(** What the comparison pattern finds in a token made of a tag, an operator
    the alternation reads, and a text that Str.starts like a value. *)
Lemma mselcomp_parts (t op r : string) :
  t <> EmptyString -> Str.all tag_chr t = true ->
  Str.starts (fun c => negb (tag_chr c)) op = true ->
  picks op r ->
  Str.starts val_chr r = true ->
  mselcomp (t +:+ op +:+ r) = Some (t, op, fst (value_unit r), snd (value_unit r)).
Proof.
  intros Hne Htag Hop Hpick Hval.
  unfold mselcomp, Re.match_, mselcomp_re. cbn [Re.go].
  fold ops_re.
  set (g4 := match snd (Str.span val_chr r) with
             | String u _ => <[4%nat := String u EmptyString]>
             | EmptyString => fun g : Re.caps => g
             end).
  set (gfinal := g4 (<[3%nat := fst (Str.span val_chr r)]> (<[2%nat := op]> (<[1%nat := t]> ∅)))).
  assert (Hres : (fun g : Re.caps => (group g 1, group g 2, group g 3, g !! 4%nat)) gfinal
                 = (t, op, fst (value_unit r), snd (value_unit r))).
  { unfold gfinal, g4, value_unit, group.
    destruct (Str.span val_chr r) as [v [|u rest]]; cbn [fst snd]; simplify_map_eq; reflexivity. }
  rewrite <- Hres.
  enough (Hgo : forall k0, k0 = (fun (_ : nat) (_ : string) (g : Re.caps) => Some g) ->
     Re.plus true (Re.Cls true "=<>!.") 0 (t +:+ op +:+ r) ∅
       (fun pos' s' g' =>
          Re.go true ops_re pos' s' (<[1%nat := Str.take (pos' - 0) (t +:+ op +:+ r)]> g')
            (fun pos'0 s'0 g'0 =>
               Re.plus true (Re.Cls true "dms") pos'0 s'0
                 (<[2%nat := Str.take (pos'0 - pos') s']> g'0)
                 (fun pos'1 s'1 g'1 =>
                    match
                      match s'1 with
                      | String a s'2 =>
                          if Re.cls_match true (Re.Cls false "dms") a
                          then k0 (S pos'1) s'2
                                 (<[4%nat := Str.take (S pos'1 - pos'1) s'1]>
                                    (<[3%nat := Str.take (pos'1 - pos'0) s'0]> g'1))
                          else None
                      | EmptyString => None
                      end
                    with
                    | Some res => Some res
                    | None => k0 pos'1 s'1 (<[3%nat := Str.take (pos'1 - pos'0) s'0]> g'1)
                    end))) = Some gfinal).
  { rewrite (Hgo _ eq_refl). reflexivity. }
  intros k0 ->.
  apply plus_longest; [exact Hne|exact Htag| |].
  { destruct op as [|o op]; [discriminate|]. cbn [Str.starts] in Hop |- *.
    rewrite append_cons. cbn [Str.starts]. fold tag_chr.
    destruct (tag_chr o); [discriminate|reflexivity]. }
  apply Hpick.
  destruct (span_spec val_chr r) as (Hr & Hv & Hrest).
  rewrite Hr at 1.
  apply plus_longest; [| exact Hv | exact Hrest |].
  { destruct r as [|c r']; [discriminate|]. cbn [Str.starts] in Hval. cbn [Str.span].
    unfold val_chr in Hval |- *. rewrite Hval.
    destruct (Str.span _ r'). discriminate. }
  rewrite !Nat.add_0_l, Nat.sub_0_r.
  replace (String.length t + String.length op - String.length t)%nat
    with (String.length op) by lia.
  replace (String.length t + String.length op + String.length (fst (Str.span val_chr r))
           - (String.length t + String.length op))%nat
    with (String.length (fst (Str.span val_chr r))) by lia.
  rewrite !take_app, take_span.
  unfold gfinal, g4.
  destruct (snd (Str.span val_chr r)) as [|u rest] eqn:Hsnd.
  - reflexivity.
  - cbn [Str.starts] in Hrest. rewrite cls_complement.
    unfold val_chr in Hrest. rewrite Hrest. cbn [negb].
    replace (S _ - _)%nat with 1%nat by lia.
    reflexivity.
Qed.

Lemma chr_eq_equals (c : ascii) : Re.chr_eq true c "=" = Ascii.eqb c "=".
Proof. destruct c as [[] [] [] [] [] [] [] []]; reflexivity. Qed.

(** Decide the comparisons of known characters in the goal. *)
Ltac decide_chars :=
  repeat match goal with
    | |- context [Ascii.eqb ?x ?y] =>
        let v := eval vm_compute in (Ascii.eqb x y) in
        lazymatch v with
        | true => change (Ascii.eqb x y) with true
        | false => change (Ascii.eqb x y) with false
        end
    end.

Ltac read_alternation :=
  unfold ops_re; cbn [select_predicates map fst Re.alts foldr];
  rewrite ?append_cons, ?append_nil; cbn [Re.go Re.lit].

(** The symbolic operators: [>] and [<] are read as such only when no [=]
    follows. *)
Lemma picks_symbolic (op r : string) :
  In op ["=="; "!="; ">="; "<="; ">"; "<"] ->
  Str.starts (fun c => Ascii.eqb c "=") r = false ->
  picks op r.
Proof.
  intros Hin Hr pos g k res Hk.
  assert (Hnext : match r with
                  | String c _ => Re.chr_eq true c "=" = false
                  | EmptyString => True
                  end).
  { destruct r as [|c r]; [exact I|]. rewrite chr_eq_equals. exact Hr. }
  cbn [In] in Hin.
  destruct Hin as [<-|[<-|[<-|[<-|[<-|[<-|[]]]]]]].
  all: cbn [String.length] in Hk.
  all: rewrite ?Nat.add_1_r, ?(Nat.add_succ_r pos 1), ?Nat.add_1_r in Hk.
  all: read_alternation.
  all: destruct r as [|c r]; rewrite ?Hnext; unfold Re.chr_eq; decide_chars; cbn [Re.lit];
       rewrite Hk; reflexivity.
Qed.

(** The FORTRAN-style operators, in any mix of upper and lower case. *)
Lemma picks_alias (a r : string) :
  In (Str.lower a) [".eq."; ".ne."; ".ge."; ".le."; ".gt."; ".lt."] ->
  picks a r.
Proof.
  intros Hin pos g k res Hk.
  assert (Hshape : exists a1 a2 a3 a4,
             a = String a1 (String a2 (String a3 (String a4 EmptyString)))).
  { cbn [In] in Hin.
    destruct a as [|a1 [|a2 [|a3 [|a4 [|a5 a]]]]]; cbn [Str.lower] in Hin;
      try (repeat destruct Hin as [Hin|Hin]; solve [discriminate|contradiction]).
    eauto. }
  destruct Hshape as (a1 & a2 & a3 & a4 & ->).
  cbn [Str.lower In] in Hin. cbn [String.length] in Hk.
  replace (pos + 4)%nat with (S (S (S (S pos)))) in Hk by lia.
  read_alternation. unfold Re.chr_eq.
  destruct Hin as [H|[H|[H|[H|[H|[H|[]]]]]]]; injection H; intros.
  all: repeat match goal with
         | E : _ = Str.lower_chr _ |- _ => rewrite <- E; clear E
         end.
  all: decide_chars; cbn [Re.lit]; rewrite Hk; reflexivity.
Qed.

(* ===================================================================== *)
(** ** Operators and their aliases *)
(* ===================================================================== *)

Section Aliases.

Context {B : Builtins}.
Variable options : Options.

Lemma report_alike (srcs : list value) (sel : list nat) (s1 s2 : string) :
  match report srcs sel s1, report srcs sel s2 with
  | Val _, Val _ => True
  | Exc e1, Exc e2 => e1 = e2
  | _, _ => False
  end.
Proof.
  unfold report. destruct sel as [|a [|b sel]]; [exact I| |].
  - destruct (names _); cbn; auto.
  - destruct (_ <=? _)%nat; [|exact I].
    destruct (names _ ≫= join_names); cbn; auto.
Qed.

(** The same selection applied under two names. *)
Lemma apply_selection_alike (sel : list nat) (s1 s2 : string) (st : state) :
  same_effect (apply_selection sel s1 st) (apply_selection sel s2 st).
Proof.
  rewrite !apply_selection_eq. cbv zeta.
  pose proof (report_alike (sources st) sel s1 s2) as H.
  destruct (report (sources st) sel s1), (report (sources st) sel s2);
    try contradiction; subst; unfold same_effect, same_state, with_out;
    cbn [sources selected_ids selection listed modified out]; repeat split; auto.
  rewrite !length_app. reflexivity.
Qed.

(** Both spellings of an operator name the same predicate. *)
Lemma alias_predicate (sym alias : string) :
  In (sym, alias) operator_aliases ->
  dict_get select_predicates (Str.lower sym) = dict_get select_predicates alias /\
  In sym ["=="; "!="; ">="; "<="; ">"; "<"] /\
  In alias [".eq."; ".ne."; ".ge."; ".le."; ".gt."; ".lt."] /\
  Str.starts (fun c => negb (tag_chr c)) sym = true.
Proof.
  cbn [operator_aliases In].
  intros [H|[H|[H|[H|[H|[H|[]]]]]]]; injection H as <- <-; cbn [In];
    (split; [reflexivity|]); (split; [tauto|]); (split; [tauto|reflexivity]).
Qed.

(** C8: a comparison token selects the same sources whether its operator is
    written with symbols or with the FORTRAN-style alias, in any case of
    letters.  The token is made of a tag [t], of the operator and of a
    right-hand side [r] that starts like a value (not with [d], [m], [s] nor
    with [=]); both tokens are read as comparisons of the same tag with the
    same value and unit, and processing them has the same effect on the
    selection, up to the text of the token in the lines printed. *)
Theorem operator_aliases_select_alike (t sym alias a r : string) (st : state) :
  In (sym, alias) operator_aliases ->
  Str.lower a = alias ->
  t <> EmptyString ->
  Str.all tag_chr t = true ->
  Str.starts val_chr r = true ->
  Str.starts (fun c => Ascii.eqb c "=") r = false ->
  mselcomp (t +:+ sym +:+ r) = Some (t, sym, fst (value_unit r), snd (value_unit r)) /\
  mselcomp (t +:+ a +:+ r) = Some (t, a, fst (value_unit r), snd (value_unit r)) /\
  same_effect (step options (t +:+ sym +:+ r) st) (step options (t +:+ a +:+ r) st).
Proof.
  intros Hpair Ha Hne Htag Hval Heq.
  destruct (alias_predicate sym alias Hpair) as (Hpred & Hsym & Halias & Hstart).
  assert (Hastart : Str.starts (fun c => negb (tag_chr c)) a = true).
  { subst alias. cbn [In] in Halias.
    destruct a as [|a1 a]; [cbn in Halias; intuition discriminate|].
    cbn [Str.lower Str.starts] in *.
    assert (Hdot : Str.lower_chr a1 = "."%char)
      by (repeat destruct Halias as [Halias|Halias]; congruence || contradiction).
    revert Hdot. clear. destruct a1 as [[] [] [] [] [] [] [] []]; vm_compute; congruence. }
  assert (H1 : mselcomp (t +:+ sym +:+ r)
               = Some (t, sym, fst (value_unit r), snd (value_unit r))).
  { apply mselcomp_parts; auto. apply picks_symbolic; auto. }
  assert (H2 : mselcomp (t +:+ a +:+ r)
               = Some (t, a, fst (value_unit r), snd (value_unit r))).
  { apply mselcomp_parts; auto. apply picks_alias. rewrite Ha. exact Halias. }
  split; [exact H1|]. split; [exact H2|].
  unfold step. rewrite H1, H2, Ha, Hpred.
  destruct (py_float (fst (value_unit r))) as [f|].
  - destruct (dict_get select_predicates alias) as [predicate|].
    + rewrite !bind_eq. cbn [get].
      destruct (select_comp t predicate _ (sources st)) as [sel|e]; cbn [lift].
      * apply apply_selection_alike.
      * repeat split.
    + repeat split.
  - unfold parser_error. rewrite !bind_eq. unfold same_effect, same_state.
    destruct st. cbn [emit sys_exit stop sources selected_ids selection listed modified out].
    repeat split. rewrite !length_app. reflexivity.
Qed.

End Aliases.

(* ===================================================================== *)
(** ** The theorems on the small catalog *)
(* ===================================================================== *)

(** [ra<10d +dE B]: the selection [+dE] used is A, and [B] starts again. *)
Lemma frozen_selection_witness :
  selection (final (step (B := RefEnv.builtins) Scenario.plain "+dE"
                      (Scenario.after Scenario.plain ["ra<10d"])))
  = Some (materialized (Scenario.after Scenario.plain ["ra<10d"])) /\
  exists st2,
    step (B := RefEnv.builtins) Scenario.plain "B"
         (final (step (B := RefEnv.builtins) Scenario.plain "+dE"
                   (Scenario.after Scenario.plain ["ra<10d"]))) = Ok tt st2 /\
    selected_ids st2 = Some {[1%nat]} /\ selection st2 = None.
Proof.
  destruct (frozen_selection_is_replaced (B := RefEnv.builtins) Scenario.plain "+dE" "B"
              (Scenario.after Scenario.plain ["ra<10d"])) as (_ & Hsel & Hnext).
  - vm_compute. reflexivity.
  - split; [exact Hsel|]. apply Hnext. vm_compute. reflexivity.
Defined.

(** [Nope* x=bool:xyz]: nothing is selected, and the assignment still ends
    the run, with status 2. *)
Lemma empty_selection_counterexample :
  is_mutation "x=bool:xyz" = true /\
  materialized (Scenario.after Scenario.plain ["Nope*"]) = [] /\
  step (B := RefEnv.builtins) Scenario.plain "x=bool:xyz"
       (Scenario.after Scenario.plain ["Nope*"]) =
  Stop (Exit 2)
    (State Scenario.catalog (Some ∅) (Some []) (Some false) false
       [ Printed "Selecting sources:" [];
         Printed "  %-16s: no sources selected" [VStr "Nope*"];
         Printed "Using %d selected sources:" [VInt 0];
         Printed ("Can't parse " +:+ dq +:+ "%s" +:+ dq +:+ " as a value of type bool")
               [VStr "xyz"] ]).
Proof. vm_compute. repeat split. Qed.

(** [Nope* x=5]: nothing is selected, the assignment is skipped. *)
Lemma empty_selection_witness :
  exists st' pre,
    step (B := RefEnv.builtins) Scenario.plain "x=5"
         (Scenario.after Scenario.plain ["Nope*"]) = Ok tt st' /\
    sources st' = sources (Scenario.after Scenario.plain ["Nope*"]) /\
    modified st' = modified (Scenario.after Scenario.plain ["Nope*"]) /\
    out st' = out (Scenario.after Scenario.plain ["Nope*"]) ++ pre ++
      [Printed (if opt_list Scenario.plain
              then "--list in effect, ignoring tagging commands"
              else "No sources selected, ignoring tagging commands") []].
Proof.
  apply (empty_selection_is_skipped (B := RefEnv.builtins) Scenario.plain "x=5"
           (Scenario.after Scenario.plain ["Nope*"])).
  - vm_compute. reflexivity.
  - vm_compute. reflexivity.
  - intros _ tagname typespec typename value Hm. vm_compute in Hm.
    injection Hm as <- <- <- <-. exists (VInt 5). intros s. reflexivity.
Defined.

(** [ra>10d] and [ra.GT.10d]. *)
Lemma operator_aliases_witness :
  mselcomp "ra>10d" = Some ("ra", ">", "10", Some "d") /\
  mselcomp "ra.GT.10d" = Some ("ra", ".GT.", "10", Some "d") /\
  same_effect
    (step (B := RefEnv.builtins) Scenario.plain "ra>10d" (initial Scenario.catalog))
    (step (B := RefEnv.builtins) Scenario.plain "ra.GT.10d" (initial Scenario.catalog)).
Proof.
  apply (operator_aliases_select_alike (B := RefEnv.builtins) Scenario.plain
           "ra" ">" ".gt." ".GT." "10d" (initial Scenario.catalog)).
  - cbn. tauto.
  - reflexivity.
  - discriminate.
  - reflexivity.
  - reflexivity.
  - reflexivity.
Defined.

(** [--list] with [A +dE]. *)
Lemma list_mode_witness :
  sources (final (main (B := RefEnv.builtins) Scenario.listing
                    ["model.lsm"; "A"; "+dE"] true (initial Scenario.catalog)))
  = Scenario.catalog /\
  modified (final (main (B := RefEnv.builtins) Scenario.listing
                     ["model.lsm"; "A"; "+dE"] true (initial Scenario.catalog)))
  = false /\
  saved (out (final (main (B := RefEnv.builtins) Scenario.listing
                       ["model.lsm"; "A"; "+dE"] true (initial Scenario.catalog))))
  = [].
Proof.
  apply (list_mode_changes_nothing (B := RefEnv.builtins) Scenario.listing
           ["model.lsm"; "A"; "+dE"] true Scenario.catalog).
  reflexivity.
Defined.

(* ===================================================================== *)
(** ** Reading the tokens *)
(* ===================================================================== *)

Lemma append_assoc (a b c : string) : (a +:+ b) +:+ c = a +:+ b +:+ c.
Proof. induction a as [|x a IH]; [reflexivity|]. rewrite !append_cons, IH. reflexivity. Qed.

Lemma append_nil_r (a : string) : a +:+ EmptyString = a.
Proof. induction a as [|x a IH]; [reflexivity|]. rewrite append_cons, IH. reflexivity. Qed.

Lemma all_app (p : ascii -> bool) (a b : string) :
  Str.all p (a +:+ b) = Str.all p a && Str.all p b.
Proof.
  induction a as [|x a IH]; [reflexivity|].
  rewrite append_cons. cbn [Str.all]. rewrite IH, andb_assoc. reflexivity.
Qed.

(** When the rest of the pattern fails wherever a repetition may stop, the
    repetition fails. *)
Lemma plus_none ic c (u rest : string) pos g k :
  (forall u1 u2, u = u1 +:+ u2 -> u1 <> EmptyString ->
     k (pos + String.length u1)%nat (u2 +:+ rest) g = None) ->
  Str.starts (Re.cls_match ic c) rest = false ->
  Re.plus ic c pos (u +:+ rest) g k = None.
Proof.
  revert pos. induction u as [|a u IH]; intros pos Hk Hrest.
  - rewrite append_nil. apply plus_stuck. exact Hrest.
  - rewrite append_cons. cbn [Re.plus].
    destruct (Re.cls_match ic c a); [|reflexivity].
    rewrite IH; [| |exact Hrest].
    + specialize (Hk (String a EmptyString) u eq_refl). cbn in Hk.
      rewrite Nat.add_1_r in Hk. apply Hk. discriminate.
    + intros u1 u2 -> Hne.
      specialize (Hk (String a u1) u2 eq_refl). cbn [String.length] in Hk.
      rewrite Nat.add_succ_r in Hk. apply Hk. discriminate.
Qed.

(** A greedy repetition gives back the characters [u] when the rest of the
    pattern fails everywhere in them and succeeds before them. *)
Lemma plus_backtrack ic c (t u rest : string) pos g k res :
  t <> EmptyString ->
  Str.all (Re.cls_match ic c) t = true ->
  (forall u1 u2, u = u1 +:+ u2 -> u1 <> EmptyString ->
     k (pos + String.length t + String.length u1)%nat (u2 +:+ rest) g = None) ->
  Str.starts (Re.cls_match ic c) rest = false ->
  k (pos + String.length t)%nat (u +:+ rest) g = Some res ->
  Re.plus ic c pos (t +:+ u +:+ rest) g k = Some res.
Proof.
  intros Hne Hall Hu Hrest. revert pos Hu.
  induction t as [|a t IH]; [congruence|]. intros pos Hu Hk.
  cbn [Str.all] in Hall. apply andb_true_iff in Hall as [Ha Hall].
  rewrite append_cons. cbn [Re.plus]. rewrite Ha.
  destruct t as [|b t].
  - rewrite append_nil. cbn [String.length] in *. rewrite Nat.add_1_r in *.
    rewrite (plus_none ic c u rest (S pos) g k Hu Hrest). exact Hk.
  - rewrite IH; [reflexivity|discriminate|exact Hall| |].
    + intros u1 u2 Hsplit Hu1. rewrite <- (Hu u1 u2 Hsplit Hu1).
      f_equal. cbn [String.length]. lia.
    + rewrite <- Hk. f_equal. cbn [String.length]. lia.
Qed.

(** The alternation of the operators reads nothing at the end of the text
    nor in front of a character a tag may hold. *)
Lemma ops_stuck (s : string) pos g k :
  Str.starts (fun c => negb (tag_chr c)) s = false ->
  Re.go true ops_re pos s g k = None.
Proof.
  destruct s as [|c s]; intros Hc.
  - reflexivity.
  - cbn [Str.starts] in Hc. apply negb_false_iff in Hc.
    unfold tag_chr, Re.cls_match in Hc. cbn [Re.neg Re.members Re.in_members] in Hc.
    apply negb_true_iff in Hc.
    repeat (apply orb_false_elim in Hc as [? Hc]).
    unfold ops_re. cbn [select_predicates map fst Re.alts foldr Re.go Re.lit].
    repeat match goal with E : Re.chr_eq true c _ = false |- _ => rewrite E; clear E end.
    reflexivity.
Qed.

Lemma ops_equals (v : string) pos g k :
  Str.starts (fun c => Ascii.eqb c "=") v = false ->
  Re.go true ops_re pos (String "=" v) g k = None.
Proof.
  intros Hv.
  assert (Hnext : match v with
                  | String c _ => Re.chr_eq true c "=" = false
                  | EmptyString => True
                  end).
  { destruct v as [|c v]; [exact I|]. rewrite chr_eq_equals. exact Hv. }
  read_alternation.
  destruct v as [|c v]; rewrite ?Hnext; unfold Re.chr_eq; decide_chars; reflexivity.
Qed.

(** The comparison pattern does not match a text whose first character
    outside a tag cannot start an operator. *)
Lemma mselcomp_none (t rest : string) :
  Str.all tag_chr t = true ->
  Str.starts tag_chr rest = false ->
  (forall pos g k, Re.go true ops_re pos rest g k = None) ->
  mselcomp (t +:+ rest) = None.
Proof.
  intros Ht Hrest Hops.
  unfold mselcomp, Re.match_, mselcomp_re. cbn [Re.go]. fold ops_re.
  rewrite plus_none; [reflexivity| |exact Hrest].
  intros u1 u2 -> _.
  destruct u2 as [|c u2]; [rewrite append_nil; apply Hops|].
  apply ops_stuck. rewrite append_cons. cbn [Str.starts].
  rewrite all_app in Ht. apply andb_true_iff in Ht as [_ Ht]. cbn [Str.all] in Ht.
  apply andb_true_iff in Ht as [-> _]. reflexivity.
Qed.

Lemma take_all (s : string) : Str.take (String.length s) s = s.
Proof. rewrite <- (append_nil_r s) at 2. rewrite take_app. reflexivity. Qed.

(** [(.+)$] on a text without a newline takes it whole. *)
Lemma dot_plus_eos (s : string) pos g (n : nat) :
  s <> EmptyString -> Str.all dot_chr s = true ->
  Re.go false (Re.Seq (Re.Grp n (Re.Plus Re.dot)) Re.Eos) pos s g (fun _ _ g' => Some g')
  = Some (<[n := s]> g).
Proof.
  intros Hne Hall. cbn [Re.go].
  set (k := fun (pos' : nat) (s' : string) (g' : Re.caps) =>
              match s' with
              | EmptyString => Some (<[n := Str.take (pos' - pos) s]> g')
              | String a EmptyString =>
                  if Ascii.eqb a "010" then Some (<[n := Str.take (pos' - pos) s]> g') else None
              | String _ (String _ _) => None
              end).
  rewrite <- (append_nil_r s) at 1.
  rewrite (plus_longest false Re.dot s EmptyString pos g k (<[n := s]> g));
    [reflexivity|exact Hne|exact Hall|reflexivity|].
  unfold k. replace (pos + String.length s - pos)%nat with (String.length s) by lia.
  rewrite take_all. reflexivity.
Qed.

(** The pattern of the existence selection. *)
Lemma mseltag_equals (tag : string) :
  tag <> EmptyString -> Str.all dot_chr tag = true ->
  mseltag (String "=" tag) = Some tag.
Proof.
  intros Hne Hall. unfold mseltag, Re.match_, mseltag_re.
  change (Re.go false (Re.Seq (Re.Lit "=") (Re.Seq (Re.Grp 1 (Re.Plus Re.dot)) Re.Eos))
            0 (String "=" tag) ∅ (fun _ _ g => Some g))
    with (Re.go false (Re.Seq (Re.Grp 1 (Re.Plus Re.dot)) Re.Eos) 1 tag ∅
            (fun _ _ g => Some g)).
  rewrite dot_plus_eos by assumption. cbn. unfold group. simplify_map_eq. reflexivity.
Qed.

Lemma mseltag_other (c : ascii) (s : string) :
  Ascii.eqb c "=" = false -> mseltag (String c s) = None.
Proof.
  intros Hc. unfold mseltag, Re.match_, mseltag_re. cbn [Re.go Re.lit].
  unfold Re.chr_eq. rewrite Hc. reflexivity.
Qed.

Lemma mselcomp_equals (s : string) : mselcomp (String "=" s) = None.
Proof. reflexivity. Qed.

Lemma suffix_all (p : ascii -> bool) (a b : string) :
  Str.all p (a +:+ b) = true -> Str.all p b = true.
Proof. rewrite all_app. intros H. apply andb_true_iff in H. tauto. Qed.

(** The assignment pattern needs an [=]. *)
Lemma mset_none (s : string) : Str.all not_equals s = true -> mset s = None.
Proof.
  intros Hs. unfold mset, Re.match_, mset_re. cbn [Re.go].
  destruct (span_spec dot_chr s) as (Hsplit & Hall & Hrest).
  rewrite Hsplit at 1. unfold dot_chr in Hrest.
  rewrite plus_none; [reflexivity| |exact Hrest].
  intros u1 u2 Hu _. cbn beta.
  assert (Hsuf : Str.all not_equals (u2 +:+ snd (Str.span dot_chr s)) = true).
  { rewrite Hsplit, Hu, append_assoc in Hs. apply suffix_all in Hs. exact Hs. }
  destruct (u2 +:+ snd (Str.span dot_chr s)) as [|c r]; [reflexivity|].
  cbn [Str.all] in Hsuf. apply andb_true_iff in Hsuf as [Hc _].
  unfold not_equals in Hc. apply negb_true_iff in Hc.
  cbn [Re.lit]. unfold Re.chr_eq. rewrite Hc. reflexivity.
Qed.

(** The boolean pattern needs one of [+], [!], [/] in front. *)
Lemma msetbool_none (s : string) :
  Str.starts (Re.cls_match false (Re.Cls false "+!/")) s = false -> msetbool s = None.
Proof.
  intros Hs. unfold msetbool, Re.match_, msetbool_re. cbn [Re.go].
  destruct s as [|c s]; [reflexivity|]. cbn [Str.starts] in Hs. rewrite Hs. reflexivity.
Qed.

Lemma msetbool_op (op : ascii) (tag : string) :
  Re.cls_match false (Re.Cls false "+!/") op = true ->
  tag <> EmptyString -> Str.all dot_chr tag = true ->
  msetbool (String op tag) = Some (String op EmptyString, tag).
Proof.
  intros Hop Hne Hall. unfold msetbool, Re.match_, msetbool_re.
  cbn [Re.go]. rewrite Hop.
  pose proof (dot_plus_eos tag 1 (<[1%nat := String op EmptyString]> ∅) 2 Hne Hall) as H.
  cbn [Re.go] in H. cbn [Str.take Nat.sub]. rewrite H.
  cbn. unfold group. simplify_map_eq. reflexivity.
Qed.

Lemma lit_false_inv (l s : string) pos pos' s' :
  Re.lit false l pos s = Some (pos', s') ->
  s = l +:+ s' /\ pos' = (pos + String.length l)%nat.
Proof.
  revert s pos. induction l as [|a l IH]; intros s pos.
  - cbn. intros [= <- <-]. split; [reflexivity|lia].
  - destruct s as [|b s]; [discriminate|]. cbn [Re.lit]. unfold Re.chr_eq.
    destruct (Ascii.eqb_spec b a) as [->|]; [|discriminate].
    intros H. apply IH in H as [-> ->]. split; [reflexivity|cbn; lia].
Qed.

Lemma lit_colon_none (s : string) pos :
  Str.all not_colon s = true -> Re.lit false ":" pos s = None.
Proof.
  destruct s as [|c s]; [reflexivity|]. cbn [Str.all Re.lit]. intros H.
  apply andb_true_iff in H as [Hc _]. unfold not_colon in Hc.
  apply negb_true_iff in Hc. unfold Re.chr_eq. rewrite Hc. reflexivity.
Qed.

(** No type is read in front of a value without a colon. *)
Lemma typed_prefix_none (v : string) pos g k :
  Str.all not_colon v = true ->
  Re.go false
    (Re.Grp 2 (Re.Seq (Re.Grp 3 (Re.alts (map Re.Lit ["bool"; "int"; "str"; "float"; "complex"])))
                      (Re.Lit ":"))) pos v g k = None.
Proof.
  intros Hv. cbn [Re.go Re.alts map foldr].
  repeat match goal with
    | |- context [Re.lit false ?l pos v] =>
        let E := fresh "E" in
        destruct (Re.lit false l pos v) as [[? ?]|] eqn:E;
        [apply lit_false_inv in E as [E _]; rewrite E in Hv at 1;
         rewrite (lit_colon_none _ _ (suffix_all _ _ _ Hv)); rewrite <- ?E in Hv|]
    end.
  all: reflexivity.
Qed.

Lemma lit_equals_none (s : string) pos :
  Str.all not_equals s = true -> Re.lit false "=" pos s = None.
Proof.
  destruct s as [|c s]; [reflexivity|]. cbn [Str.all Re.lit]. intros H.
  apply andb_true_iff in H as [Hc _]. unfold not_equals in Hc.
  apply negb_true_iff in Hc. unfold Re.chr_eq. rewrite Hc. reflexivity.
Qed.

Lemma mset_tail_plain (v : string) pos g :
  v <> EmptyString -> Str.all dot_chr v = true -> Str.all not_colon v = true ->
  Re.go false mset_tail pos v g (fun _ _ g' => Some g') = Some (<[4%nat := v]> g).
Proof.
  intros Hv1 Hv2 Hv4. unfold mset_tail.
  change (Re.go false (Re.Seq (Re.Opt ?G) ?R4) pos v g ?K)
    with (match Re.go false G pos v g (fun p s g' => Re.go false R4 p s g' K) with
          | Some r => Some r
          | None => Re.go false R4 pos v g K
          end).
  rewrite typed_prefix_none by exact Hv4.
  apply dot_plus_eos; assumption.
Qed.

(** The assignment pattern splits at the last [=]. *)
Lemma mset_split (t r : string) (gr : Re.caps) :
  t <> EmptyString -> Str.all dot_chr t = true ->
  Str.all not_equals r = true ->
  Re.go false mset_tail (S (String.length t)) r (<[1%nat := t]> ∅) (fun _ _ g' => Some g')
    = Some gr ->
  Re.match_ false mset_re (t +:+ String "=" r) = Some gr.
Proof.
  intros Ht1 Ht2 Hr Htail. unfold Re.match_, mset_re.
  change (Re.go false (Re.Seq Re.Bos (Re.Seq (Re.Grp 1 (Re.Plus Re.dot))
            (Re.Seq (Re.Lit "=") ?T))) 0 ?w ∅ ?K)
    with (Re.plus false Re.dot 0 w ∅
            (fun pos' s' g' =>
               match Re.lit false "=" pos' s' with
               | Some (p, s2) => Re.go false T p s2 (<[1%nat := Str.take (pos' - 0) w]> g') K
               | None => None
               end)).
  fold mset_tail.
  rewrite <- (append_nil_r (String "=" r)).
  apply plus_backtrack; [exact Ht1|exact Ht2| |reflexivity|].
  - intros u1 u2 Hu Hne. cbn beta.
    destruct u1 as [|c u1]; [congruence|]. rewrite append_cons in Hu.
    injection Hu as <- ->. rewrite append_nil_r.
    rewrite lit_equals_none; [reflexivity|]. apply (suffix_all _ u1). exact Hr.
  - cbn beta. rewrite append_nil_r.
    change (Re.lit false "=" (0 + String.length t) (String "=" r))
      with (Some (S (0 + String.length t), r)).
    cbn beta iota. rewrite Nat.add_0_l, Nat.sub_0_r, take_app. exact Htail.
Qed.

(** The assignment pattern on [t=v], for a value without [=] and [:]. *)
Lemma mset_plain (t v : string) :
  t <> EmptyString -> Str.all dot_chr t = true ->
  v <> EmptyString -> Str.all dot_chr v = true ->
  Str.all not_equals v = true -> Str.all not_colon v = true ->
  mset (t +:+ String "=" v) = Some (t, None, None, v).
Proof.
  intros Ht1 Ht2 Hv1 Hv2 Hv3 Hv4. unfold mset.
  rewrite (mset_split t v (<[4%nat := v]> (<[1%nat := t]> ∅)));
    [reflexivity|exact Ht1|exact Ht2|exact Hv3|].
  apply mset_tail_plain; assumption.
Qed.


Lemma all_impl (p q : ascii -> bool) (s : string) :
  (forall c, p c = true -> q c = true) -> Str.all p s = true -> Str.all q s = true.
Proof.
  intros H. induction s as [|c s IH]; [reflexivity|]. cbn. intros Hs.
  apply andb_true_iff in Hs as [Hc Hs]. rewrite (H c Hc), (IH Hs). reflexivity.
Qed.

Lemma tag_chr_not_equals (c : ascii) : tag_chr c = true -> not_equals c = true.
Proof.
  unfold tag_chr, Re.cls_match, not_equals. cbn [Re.neg Re.members Re.in_members].
  rewrite chr_eq_equals. destruct (Ascii.eqb c "="); [discriminate|reflexivity].
Qed.

Lemma bool_op_cases (op : ascii) :
  Re.cls_match false (Re.Cls false "+!/") op = true ->
  op = "+"%char \/ op = "!"%char \/ op = "/"%char.
Proof.
  destruct op as [[] [] [] [] [] [] [] []]; vm_compute; intros H;
    first [discriminate H | tauto].
Qed.

Lemma ops_bang (v : string) pos g k :
  Str.starts (fun c => Ascii.eqb c "=") v = false ->
  Re.go true ops_re pos (String "!" v) g k = None.
Proof.
  intros Hv.
  assert (Hnext : match v with
                  | String c _ => Re.chr_eq true c "=" = false
                  | EmptyString => True
                  end).
  { destruct v as [|c v]; [exact I|]. rewrite chr_eq_equals. exact Hv. }
  read_alternation.
  destruct v as [|c v]; rewrite ?Hnext; unfold Re.chr_eq; decide_chars; reflexivity.
Qed.

Lemma starts_equals_false (v : string) :
  Str.all not_equals v = true -> Str.starts (fun c => Ascii.eqb c "=") v = false.
Proof.
  destruct v as [|c v]; [reflexivity|]. cbn. intros H.
  apply andb_true_iff in H as [Hc _]. apply negb_true_iff in Hc. exact Hc.
Qed.

Lemma mseltag_tag (t : string) : Str.all tag_chr t = true -> mseltag t = None.
Proof.
  destruct t as [|c t]; [reflexivity|]. cbn [Str.all]. intros H.
  apply andb_true_iff in H as [Hc _]. apply mseltag_other.
  apply tag_chr_not_equals in Hc. apply negb_true_iff in Hc. exact Hc.
Qed.

Lemma mseltag_app (t r : string) :
  t <> EmptyString -> Str.all tag_chr t = true -> mseltag (t +:+ r) = None.
Proof.
  destruct t as [|c t]; [congruence|]. intros _. cbn [Str.all]. intros H.
  apply andb_true_iff in H as [Hc _]. rewrite append_cons. apply mseltag_other.
  apply tag_chr_not_equals in Hc. apply negb_true_iff in Hc. exact Hc.
Qed.

(** How the four patterns read a name, a boolean token and an assignment. *)
Lemma name_parts (w : string) :
  Str.all tag_chr w = true ->
  Str.starts (Re.cls_match false (Re.Cls false "+!/")) w = false ->
  mselcomp w = None /\ mseltag w = None /\ mset w = None /\ msetbool w = None.
Proof.
  intros Hall Hfirst. repeat split.
  - rewrite <- (append_nil_r w). apply mselcomp_none; [exact Hall|reflexivity|].
    intros pos g k. apply ops_stuck. reflexivity.
  - apply mseltag_tag; exact Hall.
  - apply mset_none. apply (all_impl tag_chr); [apply tag_chr_not_equals|exact Hall].
  - apply msetbool_none; exact Hfirst.
Qed.

Lemma boolean_parts (op : ascii) (tag : string) :
  Re.cls_match false (Re.Cls false "+!/") op = true ->
  tag <> EmptyString -> Str.all tag_chr tag = true -> Str.all dot_chr tag = true ->
  mselcomp (String op tag) = None /\ mseltag (String op tag) = None /\
  mset (String op tag) = None /\
  msetbool (String op tag) = Some (String op EmptyString, tag).
Proof.
  intros Hop Hne Htag Hdot. repeat split.
  - destruct (bool_op_cases op Hop) as [-> | [-> | ->] ].
    + rewrite <- (append_nil_r (String "+" tag)).
      apply mselcomp_none; [cbn [Str.all]; rewrite Htag; reflexivity|reflexivity|].
      intros pos g k. apply ops_stuck. reflexivity.
    + rewrite <- (append_nil (String "!" tag)).
      apply mselcomp_none; [reflexivity|reflexivity|].
      intros pos g k. apply ops_bang, starts_equals_false.
      apply (all_impl tag_chr); [apply tag_chr_not_equals|exact Htag].
    + rewrite <- (append_nil_r (String "/" tag)).
      apply mselcomp_none; [cbn [Str.all]; rewrite Htag; reflexivity|reflexivity|].
      intros pos g k. apply ops_stuck. reflexivity.
  - apply mseltag_other. destruct (bool_op_cases op Hop) as [-> | [-> | ->] ]; reflexivity.
  - apply mset_none. cbn [Str.all].
    rewrite (all_impl tag_chr not_equals tag tag_chr_not_equals Htag), andb_true_r.
    destruct (bool_op_cases op Hop) as [-> | [-> | ->] ]; reflexivity.
  - apply msetbool_op; assumption.
Qed.

Lemma assignment_parts (t v : string) :
  t <> EmptyString -> Str.all tag_chr t = true -> Str.all dot_chr t = true ->
  v <> EmptyString -> Str.all dot_chr v = true ->
  Str.all not_equals v = true -> Str.all not_colon v = true ->
  mselcomp (t +:+ String "=" v) = None /\ mseltag (t +:+ String "=" v) = None /\
  mset (t +:+ String "=" v) = Some (t, None, None, v).
Proof.
  intros Ht1 Ht2 Ht3 Hv1 Hv2 Hv3 Hv4. repeat split.
  - apply mselcomp_none; [exact Ht2|reflexivity|].
    intros pos g k. apply ops_equals, starts_equals_false, Hv3.
  - apply mseltag_app; assumption.
  - apply mset_plain; assumption.
Qed.


Section Tokens.

Context {B : Builtins}.
Variable options : Options.

(** X1: a token [=TAG] is an existence selection, whatever the characters of
    [TAG] (other than a newline). *)
Theorem existence_token (tag : string) (st : state) :
  tag <> EmptyString -> Str.all dot_chr tag = true ->
  mselcomp (String "=" tag) = None /\
  mseltag (String "=" tag) = Some tag /\
  step options (String "=" tag) st =
    (sel ← lift (select_tag tag (sources st)); apply_selection sel (String "=" tag)) st.
Proof.
  intros Hne Hall. split; [reflexivity|]. split; [apply mseltag_equals; assumption|].
  unfold step. rewrite mselcomp_equals, mseltag_equals by assumption. reflexivity.
Qed.

(** X2: a token without any of [= < > ! .] that does not start with [+] or
    [/] matches none of the four patterns and selects by name. *)
Theorem name_token (w : string) (st : state) :
  Str.all tag_chr w = true ->
  Str.starts (Re.cls_match false (Re.Cls false "+!/")) w = false ->
  is_mutation w = false /\
  step options w st =
    (sel ← lift (select_name w (sources st)); apply_selection sel w) st.
Proof.
  intros Hall Hfirst.
  destruct (name_parts w Hall Hfirst) as (H1 & H2 & H3 & H4).
  unfold is_mutation, step. rewrite H1, H2, H3, H4. split; reflexivity.
Qed.

(** X3: a token [+TAG], [!TAG] or [/TAG] whose tag holds none of
    [= < > ! .] is a boolean mutation. *)
Theorem boolean_token (op : ascii) (tag : string) (st : state) :
  Re.cls_match false (Re.Cls false "+!/") op = true ->
  tag <> EmptyString -> Str.all tag_chr tag = true -> Str.all dot_chr tag = true ->
  is_mutation (String op tag) = true /\
  step options (String op tag) st =
    (srcs ← retrieve_selection options;
     if opt_list options then print "--list in effect, ignoring tagging commands" []
     else setbool_branch (String op EmptyString) tag srcs) st.
Proof.
  intros Hop Hne Htag Hdot.
  destruct (boolean_parts op tag Hop Hne Htag Hdot) as (H1 & H2 & H3 & H4).
  unfold is_mutation, step. rewrite H1, H2, H3, H4. split; reflexivity.
Qed.

(** X4: a token [TAG=VALUE] is an assignment without a type -- also where it
    reads like a comparison written with a single [=]. *)
Theorem plain_assignment_token (t v : string) (st : state) :
  t <> EmptyString -> Str.all tag_chr t = true -> Str.all dot_chr t = true ->
  v <> EmptyString -> Str.all dot_chr v = true ->
  Str.all not_equals v = true -> Str.all not_colon v = true ->
  is_mutation (t +:+ String "=" v) = true /\
  step options (t +:+ String "=" v) st =
    (srcs ← retrieve_selection options;
     if opt_list options then print "--list in effect, ignoring tagging commands" []
     else set_branch t None v srcs) st.
Proof.
  intros Ht1 Ht2 Ht3 Hv1 Hv2 Hv3 Hv4.
  destruct (assignment_parts t v Ht1 Ht2 Ht3 Hv1 Hv2 Hv3 Hv4) as (H1 & H2 & H3).
  unfold is_mutation, step. rewrite H1, H2, H3. split; reflexivity.
Qed.


End Tokens.

(* ===================================================================== *)
(** ** Comparison tokens *)
(* ===================================================================== *)

Lemma operator_starts (op : string) :
  operator op -> Str.starts (fun c => negb (tag_chr c)) op = true.
Proof.
  intros [H|H].
  - cbn [symbolic_ops In] in H.
    destruct H as [<- | [<- | [<- | [<- | [<- | [<- | [] ] ] ] ] ] ]; reflexivity.
  - cbn [alias_ops In] in H.
    destruct op as [|a1 op]; [cbn in H; intuition discriminate|].
    cbn [Str.lower Str.starts] in *.
    assert (Hdot : Str.lower_chr a1 = "."%char)
      by (repeat destruct H as [H|H]; congruence || contradiction).
    revert Hdot. clear. destruct a1 as [[] [] [] [] [] [] [] []]; vm_compute; congruence.
Qed.

Lemma operator_picks (op r : string) :
  operator op -> Str.starts (fun c => Ascii.eqb c "=") r = false -> picks op r.
Proof.
  intros [H|H] Hr; [apply picks_symbolic; assumption|apply picks_alias; exact H].
Qed.

Lemma operator_predicate (op : string) :
  operator op -> is_Some (dict_get select_predicates (Str.lower op)).
Proof.
  intros [H|H].
  - cbn [symbolic_ops In] in H.
    destruct H as [<- | [<- | [<- | [<- | [<- | [<- | [] ] ] ] ] ] ]; eexists; reflexivity.
  - cbn [alias_ops In] in H.
    destruct H as [<- | [<- | [<- | [<- | [<- | [<- | [] ] ] ] ] ] ]; eexists; reflexivity.
Qed.

Lemma span_app (p : ascii -> bool) (v rest : string) :
  Str.all p v = true -> Str.starts p rest = false -> Str.span p (v +:+ rest) = (v, rest).
Proof.
  intros Hv Hrest. induction v as [|c v IH].
  - rewrite append_nil. destruct rest as [|c rest]; [reflexivity|].
    cbn [Str.starts] in Hrest. cbn [Str.span]. rewrite Hrest. reflexivity.
  - cbn [Str.all] in Hv. apply andb_true_iff in Hv as [Hc Hv].
    rewrite append_cons. cbn [Str.span]. rewrite Hc, (IH Hv). reflexivity.
Qed.

Lemma value_unit_app (v : string) (u : ascii) (junk : string) :
  Str.all val_chr v = true -> val_chr u = false ->
  value_unit (v +:+ String u junk) = (v, Some (String u EmptyString)).
Proof.
  intros Hv Hu. unfold value_unit. rewrite span_app; auto.
Qed.

Lemma value_unit_all (v : string) :
  Str.all val_chr v = true -> value_unit v = (v, None).
Proof.
  intros Hv. unfold value_unit. rewrite <- (append_nil_r v) at 1.
  rewrite span_app; auto.
Qed.

Lemma starts_app (p : ascii -> bool) (v rest : string) :
  v <> EmptyString -> Str.starts p (v +:+ rest) = Str.starts p v.
Proof. destruct v; [congruence|reflexivity]. Qed.

Lemma all_starts (p : ascii -> bool) (v : string) :
  v <> EmptyString -> Str.all p v = true -> Str.starts p v = true.
Proof.
  destruct v as [|c v]; [congruence|]. cbn. intros _ H.
  apply andb_true_iff in H as [H _]. exact H.
Qed.

(** What the comparison pattern finds in [TAG OP VALUE...]. *)
Lemma mselcomp_comparison (t op v rest : string) :
  t <> EmptyString -> Str.all tag_chr t = true -> operator op ->
  v <> EmptyString -> Str.all val_chr v = true ->
  Str.starts (fun c => Ascii.eqb c "=") v = false ->
  mselcomp (t +:+ op +:+ v +:+ rest)
  = Some (t, op, fst (value_unit (v +:+ rest)), snd (value_unit (v +:+ rest))).
Proof.
  intros Ht1 Ht2 Hop Hv1 Hv2 Hv3.
  apply mselcomp_parts; auto.
  - apply operator_starts, Hop.
  - apply operator_picks; [exact Hop|]. rewrite starts_app by exact Hv1. exact Hv3.
  - rewrite starts_app by exact Hv1. apply all_starts; assumption.
Qed.

Lemma unit_factor_other (u : ascii) :
  Re.in_members false u "dms" = false ->
  unit_factor (Some (String u EmptyString)) = unit_factor None.
Proof.
  cbn [Re.in_members Re.chr_eq]. intros H.
  apply orb_false_iff in H as [Hd H]. apply orb_false_iff in H as [Hm H].
  apply orb_false_iff in H as [Hs _].
  unfold unit_factor, select_units. cbn [dict_get String.eqb].
  rewrite (Ascii.eqb_sym "d" u), (Ascii.eqb_sym "m" u), (Ascii.eqb_sym "s" u).
  rewrite Hd, Hm, Hs. reflexivity.
Qed.

Section Comparisons.

Context {B : Builtins}.
Variable options : Options.

(** Two comparison tokens that name the same tag, operator and value, with
    units of the same factor, have the same effect. *)
Lemma comparison_alike (arg1 arg2 t op v : string) (u1 u2 : option string) (st : state) :
  mselcomp arg1 = Some (t, op, v, u1) ->
  mselcomp arg2 = Some (t, op, v, u2) ->
  unit_factor u1 = unit_factor u2 ->
  same_effect (step options arg1 st) (step options arg2 st).
Proof.
  intros H1 H2 Hu. unfold step. rewrite H1, H2, Hu.
  destruct (py_float v) as [f|].
  - destruct (dict_get select_predicates (Str.lower op)) as [predicate|].
    + rewrite !bind_eq. cbn [get].
      destruct (select_comp t predicate _ (sources st)) as [sel|e]; cbn [lift].
      * apply apply_selection_alike.
      * repeat split.
    + repeat split.
  - unfold parser_error. rewrite !bind_eq. unfold same_effect, same_state.
    destruct st as [srcs ids seln lst md o].
    cbn [emit sys_exit stop sources selected_ids selection listed modified out].
    repeat split. rewrite !length_app. reflexivity.
Qed.

(** X6: the comparison pattern has no anchor at its end: whatever follows the
    unit letter of a comparison token is ignored. *)
Theorem comparison_ignores_text_after_unit (t op v : string) (u : ascii) (junk : string)
    (st : state) :
  t <> EmptyString -> Str.all tag_chr t = true -> operator op ->
  v <> EmptyString -> Str.all val_chr v = true ->
  Str.starts (fun c => Ascii.eqb c "=") v = false ->
  val_chr u = false ->
  mselcomp (t +:+ op +:+ v +:+ String u junk) = Some (t, op, v, Some (String u EmptyString)) /\
  same_effect (step options (t +:+ op +:+ v +:+ String u junk) st)
              (step options (t +:+ op +:+ v +:+ String u EmptyString) st).
Proof.
  intros Ht1 Ht2 Hop Hv1 Hv2 Hv3 Hu.
  assert (H : forall junk', mselcomp (t +:+ op +:+ v +:+ String u junk')
                            = Some (t, op, v, Some (String u EmptyString))).
  { intros junk'. rewrite mselcomp_comparison by assumption.
    rewrite value_unit_app by assumption. reflexivity. }
  split; [apply H|].
  apply (comparison_alike _ _ t op v _ _ st (H junk) (H EmptyString) eq_refl).
Qed.

(** X7: the pattern accepts the unit letters in upper case as well, but only
    [d], [m] and [s] are units: a comparison token whose value is followed by
    [D], [M] or [S] is read as the token without the letter, its value taken
    as it is. *)
Theorem upper_case_unit_is_no_unit (t op v : string) (u : ascii) (junk : string)
    (st : state) :
  t <> EmptyString -> Str.all tag_chr t = true -> operator op ->
  v <> EmptyString -> Str.all val_chr v = true ->
  Str.starts (fun c => Ascii.eqb c "=") v = false ->
  val_chr u = false -> Re.in_members false u "dms" = false ->
  mselcomp (t +:+ op +:+ v +:+ String u junk) = Some (t, op, v, Some (String u EmptyString)) /\
  mselcomp (t +:+ op +:+ v) = Some (t, op, v, None) /\
  same_effect (step options (t +:+ op +:+ v +:+ String u junk) st)
              (step options (t +:+ op +:+ v) st).
Proof.
  intros Ht1 Ht2 Hop Hv1 Hv2 Hv3 Hu Hup.
  assert (H1 : mselcomp (t +:+ op +:+ v +:+ String u junk)
               = Some (t, op, v, Some (String u EmptyString))).
  { rewrite mselcomp_comparison by assumption.
    rewrite value_unit_app by assumption. reflexivity. }
  assert (H2 : mselcomp (t +:+ op +:+ v) = Some (t, op, v, None)).
  { rewrite <- (append_nil_r v) at 1. rewrite mselcomp_comparison by assumption.
    rewrite append_nil_r, value_unit_all by assumption. reflexivity. }
  split; [exact H1|]. split; [exact H2|].
  apply (comparison_alike _ _ t op v _ _ st H1 H2). apply unit_factor_other, Hup.
Qed.

End Comparisons.

Lemma plus_inv ic c pos s g k res :
  Re.plus ic c pos s g k = Some res -> exists pos' s', k pos' s' g = Some res.
Proof.
  revert pos. induction s as [|a s IH]; intros pos; cbn [Re.plus]; [discriminate|].
  destruct (Re.cls_match ic c a); [|discriminate].
  destruct (Re.plus ic c (S pos) s g k) eqn:E.
  - intros [= <-]. eapply IH, E.
  - eauto.
Qed.

Lemma alts_inv ic (l : list string) pos s g k res :
  Re.go ic (Re.alts (map Re.Lit l)) pos s g k = Some res ->
  exists op pos' s', In op l /\ Re.lit ic op pos s = Some (pos', s') /\
                     k pos' s' g = Some res.
Proof.
  induction l as [|op l IH]; cbn [map Re.alts foldr Re.go]; [discriminate|].
  destruct (Re.lit ic op pos s) as [[pos' s']|] eqn:E.
  - destruct (k pos' s' g) eqn:Ek.
    + intros [= <-]. exists op, pos', s'. cbn [In]. auto.
    + intros H. destruct (IH H) as (op' & p & s0 & Hin & Hl & Hk).
      exists op', p, s0. cbn [In]. auto.
  - intros H. destruct (IH H) as (op' & p & s0 & Hin & Hl & Hk).
    exists op', p, s0. cbn [In]. auto.
Qed.

Lemma lit_lower (l : string) pos s pos' s' :
  Re.lit true l pos s = Some (pos', s') ->
  Str.lower (Str.take (pos' - pos) s) = Str.lower l.
Proof.
  revert pos s. induction l as [|a l IH]; intros pos s; cbn [Re.lit].
  - intros [= <- <-]. rewrite Nat.sub_diag. destruct s; reflexivity.
  - destruct s as [|b s]; [discriminate|].
    destruct (Re.chr_eq true b a) eqn:E; [|discriminate]. intros H.
    assert (Hle : (S pos <= pos')%nat).
    { clear -H. revert pos s H. induction l as [|a l IH]; intros pos s; cbn [Re.lit].
      - intros [= <- <-]. lia.
      - destruct s as [|b s]; [discriminate|]. destruct (Re.chr_eq true b a); [|discriminate].
        intros H. apply IH in H. lia. }
    replace (pos' - pos)%nat with (S (pos' - S pos)) by lia.
    cbn [Str.take Str.lower]. rewrite (IH _ _ H).
    unfold Re.chr_eq in E. apply Ascii.eqb_eq in E. rewrite E. reflexivity.
Qed.

Lemma mselcomp_operator (arg seltag oper selval : string) (unit : option string) :
  mselcomp arg = Some (seltag, oper, selval, unit) ->
  In (Str.lower oper) (symbolic_ops ++ alias_ops).
Proof.
  unfold mselcomp, Re.match_, mselcomp_re. cbn [Re.go].
  destruct (Re.plus _ _ _ _ _ _) as [g|] eqn:E; [|discriminate].
  cbn [fmap option_fmap option_map]. intros [= _ H2 _ _].
  apply plus_inv in E as (pos1 & s1 & E).
  rewrite <- (map_map fst Re.Lit) in E.
  apply alts_inv in E as (op & pos2 & s2 & Hin & Hlit & E).
  apply plus_inv in E as (pos3 & s3 & E).
  assert (Hg : g !! 2%nat = Some (Str.take (pos2 - pos1) s1)).
  { destruct s3 as [|a s3].
    - injection E as <-. simplify_map_eq. reflexivity.
    - destruct (Re.cls_match true (Re.Cls false "dms") a); injection E as <-;
        simplify_map_eq; reflexivity. }
  unfold group in H2. rewrite Hg in H2. cbn in H2. subst oper.
  rewrite (lit_lower _ _ _ _ _ Hlit).
  change (map fst select_predicates) with (symbolic_ops ++ alias_ops) in Hin.
  clear -Hin. cbn [symbolic_ops alias_ops app In] in Hin |- *.
  repeat (destruct Hin as [<-|Hin]; [cbn; tauto|]). contradiction.
Qed.

Lemma lower_chr_fixed (a c : ascii) :
  In c ["="; "!"; "<"; ">"]%char -> Str.lower_chr a = c -> a = c.
Proof.
  cbn [In]. intros [<- | [<- | [<- | [<- | [] ] ] ] ];
    destruct a as [[] [] [] [] [] [] [] []]; vm_compute; congruence.
Qed.

Lemma lower_symbolic (oper s : string) :
  In s symbolic_ops -> Str.lower oper = s -> oper = s.
Proof.
  cbn [symbolic_ops In].
  intros [<- | [<- | [<- | [<- | [<- | [<- | [] ] ] ] ] ] ].
  all: destruct oper as [|a1 [|a2 [|a3 o]]]; cbn [Str.lower]; try discriminate.
  all: intros H; injection H; clear H; intros.
  all: repeat match goal with
         | H : Str.lower_chr _ = _ |- _ =>
             apply lower_chr_fixed in H; [subst|cbn [In]; tauto]
         end.
  all: reflexivity.
Qed.

(** X8: the lookup of the predicate of a comparison token never fails: the
    operator the pattern has read is, in lower case, one of the keys. *)
Theorem operator_lookup_never_fails (arg seltag oper selval : string) (unit : option string) :
  mselcomp arg = Some (seltag, oper, selval, unit) ->
  operator oper /\
  exists predicate, dict_get select_predicates (Str.lower oper) = Some predicate.
Proof.
  intros H. apply mselcomp_operator in H.
  assert (Hop : operator oper).
  { apply in_app_or in H as [H|H]; [left|right; exact H].
    rewrite <- (lower_symbolic oper _ H eq_refl) in H. exact H. }
  split; [exact Hop|]. destruct (operator_predicate oper Hop) as [p Hp]. eauto.
Qed.

(* ===================================================================== *)
(** ** What the selections select, and paths *)
(* ===================================================================== *)

Lemma try_filter_Val {A} (p : A -> try bool) (l sel : list A) :
  try_filter p l = Val sel ->
  Forall (fun x => exists b, p x = Val b) l /\
  forall x, x ∈ sel <-> x ∈ l /\ p x = Val true.
Proof.
  revert sel. induction l as [|a l IH]; intros sel; cbn [try_filter].
  - intros [= <-]. split; [constructor|]. intros x. split; [intros H|intros [H _]]; inversion H.
  - destruct (p a) as [b|e] eqn:Ea; cbn [try_bind]; [|discriminate].
    destruct (try_filter p l) as [ys|e] eqn:El; cbn [try_bind]; [|discriminate].
    intros [= <-]. destruct (IH ys eq_refl) as [Hall Hmem].
    split; [constructor; eauto|]. intros x.
    destruct b.
    + rewrite !elem_of_cons, Hmem. split.
      * intros [->|[? ?]]; auto.
      * intros [[->|?] ?]; auto.
    + rewrite elem_of_cons, Hmem. split.
      * intros [? ?]; auto.
      * intros [[->|?] ?]; [congruence|auto].
Qed.

Lemma try_filter_Exc {A} (p : A -> try bool) (l : list A) (x : A) (e : string) :
  x ∈ l -> p x = Exc e -> exists e', try_filter p l = Exc e'.
Proof.
  intros Hx He. induction l as [|a l IH]; [inversion Hx|].
  cbn [try_filter]. apply elem_of_cons in Hx as [<-|Hx].
  - rewrite He. eexists. reflexivity.
  - destruct (p a); cbn [try_bind]; [|eexists; reflexivity].
    destruct (IH Hx) as [e' ->]. eexists. reflexivity.
Qed.

Lemma try_map_Val {A B} (f : A -> try B) (l : list A) (l' : list B) :
  try_map f l = Val l' -> Forall2 (fun x y => f x = Val y) l l'.
Proof.
  revert l'. induction l as [|a l IH]; intros l'; cbn [try_map].
  - intros [= <-]. constructor.
  - destruct (f a) as [y|e] eqn:Ea; cbn [try_bind]; [|discriminate].
    destruct (try_map f l) as [ys|e]; cbn [try_bind]; [|discriminate].
    intros [= <-]. constructor; auto.
Qed.

Lemma elem_of_zip_seq {A} (l : list A) (start i : nat) (x : A) :
  (i, x) ∈ zip (seq start (length l)) l <-> (start <= i)%nat /\ l !! (i - start)%nat = Some x.
Proof.
  revert start. induction l as [|a l IH]; intros start; cbn [length seq zip zip_with].
  - split; [inversion 1|intros [_ H]; discriminate].
  - rewrite elem_of_cons, IH. split.
    + intros [[= -> ->]|[Hle Hl]].
      * split; [lia|]. rewrite Nat.sub_diag. reflexivity.
      * split; [lia|]. replace (i - start)%nat with (S (i - S start)) by lia. exact Hl.
    + intros [Hle Hl]. destruct (decide (i = start)) as [->|Hne].
      * left. rewrite Nat.sub_diag in Hl. cbn in Hl. congruence.
      * right. split; [lia|].
        replace (i - start)%nat with (S (i - S start)) in Hl by lia. exact Hl.
Qed.

Lemma elem_of_map_fst_zip {A} (l : list A) (q : nat * A -> Prop) (sel : list (nat * A)) (i : nat) :
  (forall y, y ∈ sel <-> y ∈ zip (seq 0 (length l)) l /\ q y) ->
  i ∈ map fst sel <-> exists x, l !! i = Some x /\ q (i, x).
Proof.
  intros Hsel. rewrite list_elem_of_In, in_map_iff. split.
  - intros [[j x] [<- Hin]]. apply list_elem_of_In, Hsel in Hin as [Hz Hq].
    apply elem_of_zip_seq in Hz as [_ Hl]. rewrite Nat.sub_0_r in Hl. eauto.
  - intros (x & Hl & Hq). exists (i, x). split; [reflexivity|].
    apply list_elem_of_In, Hsel. split; [|exact Hq].
    apply elem_of_zip_seq. rewrite Nat.sub_0_r. split; [lia|exact Hl].
Qed.

Lemma first_tag_total (objs : list value) (tag : string) :
  exists v, first_tag objs tag = Val v.
Proof.
  induction objs as [|obj objs IH]; cbn [first_tag]; [eauto|].
  destruct (negb (is_none obj) && hasattr obj tag) eqn:E; [|exact IH].
  apply andb_true_iff in E as [_ E]. unfold hasattr in E. unfold getattr.
  destruct (getattr_opt obj tag); [eauto|discriminate].
Qed.

Lemma split_dotless (s : string) :
  Str.all not_dot s = true -> Str.split "." s = [s].
Proof.
  induction s as [|c s IH]; [reflexivity|]. cbn [Str.all Str.split]. intros H.
  apply andb_true_iff in H as [Hc Hs]. apply negb_true_iff in Hc.
  rewrite Hc, (IH Hs). reflexivity.
Qed.

Section Selections.

Context {B : Builtins}.

(** X9: [=TAG] selects the sources on which the tag is found with a value that
    counts as true, and no others; it needs every source of the model to have
    a position and a flux. *)
Theorem select_tag_members (seltag : string) (srcs : list value) (sel : list nat) :
  select_tag seltag srcs = Val sel ->
  (forall i, i ∈ sel <->
     exists src v, srcs !! i = Some src /\ getTagValue src seltag = Val v /\ truthy v = true) /\
  Forall (fun src => exists v, getTagValue src seltag = Val v) srcs.
Proof.
  unfold select_tag.
  destruct (try_filter _ _) as [sel0|e] eqn:E; [|discriminate].
  intros [= <-]. apply try_filter_Val in E as [Hall Hmem]. split.
  - intros i.
    rewrite (elem_of_map_fst_zip srcs
               (fun y => truthy <$> getTagValue (snd y) seltag = Val true) sel0 i Hmem).
    cbn [snd]. split.
    + intros (src & Hl & Hq). exists src.
      destruct (getTagValue src seltag) as [v|]; cbn in Hq; [|discriminate].
      exists v. injection Hq as Hq. auto.
    + intros (src & v & Hl & Hg & Ht). exists src. rewrite Hg. cbn. rewrite Ht. auto.
  - apply Forall_forall. intros src Hsrc.
    apply list_elem_of_lookup in Hsrc as [i Hi].
    rewrite Forall_forall in Hall.
    destruct (Hall (i, src)) as [b Hb].
    { apply elem_of_zip_seq. rewrite Nat.sub_0_r. split; [lia|exact Hi]. }
    cbn [snd] in Hb. destruct (getTagValue src seltag); [eauto|discriminate].
Qed.

(** X10: a comparison selects the sources on which the tag is found, with a
    value other than [None] for which the predicate holds, and no others: a
    source without the tag is never selected, also when the operator is
    [!=]. *)
Theorem select_comp_members (seltag : string) (predicate : value -> float -> try bool)
    (selval : float) (srcs : list value) (sel : list nat) :
  select_comp seltag predicate selval srcs = Val sel ->
  forall i, i ∈ sel <->
    exists src v, srcs !! i = Some src /\ getTagValue src seltag = Val v /\
                  v <> VNone /\ predicate v selval = Val true.
Proof.
  unfold select_comp.
  destruct (try_map _ srcs) as [srctag|e] eqn:Em; [|discriminate].
  cbn [mbind try_mbind try_bind].
  destruct (try_filter _ _) as [sel0|e] eqn:E; [|discriminate].
  intros [= <-] i. apply try_filter_Val in E as [_ Hmem].
  apply try_map_Val in Em.
  rewrite (elem_of_map_fst_zip srctag
             (fun y => (if is_none (snd y) then Val false else predicate (snd y) selval)
                       = Val true) sel0 i Hmem).
  cbn [snd]. split.
  - intros (v & Hl & Hq).
    destruct (Forall2_lookup_r _ _ _ _ _ Em Hl) as (src & Hsrc & Hg).
    exists src, v. destruct v; cbn [is_none] in Hq; try discriminate; repeat split; auto.
  - intros (src & v & Hl & Hg & Hv & Hp).
    destruct (Forall2_lookup_l _ _ _ _ _ Em Hl) as (v' & Hv' & Hg').
    assert (v' = v) by congruence. subst v'. exists v. split; [exact Hv'|].
    destruct v; cbn [is_none]; congruence.
Qed.

(** X11: a comparison whose predicate raises on the value of one source fails
    as a whole: nothing is selected. *)
Theorem select_comp_raises (seltag : string) (predicate : value -> float -> try bool)
    (selval : float) (srcs : list value) (i : nat) (src v : value) (e : string) :
  srcs !! i = Some src -> getTagValue src seltag = Val v -> v <> VNone ->
  predicate v selval = Exc e ->
  exists e', select_comp seltag predicate selval srcs = Exc e'.
Proof.
  intros Hl Hg Hv Hp. unfold select_comp.
  destruct (try_map _ srcs) as [srctag|e0] eqn:Em; [|eexists; reflexivity].
  cbn [mbind try_mbind try_bind].
  apply try_map_Val in Em.
  destruct (Forall2_lookup_l _ _ _ _ _ Em Hl) as (v' & Hv' & Hg').
  assert (v' = v) by congruence. subst v'.
  destruct (try_filter_Exc
              (fun it : nat * value =>
                 if is_none (snd it) then Val false else predicate (snd it) selval)
              (zip (seq 0 (length srctag)) srctag) (i, v) e) as [e' ->].
  - apply elem_of_zip_seq. rewrite Nat.sub_0_r. split; [lia|exact Hv'].
  - cbn [snd]. destruct v; cbn [is_none]; congruence.
  - eexists. reflexivity.
Qed.

(** X12: a token that is none of the other forms selects the sources whose name
    matches it as a shell pattern, and no others; every source of the model
    has to have a name that is a string. *)
Theorem select_name_members (arg : string) (srcs : list value) (sel : list nat) :
  select_name arg srcs = Val sel ->
  (forall i, i ∈ sel <->
     exists src nm, srcs !! i = Some src /\ getattr src "name" = Val (VStr nm) /\
                    fnmatch nm arg = true) /\
  Forall (fun src => exists nm, getattr src "name" = Val (VStr nm)) srcs.
Proof.
  unfold select_name.
  destruct (try_filter _ _) as [sel0|e] eqn:E; [|discriminate].
  intros [= <-]. apply try_filter_Val in E as [Hall Hmem]. split.
  - intros i.
    rewrite (elem_of_map_fst_zip srcs
               (fun y => (nm ← getattr (snd y) "name";
                          match nm with
                          | VStr s => Val (fnmatch s arg)
                          | _ => Exc "TypeError"
                          end) = Val true) sel0 i Hmem).
    cbn [snd]. split.
    + intros (src & Hl & Hq). exists src.
      destruct (getattr src "name") as [[]|]; cbn in Hq; try discriminate.
      injection Hq as Hq. eauto.
    + intros (src & nm & Hl & Hg & Hf). exists src. rewrite Hg. cbn. rewrite Hf. auto.
  - apply Forall_forall. intros src Hsrc.
    apply list_elem_of_lookup in Hsrc as [i Hi].
    rewrite Forall_forall in Hall.
    destruct (Hall (i, src)) as [b Hb].
    { apply elem_of_zip_seq. rewrite Nat.sub_0_r. split; [lia|exact Hi]. }
    cbn [snd] in Hb. destruct (getattr src "name") as [[]|]; cbn in Hb; try discriminate.
    eauto.
Qed.

(** X13: [getTagValue] raises exactly on a source without [pos] or without
    [flux] -- whatever the tag, and also when the source itself carries it --
    and what it raises is [AttributeError]. *)
Theorem getTagValue_needs_pos_and_flux (src : value) (tag : string) :
  (getTagValue src tag = Exc "AttributeError" <->
   hasattr src "pos" && hasattr src "flux" = false) /\
  (forall e, getTagValue src tag = Exc e -> e = "AttributeError").
Proof.
  unfold getTagValue, hasattr.
  destruct (getattr_opt src "pos") as [pos|] eqn:Epos.
  - assert (Hp : getattr src "pos" = Val pos) by (unfold getattr; rewrite Epos; reflexivity).
    rewrite Hp. cbn [mbind try_mbind try_bind].
    destruct (getattr_opt src "flux") as [flux|] eqn:Eflux.
    + assert (Hf : getattr src "flux" = Val flux)
        by (unfold getattr; rewrite Eflux; reflexivity).
      rewrite Hf. cbn [mbind try_mbind try_bind].
      destruct (first_tag_total
                  [src; pos; flux; getattr_default src "shape" VNone;
                   getattr_default src "spectrum" VNone] tag) as [v Hv].
      rewrite Hv. split; [split; discriminate|discriminate].
    + assert (Hf : getattr src "flux" = Exc "AttributeError")
        by (unfold getattr; rewrite Eflux; reflexivity).
      rewrite Hf. cbn [mbind try_mbind try_bind andb]. split; [tauto|]. intros e [= <-]. reflexivity.
  - assert (Hp : getattr src "pos" = Exc "AttributeError")
      by (unfold getattr; rewrite Epos; reflexivity).
    rewrite Hp. cbn [mbind try_mbind try_bind andb]. split; [tauto|].
    intros e [= <-]. reflexivity.
Qed.

End Selections.

Lemma lookupObject_loop_resolve (tagname : string) (path : list string) (src : value)
    (st : state) :
  lookupObject_loop tagname src path st =
  match resolve src path with
  | Some obj => Ok obj st
  | None => Stop (Raise "AttributeError") st
  end.
Proof.
  revert src. induction path as [|p path IH]; intros src; cbn [lookupObject_loop resolve].
  - reflexivity.
  - destruct (getattr_default src p VNone) eqn:E; cbn [is_none]; try apply IH.
    reflexivity.
Qed.

Lemma lookupObject_resolve (src : value) (tagname : string) (st : state) :
  lookupObject src tagname st =
  match resolve src (removelast (Str.split "." tagname)) with
  | Some obj => Ok (obj, List.last (Str.split "." tagname) EmptyString) st
  | None => Stop (Raise "AttributeError") st
  end.
Proof.
  unfold lookupObject. rewrite bind_eq, lookupObject_loop_resolve.
  destruct (resolve _ _); reflexivity.
Qed.


(** X15: a name without a dot is an attribute of the source itself. *)
Theorem lookupObject_plain_name (src : value) (tagname : string) (st : state) :
  Str.all not_dot tagname = true ->
  lookupObject src tagname st = Ok (src, tagname) st.
Proof.
  intros H. rewrite lookupObject_resolve, (split_dotless _ H). reflexivity.
Qed.

(* ===================================================================== *)
(** ** What the mutations do *)
(* ===================================================================== *)

Lemma each_lookup (f : value -> value) (T : list nat) (srcs : list value) (j : nat) :
  (forall x, f (f x) = f x) ->
  each f T srcs !! j = (if bool_decide (j ∈ T) then f else id) <$> srcs !! j.
Proof.
  intros Hf. unfold each. revert srcs.
  induction T as [|i T IH]; intros srcs; cbn [foldl].
  - rewrite bool_decide_eq_false_2 by (inversion 1). destruct (srcs !! j); reflexivity.
  - rewrite IH. destruct (decide (j = i)) as [->|Hne].
    + rewrite list_lookup_alter_eq. rewrite (bool_decide_eq_true_2 (i ∈ i :: T)) by left.
      destruct (srcs !! i) as [x|]; cbn; [|reflexivity].
      destruct (bool_decide (i ∈ T)); cbn; [rewrite Hf|]; reflexivity.
    + rewrite list_lookup_alter_ne by congruence.
      destruct (srcs !! j) as [x|]; cbn;
        [|destruct (bool_decide (j ∈ i :: T)), (bool_decide (j ∈ T)); reflexivity].
      destruct (decide (j ∈ T)) as [Hin|Hnin].
      * rewrite !bool_decide_eq_true_2; [reflexivity|right; exact Hin|exact Hin].
      * rewrite !bool_decide_eq_false_2; [reflexivity| |exact Hnin].
        rewrite elem_of_cons. tauto.
Qed.

Lemma with_attr_twice tag v src : with_attr tag v (with_attr tag v src) = with_attr tag v src.
Proof. destruct src; cbn; try reflexivity. rewrite insert_insert_eq. reflexivity. Qed.

Lemma without_attr_twice tag src : without_attr tag (without_attr tag src) = without_attr tag src.
Proof. destruct src; cbn; try reflexivity. rewrite delete_delete_eq. reflexivity. Qed.

Lemma split_dotted (a b : string) :
  Str.all not_dot a = true ->
  Str.split "." (a +:+ String "." b) = a :: Str.split "." b.
Proof.
  induction a as [|c a IH]; [reflexivity|]. cbn [Str.all]. intros H.
  apply andb_true_iff in H as [Hc Ha]. apply negb_true_iff in Hc.
  rewrite append_cons. cbn [Str.split]. rewrite Hc, (IH Ha). reflexivity.
Qed.

Section Mutations.

Context {B : Builtins}.
Variable options : Options.

(** One call of a method on the object a path leads to. *)
Lemma mutate_eq (i : nat) (tagname : string) (method : value -> string -> try value)
    (st : state) :
  mutate i tagname method st =
  match sources st !! i with
  | None => Ok tt st
  | Some src =>
      match resolve src (removelast (Str.split "." tagname)) with
      | None => Stop (Raise "AttributeError") st
      | Some obj =>
          match method obj (List.last (Str.split "." tagname) EmptyString) with
          | Val obj' =>
              Ok tt (State (<[i := put (removelast (Str.split "." tagname)) obj' src]>
                              (sources st))
                           (selected_ids st) (selection st) (listed st) (modified st) (out st))
          | Exc e => Stop (Raise e) st
          end
      end
  end.
Proof.
  unfold mutate. rewrite bind_eq. cbn [get].
  destruct (sources st !! i) as [src|]; [|reflexivity].
  rewrite bind_eq, lookupObject_resolve.
  destruct (resolve _ _) as [obj|]; [|reflexivity].
  rewrite bind_eq. destruct (method obj _) as [obj'|e]; reflexivity.
Qed.

(** A method that turns an object [src] into [f src], called on the
    sources of a selection under a name without a dot. *)
Lemma forM_mutate_plain (t : string) (method : value -> string -> try value)
    (f : value -> value) (l : list nat) (st : state) :
  Str.all not_dot t = true ->
  (forall src, is_object src -> method src t = Val (f src) /\ is_object (f src)) ->
  Forall is_object (sources st) ->
  forM_ l (fun i => mutate i t method) st =
  Ok tt (State (each f l (sources st)) (selected_ids st) (selection st) (listed st)
               (modified st) (out st)).
Proof.
  intros Ht Hm. revert st. induction l as [|i l IH]; intros st Hobj; cbn [forM_].
  - destruct st; reflexivity.
  - rewrite bind_eq, mutate_eq, (split_dotless _ Ht). cbn [removelast resolve List.last put].
    destruct (sources st !! i) as [src|] eqn:Hi.
    + assert (Hsrc : is_object src).
      { rewrite Forall_forall in Hobj. apply Hobj. eapply list_elem_of_lookup_2, Hi. }
      destruct (Hm src Hsrc) as [-> Hf].
      rewrite IH; cbn [sources selected_ids selection listed modified out].
      * unfold each. cbn [foldl]. do 2 f_equal. f_equal.
        apply list_eq. intros j. destruct (decide (j = i)) as [->|Hne].
        -- rewrite list_lookup_alter_eq, Hi.
           rewrite list_lookup_insert_eq; [reflexivity|]. eapply lookup_lt_Some, Hi.
        -- rewrite list_lookup_alter_ne, list_lookup_insert_ne by congruence. reflexivity.
      * apply Forall_insert; assumption.
    + rewrite IH by assumption. unfold each. cbn [foldl]. do 2 f_equal. f_equal.
      apply list_eq. intros j. destruct (decide (j = i)) as [->|Hne].
      * rewrite list_lookup_alter_eq, Hi. reflexivity.
      * rewrite list_lookup_alter_ne by congruence. reflexivity.
Qed.

Lemma set_branch_plain (t v : string) (srcs : list nat) (st : state) :
  Str.all not_dot t = true -> Forall is_object (sources st) ->
  exists l,
    set_branch t None v srcs st =
    Ok tt (State (each (with_attr t (auto_convert v)) srcs (sources st))
                 (selected_ids st) (selection st) (listed st)
                 (match srcs with [] => modified st | _ => true end)
                 (out st ++ [l])).
Proof.
  intros Ht Hobj. unfold set_branch. rewrite bind_eq.
  change (convert None v st) with (Ok (auto_convert v) st). cbv beta iota.
  destruct srcs as [|i srcs].
  - eexists. destruct st; reflexivity.
  - eexists. rewrite bind_eq. cbn [print emit]. rewrite bind_eq.
    rewrite (forM_mutate_plain t _ (with_attr t (auto_convert v))); [reflexivity|exact Ht| |exact Hobj].
    intros src [a ->]. split; [reflexivity|eexists; reflexivity].
Qed.

Lemma setbool_branch_plain (op : ascii) (t : string) (srcs : list nat) (st : state) :
  Str.all not_dot t = true -> Forall is_object (sources st) ->
  exists l,
    setbool_branch (String op EmptyString) t srcs st =
    Ok tt (State (each (if Ascii.eqb op "+" then with_attr t (VBool true)
                        else if Ascii.eqb op "!" then with_attr t (VBool false)
                        else without_attr t) srcs (sources st))
                 (selected_ids st) (selection st) (listed st)
                 (match srcs with [] => modified st | _ => true end)
                 (out st ++ [l])).
Proof.
  intros Ht Hobj. unfold setbool_branch.
  destruct srcs as [|i srcs].
  - eexists. destruct st; reflexivity.
  - cbn [String.eqb]. rewrite !(Ascii.eqb_sym op).
    destruct (Ascii.eqb "+" op); [|destruct (Ascii.eqb "!" op)].
    all: eexists; repeat (rewrite bind_eq; cbn [print emit mret M_ret]).
    + rewrite (forM_mutate_plain t _ (with_attr t (VBool true))); [reflexivity|exact Ht| |exact Hobj].
      intros src [a ->]. split; [reflexivity|eexists; reflexivity].
    + rewrite (forM_mutate_plain t _ (with_attr t (VBool false))); [reflexivity|exact Ht| |exact Hobj].
      intros src [a ->]. split; [reflexivity|eexists; reflexivity].
    + rewrite (forM_mutate_plain t _ (without_attr t)); [reflexivity|exact Ht| |exact Hobj].
      intros src [a ->]. split; [reflexivity|eexists; reflexivity].
Qed.

End Mutations.

Lemma tag_chr_not_dot (c : ascii) : tag_chr c = true -> not_dot c = true.
Proof. destruct c as [[] [] [] [] [] [] [] []]; vm_compute; congruence. Qed.

Lemma first_tag_own (src v : value) (rest : list value) (tag : string) :
  getattr_opt src tag = Some v -> first_tag (src :: rest) tag = Val v.
Proof.
  intros Hv. cbn [first_tag]. unfold hasattr, getattr. rewrite Hv.
  destruct src; cbn in Hv; try discriminate. reflexivity.
Qed.

Lemma getTagValue_own (src v : value) (tag : string) :
  getattr_opt src tag = Some v ->
  hasattr src "pos" = true -> hasattr src "flux" = true ->
  getTagValue src tag = Val v.
Proof.
  intros Hv Hp Hf. unfold getTagValue. unfold hasattr in Hp, Hf.
  destruct (getattr_opt src "pos") as [pos|] eqn:Epos; [|discriminate].
  destruct (getattr_opt src "flux") as [flux|] eqn:Eflux; [|discriminate].
  assert (Hp' : getattr src "pos" = Val pos) by (unfold getattr; rewrite Epos; reflexivity).
  assert (Hf' : getattr src "flux" = Val flux) by (unfold getattr; rewrite Eflux; reflexivity).
  rewrite Hp', Hf'. cbn [mbind try_mbind try_bind]. apply first_tag_own, Hv.
Qed.

Lemma each_object (f : value -> value) (T : list nat) (srcs : list value) (i : nat)
    (src' : value) :
  (forall x, f (f x) = f x) ->
  i ∈ T -> each f T srcs !! i = Some src' -> exists src, srcs !! i = Some src /\ src' = f src.
Proof.
  intros Hf Hi. rewrite each_lookup by exact Hf. rewrite bool_decide_eq_true_2 by exact Hi.
  destruct (srcs !! i) as [src|]; cbn; [|discriminate]. intros [= <-]. eauto.
Qed.

Lemma each_outside (f : value -> value) (T : list nat) (srcs : list value) (i : nat) :
  (forall x, f (f x) = f x) ->
  i ∉ T -> each f T srcs !! i = srcs !! i.
Proof.
  intros Hf Hi. rewrite each_lookup by exact Hf. rewrite bool_decide_eq_false_2 by exact Hi.
  destruct (srcs !! i); reflexivity.
Qed.

Section RoundTrips.

Context {B : Builtins}.
Variable options : Options.

(** X16: after [TAG=VALUE], each source of the selection carries the tag with
    the converted value, and reads it back through [getTagValue]; the other
    sources are as they were. *)
Theorem assignment_round_trip (t v : string) (st : state) :
  opt_list options = false ->
  t <> EmptyString -> Str.all tag_chr t = true -> Str.all dot_chr t = true ->
  v <> EmptyString -> Str.all dot_chr v = true ->
  Str.all not_equals v = true -> Str.all not_colon v = true ->
  Forall is_object (sources st) ->
  exists st',
    step options (t +:+ String "=" v) st = Ok tt st' /\
    sources st' = each (with_attr t (auto_convert v)) (materialized st) (sources st) /\
    selection st' = Some (materialized st) /\
    modified st' = match materialized st with [] => modified st | _ => true end /\
    (forall i src', i ∈ materialized st -> sources st' !! i = Some src' ->
       getattr_opt src' t = Some (auto_convert v) /\
       (hasattr src' "pos" = true -> hasattr src' "flux" = true ->
        getTagValue src' t = Val (auto_convert v))) /\
    (forall i, i ∉ materialized st -> sources st' !! i = sources st !! i).
Proof.
  intros Hlist Ht1 Ht2 Ht3 Hv1 Hv2 Hv3 Hv4 Hobj.
  destruct (assignment_parts t v Ht1 Ht2 Ht3 Hv1 Hv2 Hv3 Hv4) as (H1 & H2 & H3).
  assert (Hdot : Str.all not_dot t = true)
    by (apply (all_impl tag_chr); [apply tag_chr_not_dot|exact Ht2]).
  unfold step. rewrite H1, H2, H3, bind_eq, retrieve_selection_eq. cbv zeta.
  rewrite Hlist.
  match goal with
  | |- context [set_branch t None v ?srcs ?s] =>
      destruct (set_branch_plain t v srcs s Hdot Hobj) as [l ->]
  end.
  cbn [sources selected_ids selection listed modified out].
  eexists. split; [reflexivity|]. cbn [sources selection modified].
  split; [reflexivity|]. split; [reflexivity|]. split; [reflexivity|]. split.
  - intros i src' Hi Hsrc'.
    destruct (each_object _ _ _ _ _ (with_attr_twice t (auto_convert v)) Hi Hsrc')
      as (src & Hsrc & ->).
    assert (His : is_object src).
    { rewrite Forall_forall in Hobj. apply Hobj. eapply list_elem_of_lookup_2, Hsrc. }
    destruct His as [a ->]. cbn [with_attr].
    assert (Hget : getattr_opt (VObj (<[t := auto_convert v]> a)) t = Some (auto_convert v))
      by (cbn; apply lookup_insert_eq).
    split; [exact Hget|]. intros Hp Hf. apply getTagValue_own; assumption.
  - intros i Hi. apply each_outside; [apply with_attr_twice|exact Hi].
Qed.

(** X17: after [+TAG] each source of the selection carries the tag with the
    value [True], after [!TAG] with the value [False], and after [/TAG] it
    does not carry it; the other sources are as they were. *)
Theorem boolean_round_trip (op : ascii) (tag : string) (st : state) :
  opt_list options = false ->
  Re.cls_match false (Re.Cls false "+!/") op = true ->
  tag <> EmptyString -> Str.all tag_chr tag = true -> Str.all dot_chr tag = true ->
  Forall is_object (sources st) ->
  exists st',
    step options (String op tag) st = Ok tt st' /\
    selection st' = Some (materialized st) /\
    modified st' = match materialized st with [] => modified st | _ => true end /\
    (forall i src', i ∈ materialized st -> sources st' !! i = Some src' ->
       getattr_opt src' tag =
         if Ascii.eqb op "/" then None else Some (VBool (Ascii.eqb op "+"))) /\
    (forall i, i ∉ materialized st -> sources st' !! i = sources st !! i).
Proof.
  intros Hlist Hop Hne Htag Hdotc Hobj.
  destruct (boolean_parts op tag Hop Hne Htag Hdotc) as (H1 & H2 & H3 & H4).
  assert (Hdot : Str.all not_dot tag = true)
    by (apply (all_impl tag_chr); [apply tag_chr_not_dot|exact Htag]).
  unfold step. rewrite H1, H2, H3, H4, bind_eq, retrieve_selection_eq. cbv zeta.
  rewrite Hlist.
  match goal with
  | |- context [setbool_branch _ tag ?srcs ?s] =>
      destruct (setbool_branch_plain op tag srcs s Hdot Hobj) as [l ->]
  end.
  cbn [sources selected_ids selection listed modified out].
  eexists. split; [reflexivity|]. cbn [sources selection modified].
  split; [reflexivity|]. split; [reflexivity|].
  set (f := if Ascii.eqb op "+" then with_attr tag (VBool true)
            else if Ascii.eqb op "!" then with_attr tag (VBool false)
            else without_attr tag).
  assert (Hf : forall x, f (f x) = f x).
  { intros x. unfold f. destruct (Ascii.eqb op "+"); [apply with_attr_twice|].
    destruct (Ascii.eqb op "!"); [apply with_attr_twice|apply without_attr_twice]. }
  split.
  - intros i src' Hi Hsrc'.
    destruct (each_object _ _ _ _ _ Hf Hi Hsrc') as (src & Hsrc & ->).
    assert (His : is_object src).
    { rewrite Forall_forall in Hobj. apply Hobj. eapply list_elem_of_lookup_2, Hsrc. }
    destruct His as [a ->]. unfold f.
    destruct (bool_op_cases op Hop) as [-> | [-> | ->] ]; cbn.
    + apply lookup_insert_eq.
    + apply lookup_insert_eq.
    + apply lookup_delete_eq.
  - intros i Hi. apply each_outside; [exact Hf|exact Hi].
Qed.

(** X18: with a dotted name the two branches differ.  Both find the object the
    path leads to, but the boolean branch binds on it the whole dotted name,
    where the assignment branch binds the last segment. *)
Theorem dotted_name_differs_between_branches (a b : string) (i : nat)
    (attrs sub : gmap string value) (st : state) :
  Str.all not_dot a = true -> Str.all not_dot b = true ->
  sources st !! i = Some (VObj attrs) -> attrs !! a = Some (VObj sub) ->
  exists st1 st2,
    setbool_branch "+" (a +:+ String "." b) [i] st = Ok tt st1 /\
    sources st1 =
      <[i := VObj (<[a := VObj (<[a +:+ String "." b := VBool true]> sub)]> attrs)]>
        (sources st) /\
    set_branch (a +:+ String "." b) (Some "bool") "true" [i] st = Ok tt st2 /\
    sources st2 = <[i := VObj (<[a := VObj (<[b := VBool true]> sub)]> attrs)]> (sources st).
Proof.
  intros Ha Hb Hi Hsub.
  assert (Hsplit : Str.split "." (a +:+ String "." b) = [a; b])
    by (rewrite (split_dotted _ _ Ha), (split_dotless _ Hb); reflexivity).
  assert (Hres : resolve (VObj attrs) [a] = Some (VObj sub)).
  { cbn [resolve]. unfold getattr_default, getattr_opt. rewrite Hsub. reflexivity. }
  eexists _, _. split; [|split; [|split]].
  - unfold setbool_branch. cbn [String.eqb Ascii.eqb Bool.eqb].
    repeat (rewrite bind_eq; cbn [print emit mret M_ret]).
    cbn [forM_]. rewrite bind_eq, mutate_eq. cbn [sources]. rewrite Hi, Hsplit.
    cbn [removelast List.last]. rewrite Hres. cbn [setAttribute put].
    rewrite Hsub. reflexivity.
  - reflexivity.
  - unfold set_branch. rewrite bind_eq.
    change (convert (Some "bool") "true" st) with (Ok (VBool true) st). cbv beta iota.
    repeat (rewrite bind_eq; cbn [print emit mret M_ret]).
    cbn [forM_]. rewrite bind_eq, mutate_eq. cbn [sources]. rewrite Hi, Hsplit.
    cbn [removelast List.last]. rewrite Hres. cbn [setAttribute put].
    rewrite Hsub. reflexivity.
  - reflexivity.
Qed.

End RoundTrips.

(* ===================================================================== *)
(** ** Whole runs *)
(* ===================================================================== *)

Lemma steady_refl st : steady st st.
Proof. repeat split; auto. Qed.

Lemma steady_trans st1 st2 st3 : steady st1 st2 -> steady st2 st3 -> steady st1 st3.
Proof. intros (?&?&?) (?&?&?). repeat split; try congruence. auto. Qed.

Lemma quiet_steady st st' : quiet st st' -> steady st st'.
Proof. intros (H1 & H2 & H3). repeat split; congruence. Qed.

Lemma kept_quiet_Ok {A} (a : A) st st' : quiet st st' -> kept st (Ok a st').
Proof. intros H. split; [apply quiet_steady, H|]. intros _. apply H. Qed.

Lemma kept_quiet_Stop {A} o st st' : quiet st st' -> aborts o -> kept st (@Stop A o st').
Proof. intros H Ho. split; [apply quiet_steady, H|exact Ho]. Qed.

Lemma kept_bind {A C} (m : M A) (f : A -> M C) st :
  kept st (m st) ->
  (forall a st1, m st = Ok a st1 -> kept st1 (f a st1)) ->
  kept st ((m ≫= f) st).
Proof.
  intros Hm Hf. rewrite bind_eq.
  destruct (m st) as [a st1|o st1] eqn:E; [|exact Hm].
  destruct Hm as [Hs1 Hsrc1]. cbn [final] in Hs1.
  destruct (Hf a st1 eq_refl) as [Hs2 Hr2].
  split; [eapply steady_trans; eassumption|].
  destruct (f a st1) as [c st2|o st2]; [|exact Hr2].
  cbn [final] in Hs2. intros Hmod.
  assert (Hmod1 : modified st1 = false).
  { destruct (modified st1) eqn:Em; [|reflexivity].
    destruct Hs2 as (_ & _ & Hs2). rewrite Hs2 in Hmod by exact Em. discriminate. }
  rewrite Hr2, Hsrc1; auto.
Qed.

Lemma quiet_out st l : saved l = [] -> quiet st (with_out st (out st ++ l)).
Proof.
  intros Hl. destruct st. repeat split. cbn. rewrite saved_app, Hl, app_nil_r. reflexivity.
Qed.

Section Runs.

Context {B : Builtins}.
Variable options : Options.

Lemma print_eq fmt args st :
  print fmt args st = Ok tt (with_out st (out st ++ [Printed fmt args])).
Proof. reflexivity. Qed.

Lemma kept_print fmt args st : kept st (print fmt args st).
Proof. rewrite print_eq. apply kept_quiet_Ok, quiet_out. reflexivity. Qed.

(** A conversion returns a value and leaves the state alone, or prints its
    message and exits with status 2. *)
Lemma convert_prints (typename : option string) (value : string) (st : state) :
  (exists v, convert typename value st = Ok v st) \/
  (exists fmt args, convert typename value st =
                    Stop (Exit 2) (with_out st (out st ++ [Printed fmt args]))).
Proof.
  unfold convert. case_bool_decide.
  - destruct (_ || _); [left; eexists; reflexivity|].
    destruct (_ || _); [left; eexists; reflexivity|].
    destruct (py_int value); [left; eexists; reflexivity|].
    right. eexists _, _. reflexivity.
  - destruct typename as [[|c t]|]; try (left; eexists; reflexivity).
    destruct (explicit_convert (String c t) value); [left; eexists; reflexivity|].
    right. eexists _, _. reflexivity.
Qed.

Lemma mutate_steady i tagname method st :
  steady st (final (mutate i tagname method st)) /\
  forall o st', mutate i tagname method st = Stop o st' -> exists e, o = Raise e.
Proof.
  rewrite mutate_eq.
  destruct (sources st !! i) as [src|]; [|split; [apply steady_refl|discriminate]].
  destruct (resolve _ _) as [obj|];
    [|split; [apply steady_refl|intros o st' [= <- <-]; eauto]].
  destruct (method obj _) as [obj'|e];
    [|split; [apply steady_refl|intros o st' [= <- <-]; eauto]].
  split; [|discriminate]. cbn [final]. repeat split; cbn; auto. apply length_insert.
Qed.

Lemma forM_mutate_steady tagname method (l : list nat) st :
  steady st (final (forM_ l (fun i => mutate i tagname method) st)) /\
  forall o st', forM_ l (fun i => mutate i tagname method) st = Stop o st' ->
                exists e, o = Raise e.
Proof.
  revert st. induction l as [|i l IH]; intros st; cbn [forM_].
  - split; [apply steady_refl|discriminate].
  - rewrite bind_eq. destruct (mutate_steady i tagname method st) as [Hs Ho].
    destruct (mutate i tagname method st) as [[] st1|o st1]; cbn [final] in *.
    + destruct (IH st1) as [Hs' Ho']. split; [eapply steady_trans; eassumption|exact Ho'].
    + split; [exact Hs|]. intros o' st' [= <- <-]. eauto.
Qed.

(** What a list of mutations followed by [modified = True] keeps. *)
Lemma kept_mutations tagname method (l : list nat) st :
  kept st ((forM_ l (fun i => mutate i tagname method);; set_modified true) st).
Proof.
  rewrite bind_eq. destruct (forM_mutate_steady tagname method l st) as [Hs Ho].
  destruct (forM_ l _ st) as [[] st1|o st1]; cbn [final] in *.
  - split.
    + eapply steady_trans; [exact Hs|]. destruct st1. repeat split; auto.
    + destruct st1. cbn. discriminate.
  - split; [exact Hs|]. destruct (Ho o st1 eq_refl) as [e ->]. exact I.
Qed.

Lemma kept_set_branch tagname typename value srcs st :
  kept st (set_branch tagname typename value srcs st).
Proof.
  unfold set_branch. apply kept_bind.
  - destruct (convert_prints typename value st) as [[v ->]|(fmt & args & ->)].
    + apply kept_quiet_Ok, quiet_refl.
    + apply kept_quiet_Stop; [apply quiet_out; reflexivity|reflexivity].
  - intros v st1 _. destruct srcs as [|i srcs]; [apply kept_print|].
    apply kept_bind; [apply kept_print|]. intros [] st2 _. apply kept_mutations.
Qed.

Lemma kept_setbool_branch op tagname srcs st :
  kept st (setbool_branch op tagname srcs st).
Proof.
  unfold setbool_branch. destruct srcs as [|i srcs]; [apply kept_print|].
  apply kept_bind.
  - destruct (String.eqb op "+"); [|destruct (String.eqb op "!")].
    all: apply kept_bind; [apply kept_print|]; intros [] st1 _;
      apply kept_quiet_Ok, quiet_refl.
  - intros method st1 _. apply kept_mutations.
Qed.

Lemma kept_branch arg srcs st : kept st (branch arg srcs st).
Proof.
  unfold branch.
  destruct (mset arg) as [[[[? ?] ?] ?]|]; [apply kept_set_branch|].
  destruct (msetbool arg) as [[? ?]|]; [apply kept_setbool_branch|].
  apply kept_quiet_Ok, quiet_refl.
Qed.

Lemma kept_apply_selection sel selstr st : kept st (apply_selection sel selstr st).
Proof.
  pose proof (apply_selection_quiet sel selstr st) as Hq.
  rewrite apply_selection_eq in Hq |- *. cbv zeta in Hq |- *.
  destruct (report (sources st) sel selstr); cbn [final] in Hq.
  - apply kept_quiet_Ok, Hq.
  - apply kept_quiet_Stop; [exact Hq|exact I].
Qed.

Lemma kept_retrieve_selection st : kept st (retrieve_selection options st).
Proof.
  pose proof (retrieve_selection_quiet options st) as Hq.
  rewrite retrieve_selection_eq in Hq |- *. cbv zeta in Hq |- *.
  destruct (opt_list options); [destruct (names _ ≫= join_names)|]; cbn [final] in Hq.
  - apply kept_quiet_Ok, Hq.
  - apply kept_quiet_Stop; [exact Hq|exact I].
  - apply kept_quiet_Ok, Hq.
Qed.

Lemma kept_step arg st : kept st (step options arg st).
Proof.
  destruct (is_mutation arg) eqn:Hm.
  - rewrite (step_mutation _ _ _ Hm). apply kept_bind; [apply kept_retrieve_selection|].
    intros srcs st1 _. destruct (opt_list options); [apply kept_print|apply kept_branch].
  - destruct (step_not_mutation options arg st Hm) as [[sel ->]|[[e ->]| ->]].
    + apply kept_apply_selection.
    + apply kept_quiet_Stop; [apply quiet_refl|exact I].
    + apply kept_quiet_Stop; [apply quiet_out; reflexivity|reflexivity].
Qed.

Lemma kept_loop args st : kept st (forM_ args (step options) st).
Proof.
  revert st. induction args as [|arg args IH]; intros st; cbn [forM_].
  - apply kept_quiet_Ok, quiet_refl.
  - apply kept_bind; [apply kept_step|]. intros [] st1 _. apply IH.
Qed.

(** How [finish] ends. *)
Lemma finish_cases (skymodel : string) (stdin_ok : bool) (st : state) :
  (exists o st', finish options skymodel stdin_ok st = Stop o st' /\ quiet st st' /\
                 gives_up options stdin_ok (modified st) o) \/
  (exists st', finish options skymodel stdin_ok st = Ok tt st' /\
               modified st = true /\ sources st' = sources st /\ modified st' = true /\
               saved (out st') = saved (out st) ++ [(save_path options skymodel, sources st)] /\
               (opt_force options = true \/ stdin_ok = true)).
Proof.
  unfold finish. rewrite bind_eq.
  assert (Htail : forall st2, quiet st st2 ->
    let r := ((st ← get;
               (if negb (modified st)
                then print "Model was not modified" [];; sys_exit 0 else ret ());;
               (if negb (opt_force options)
                then print "Press ENTER to save model or Ctrl+C to cancel: " [];;
                     (if stdin_ok then ret () else print "Cancelling" [];; sys_exit 1)
                else ret ());;
               st3 ← get;
               match opt_output options with
               | Some (String c o) =>
                   emit (Save (String c o) (sources st3));;
                   print "Saved updated model to %s" [VStr (String c o)]
               | _ => emit (Save skymodel (sources st3));; print "Saved updated model" []
               end) st2) in
    (exists o st', r = Stop o st' /\ quiet st st' /\
                   gives_up options stdin_ok (modified st) o) \/
    (exists st', r = Ok tt st' /\
               modified st = true /\ sources st' = sources st /\ modified st' = true /\
               saved (out st') = saved (out st) ++ [(save_path options skymodel, sources st)] /\
               (opt_force options = true \/ stdin_ok = true))).
  { intros st2 (Hsrc & Hmod & Hsav) r. subst r.
    destruct st2 as [srcs2 ids2 sel2 lst2 md2 o2].
    cbn [sources modified out] in Hsrc, Hmod, Hsav. subst srcs2 md2.
    rewrite bind_eq. cbn [get].
    cbn [modified]. destruct (modified st) eqn:Em; cbn [negb].
    - unfold save_path.
      destruct (opt_force options) eqn:Ef; cbn [negb].
      + right. destruct (opt_output options) as [[|c o]|]; run1;
          (eexists; split; [reflexivity|]); cbn [sources modified out];
          rewrite ?saved_app, Hsav; cbn; rewrite ?app_nil_r; auto 10.
      + destruct stdin_ok.
        * right. destruct (opt_output options) as [[|c o]|]; run1;
            (eexists; split; [reflexivity|]); cbn [sources modified out];
            rewrite ?saved_app, Hsav; cbn; rewrite ?app_nil_r; auto 10.
        * left. run1. eexists _, _. split; [reflexivity|]. split; [|right; auto].
          repeat split; cbn; auto. rewrite !saved_app, Hsav. cbn. rewrite !app_nil_r.
          reflexivity.
    - left. run1. eexists _, _. split; [reflexivity|]. split; [|left; auto].
      repeat split; cbn; auto. rewrite !saved_app, Hsav. cbn. rewrite !app_nil_r.
      reflexivity. }
  destruct (opt_list options).
  - rewrite bind_eq. cbn [get]. destruct (listed st) as [[|]|].
    + apply Htail, quiet_refl.
    + rewrite bind_eq. pose proof (retrieve_selection_quiet options st) as Hq.
      pose proof (kept_retrieve_selection st) as [_ Hk].
      destruct (retrieve_selection options st) as [sel st2|o st2] eqn:Er; cbn [final] in Hq.
      * apply Htail, Hq.
      * left. eexists _, _. split; [reflexivity|]. split; [exact Hq|].
        rewrite retrieve_selection_eq in Er. cbv zeta in Er.
        destruct (opt_list options); [|discriminate].
        destruct (names _ ≫= join_names); [discriminate|].
        injection Er as <- _. exact I.
    + left. eexists _, _. split; [reflexivity|]. split; [apply quiet_refl|exact I].
  - apply Htail, quiet_refl.
Qed.

(** How [main] ends, from the start of a run. *)
Lemma main_cases (rem_args : list string) (stdin_ok : bool) (model : list value) :
  (exists o st', main options rem_args stdin_ok (initial model) = Stop o st' /\
                 length (sources st') = length model /\ saved (out st') = [] /\
                 (o = Exit 0 -> sources st' = model) /\
                 (aborts o \/ gives_up options stdin_ok (modified st') o)) \/
  (exists st' skymodel args,
      main options rem_args stdin_ok (initial model) = Ok tt st' /\
      rem_args = skymodel :: args /\
      length (sources st') = length model /\ modified st' = true /\
      saved (out st') = [(save_path options skymodel, sources st')] /\
      (opt_force options = true \/ stdin_ok = true)).
Proof.
  unfold main.
  destruct rem_args as [|skymodel [|arg args]].
  1,2: left; eexists _, _; split; [reflexivity|];
       split; [reflexivity|]; split; [reflexivity|]; split; [discriminate|left; reflexivity].
  rewrite bind_eq. cbn [get initial sources].
  destruct model as [|src model].
  { left. eexists _, _. split; [reflexivity|].
    split; [reflexivity|]. split; [reflexivity|]. split; [reflexivity|].
    right. left. auto. }
  rewrite bind_eq. cbn [print emit].
  set (st0 := State _ _ _ _ _ _).
  assert (Hq0 : quiet (initial (src :: model)) st0) by (repeat split).
  rewrite bind_eq.
  pose proof (kept_loop (arg :: args) st0) as [(Hlen & Hsav & _) Hk].
  destruct (forM_ (arg :: args) (step options) st0) as [[] st1|o st1]; cbn [final] in *.
  - destruct (finish_cases skymodel stdin_ok st1)
      as [(o & st' & -> & (Hsrc & Hmod & Hsav') & Ho)|(st' & -> & Hm & Hsrc & Hm' & Hsav' & Hf)].
    + left. eexists _, _. split; [reflexivity|].
      split; [rewrite Hsrc; exact Hlen|]. split; [rewrite Hsav'; exact Hsav|].
      split; [|right; rewrite Hmod; exact Ho].
      intros ->. cbn [gives_up] in Ho. rewrite Hsrc. apply Hk.
      destruct Ho as [[_ Ho]|[Ho _]]; [exact Ho|discriminate].
    + right. eexists _, _, _. split; [reflexivity|]. split; [reflexivity|].
      split; [rewrite Hsrc; exact Hlen|]. split; [exact Hm'|].
      split; [|exact Hf]. rewrite Hsav', Hsrc.
      change (saved (out st1) = []) in Hsav. rewrite Hsav. reflexivity.
  - left. eexists _, _. split; [reflexivity|].
    split; [exact Hlen|]. split; [exact Hsav|]. split; [|left; exact Hk].
    intros ->. cbn in Hk. discriminate.
Qed.

(** X19: a run neither adds nor removes a source. *)
Theorem sources_count_is_kept (rem_args : list string) (stdin_ok : bool)
    (model : list value) :
  length (sources (final (main options rem_args stdin_ok (initial model)))) = length model.
Proof.
  destruct (main_cases rem_args stdin_ok model)
    as [(o & st' & -> & H & _)|(st' & skymodel & args & -> & _ & H & _)]; exact H.
Qed.

(** X22: a run that returns has set [modified] and has saved the model once,
    as its last action on it: the sources saved are the sources it ends
    with, and the file is the one of [--output] when that is given and not
    empty, the input file otherwise.  It had [--force], or the user answered
    the prompt. *)
Theorem completed_run_saves_once (rem_args : list string) (stdin_ok : bool)
    (model : list value) (st' : state) :
  main options rem_args stdin_ok (initial model) = Ok tt st' ->
  exists skymodel args,
    rem_args = skymodel :: args /\
    modified st' = true /\
    saved (out st') = [(save_path options skymodel, sources st')] /\
    (opt_force options = true \/ stdin_ok = true).
Proof.
  intros Hrun.
  destruct (main_cases rem_args stdin_ok model)
    as [(o1 & st1 & H & _)|(st1 & skymodel & args & H & Hargs & _ & Hm & Hsav & Hf)];
    rewrite Hrun in H; [discriminate|].
  injection H as <-. eauto 10.
Qed.

(** X24: without [--force], a run whose prompt is not answered never
    returns, and so never saves. *)
Theorem declined_prompt_never_saves (rem_args : list string) (model : list value) :
  opt_force options = false ->
  exists o st', main options rem_args false (initial model) = Stop o st' /\
                saved (out st') = [].
Proof.
  intros Hforce.
  destruct (main_cases rem_args false model)
    as [(o & st1 & H & _ & Hsav & _)|(st1 & skymodel & args & _ & _ & _ & _ & _ & Hf)].
  - eauto.
  - destruct Hf; congruence.
Qed.

End Runs.

(* ===================================================================== *)
(** ** The flag [listed] *)
(* ===================================================================== *)

Lemma try_map_Exc {A C} (f : A -> try C) (l : list A) (e : string) :
  try_map f l = Exc e -> exists x, x ∈ l /\ f x = Exc e.
Proof.
  induction l as [|a l IH]; cbn [try_map]; [discriminate|].
  destruct (f a) as [y|e'] eqn:Ea; cbn [try_bind].
  - destruct (try_map f l) as [ys|e'']; cbn [try_bind]; [discriminate|].
    intros [= <-]. destruct (IH eq_refl) as (x & Hx & Hfx). exists x. split; [right|]; auto.
  - intros [= <-]. exists a. split; [left|]; auto.
Qed.

Lemma names_joined_raise (l : list value) (e : string) :
  names l ≫= join_names = Exc e -> e = "AttributeError" \/ e = "TypeError".
Proof.
  unfold names. destruct (try_map _ l) as [nms|e'] eqn:E; cbn.
  - unfold join_names. destruct (try_map _ nms) as [ss|e''] eqn:E'; cbn; [discriminate|].
    intros [= <-]. apply try_map_Exc in E' as (x & _ & Hx).
    destruct x; try discriminate; injection Hx as <-; auto.
  - intros [= <-]. apply try_map_Exc in E as (x & _ & Hx).
    unfold getattr in Hx. destruct (getattr_opt x "name"); [discriminate|].
    injection Hx as <-. auto.
Qed.

Section Listing.

Context {B : Builtins}.
Variable options : Options.

Lemma step_binds_listed (arg : string) (st st' : state) :
  opt_list options = true ->
  step options arg st = Ok tt st' -> is_Some (listed st').
Proof.
  intros Hlist. destruct (is_mutation arg) eqn:Hm.
  - rewrite (step_mutation _ _ _ Hm), bind_eq, retrieve_selection_eq. cbv zeta.
    rewrite Hlist. destruct (names _ ≫= join_names); [|discriminate].
    intros [= <-]. eexists. reflexivity.
  - destruct (step_not_mutation options arg st Hm) as [[sel ->]|[[e ->]| ->]];
      [|discriminate|discriminate].
    rewrite apply_selection_eq. cbv zeta.
    destruct (report _ _ _); [|discriminate]. intros [= <-]. eexists. reflexivity.
Qed.

(** X25: [listed] is declared [global] and not bound before the loop, and
    read after it when [--list] is given; by then it is bound, each token
    that completes binding it: reading it never fails, and what ends a run
    there is an [AttributeError] or a [TypeError] from the names of the
    sources, or the ways of [main] to end. *)
Theorem listed_is_bound_after_loop (args : list string) (skymodel : string)
    (stdin_ok : bool) (st st' : state) :
  opt_list options = true ->
  args <> [] ->
  forM_ args (step options) st = Ok tt st' ->
  is_Some (listed st') /\
  forall e st'', finish options skymodel stdin_ok st' = Stop (Raise e) st'' ->
                 e = "AttributeError" \/ e = "TypeError".
Proof.
  intros Hlist Hne Hrun.
  assert (Hl : is_Some (listed st')).
  { revert st Hrun. induction args as [|arg args IH]; [congruence|]. intros st.
    cbn [forM_]. rewrite bind_eq.
    destruct (step options arg st) as [[] st1|] eqn:Hstep; [|discriminate].
    destruct args as [|arg' args].
    - intros [= <-]. eapply step_binds_listed; eassumption.
    - apply IH. discriminate. }
  split; [exact Hl|]. destruct Hl as [b Hb].
  intros e st''. unfold finish. rewrite Hlist, !bind_eq. cbn [get]. rewrite Hb.
  assert (Htail : forall st2,
    ((st ← get;
      (if negb (modified st)
       then print "Model was not modified" [];; sys_exit 0 else ret ());;
      (if negb (opt_force options)
       then print "Press ENTER to save model or Ctrl+C to cancel: " [];;
            (if stdin_ok then ret () else print "Cancelling" [];; sys_exit 1)
       else ret ());;
      st3 ← get;
      match opt_output options with
      | Some (String c o) =>
          emit (Save (String c o) (sources st3));;
          print "Saved updated model to %s" [VStr (String c o)]
      | _ => emit (Save skymodel (sources st3));; print "Saved updated model" []
      end) st2) <> Stop (Raise e) st'').
  { intros st2. destruct st2 as [srcs2 ids2 sel2 lst2 [|] o2]; run1.
    - destruct (opt_force options), stdin_ok, (opt_output options) as [[|c o]|]; run1; discriminate.
    - discriminate. }
  destruct b.
  - intros H. destruct (Htail _ H).
  - rewrite bind_eq, retrieve_selection_eq. cbv zeta. rewrite Hlist.
    destruct (names _ ≫= join_names) as [nms|e'] eqn:En.
    + intros H. destruct (Htail _ H).
    + intros [= <- _]. eapply names_joined_raise, En.
Qed.

End Listing.

(* ===================================================================== *)
(** ** The further properties on the small catalog *)
(* ===================================================================== *)

Lemma catalog_objects : Forall is_object Scenario.catalog.
Proof. repeat constructor; eexists; reflexivity. Qed.

(** [=dE] *)
Lemma existence_token_witness :
  mselcomp "=dE" = None /\
  mseltag "=dE" = Some "dE" /\
  step (B := RefEnv.builtins) Scenario.plain "=dE" (initial Scenario.catalog) =
    (sel ← lift (select_tag "dE" (sources (initial Scenario.catalog)));
     apply_selection sel "=dE") (initial Scenario.catalog).
Proof.
  apply (existence_token (B := RefEnv.builtins) Scenario.plain "dE"
           (initial Scenario.catalog)); [discriminate|reflexivity].
Defined.

(** [A*] *)
Lemma name_token_witness :
  is_mutation "A*" = false /\
  step (B := RefEnv.builtins) Scenario.plain "A*" (initial Scenario.catalog) =
    (sel ← lift (select_name (B := RefEnv.builtins) "A*" (sources (initial Scenario.catalog)));
     apply_selection sel "A*") (initial Scenario.catalog).
Proof.
  apply (name_token (B := RefEnv.builtins) Scenario.plain "A*" (initial Scenario.catalog));
    reflexivity.
Defined.

(** [/dE] *)
Lemma boolean_token_witness :
  is_mutation "/dE" = true /\
  step (B := RefEnv.builtins) Scenario.plain "/dE" (initial Scenario.catalog) =
    (srcs ← retrieve_selection Scenario.plain;
     if opt_list Scenario.plain then print "--list in effect, ignoring tagging commands" []
     else setbool_branch "/" "dE" srcs) (initial Scenario.catalog).
Proof.
  apply (boolean_token (B := RefEnv.builtins) Scenario.plain "/" "dE"
           (initial Scenario.catalog)); [reflexivity|discriminate|reflexivity|reflexivity].
Defined.

(** [I=1]: an assignment, not a comparison. *)
Lemma plain_assignment_token_witness :
  is_mutation "I=1" = true /\
  step (B := RefEnv.builtins) Scenario.plain "I=1" (initial Scenario.catalog) =
    (srcs ← retrieve_selection Scenario.plain;
     if opt_list Scenario.plain then print "--list in effect, ignoring tagging commands" []
     else set_branch (B := RefEnv.builtins) "I" None "1" srcs) (initial Scenario.catalog).
Proof.
  apply (plain_assignment_token (B := RefEnv.builtins) Scenario.plain "I" "1"
           (initial Scenario.catalog));
    first [discriminate|reflexivity].
Defined.


(** [ra<10degrees] is [ra<10d]. *)
Lemma comparison_text_after_unit_witness :
  mselcomp "ra<10degrees" = Some ("ra", "<", "10", Some "d") /\
  same_effect
    (step (B := RefEnv.builtins) Scenario.plain "ra<10degrees" (initial Scenario.catalog))
    (step (B := RefEnv.builtins) Scenario.plain "ra<10d" (initial Scenario.catalog)).
Proof.
  apply (comparison_ignores_text_after_unit (B := RefEnv.builtins) Scenario.plain
           "ra" "<" "10" "d" "egrees" (initial Scenario.catalog));
    first [discriminate|reflexivity|left; cbn; tauto].
Defined.

(** [ra<10D] is [ra<10]. *)
Lemma upper_case_unit_witness :
  mselcomp "ra<10D" = Some ("ra", "<", "10", Some "D") /\
  mselcomp "ra<10" = Some ("ra", "<", "10", None) /\
  same_effect
    (step (B := RefEnv.builtins) Scenario.plain "ra<10D" (initial Scenario.catalog))
    (step (B := RefEnv.builtins) Scenario.plain "ra<10" (initial Scenario.catalog)).
Proof.
  apply (upper_case_unit_is_no_unit (B := RefEnv.builtins) Scenario.plain
           "ra" "<" "10" "D" "" (initial Scenario.catalog));
    first [discriminate|reflexivity|left; cbn; tauto].
Defined.

(** [ra.GT.10d] *)
Lemma operator_lookup_witness :
  operator ".GT." /\
  exists predicate, dict_get select_predicates (Str.lower ".GT.") = Some predicate.
Proof.
  apply (operator_lookup_never_fails "ra.GT.10d" "ra" ".GT." "10" (Some "d")).
  vm_compute. reflexivity.
Defined.

(** [=dE] after [A +dE]. *)
Lemma select_tag_members_witness :
  (forall i, i ∈ [0%nat] <->
     exists src v, sources (Scenario.after Scenario.plain ["A"; "+dE"]) !! i = Some src /\
                   getTagValue src "dE" = Val v /\ truthy v = true) /\
  Forall (fun src => exists v, getTagValue src "dE" = Val v)
         (sources (Scenario.after Scenario.plain ["A"; "+dE"])).
Proof.
  apply (select_tag_members "dE" (sources (Scenario.after Scenario.plain ["A"; "+dE"]))
           [0%nat]).
  vm_compute. reflexivity.
Defined.

(** [ra<10d] *)
Lemma select_comp_members_witness :
  select_comp "ra" Py.lt (10 * DEG)%float Scenario.catalog = Val [0%nat] /\
  forall i, i ∈ [0%nat] <->
    exists src v, Scenario.catalog !! i = Some src /\ getTagValue src "ra" = Val v /\
                  v <> VNone /\ Py.lt v (10 * DEG)%float = Val true.
Proof.
  split; [vm_compute; reflexivity|].
  apply (select_comp_members "ra" Py.lt (10 * DEG)%float Scenario.catalog [0%nat]).
  vm_compute. reflexivity.
Defined.

(** [name<1]: a name does not order against a number. *)
Lemma select_comp_raises_witness :
  exists e', select_comp "name" Py.lt 1%float Scenario.catalog = Exc e'.
Proof.
  apply (select_comp_raises "name" Py.lt 1%float Scenario.catalog 0%nat
           (Scenario.source_at "A" 5%float) (VStr "A") "TypeError");
    first [discriminate|reflexivity|vm_compute; reflexivity].
Defined.

(** [A*] *)
Lemma select_name_members_witness :
  (forall i, i ∈ [0%nat] <->
     exists src nm, Scenario.catalog !! i = Some src /\
                    getattr src "name" = Val (VStr nm) /\
                    fnmatch (Builtins := RefEnv.builtins) nm "A*" = true) /\
  Forall (fun src => exists nm, getattr src "name" = Val (VStr nm)) Scenario.catalog.
Proof.
  apply (select_name_members (B := RefEnv.builtins) "A*" Scenario.catalog [0%nat]).
  vm_compute. reflexivity.
Defined.


(** [dE] on the source A. *)
Lemma lookupObject_plain_name_witness :
  lookupObject (Scenario.source_at "A" 5%float) "dE" (initial Scenario.catalog) =
  Ok (Scenario.source_at "A" 5%float, "dE") (initial Scenario.catalog).
Proof.
  apply (lookupObject_plain_name (Scenario.source_at "A" 5%float) "dE"
           (initial Scenario.catalog)).
  reflexivity.
Defined.

(** [x=5] with nothing selected: every source reads [x] back as the integer
    5. *)
Lemma assignment_round_trip_witness :
  exists st',
    step (B := RefEnv.builtins) Scenario.plain "x=5" (initial Scenario.catalog) = Ok tt st' /\
    sources st' = each (with_attr "x" (auto_convert (B := RefEnv.builtins) "5"))
                       (materialized (initial Scenario.catalog))
                       (sources (initial Scenario.catalog)) /\
    selection st' = Some (materialized (initial Scenario.catalog)) /\
    modified st' = match materialized (initial Scenario.catalog) with
                   | [] => modified (initial Scenario.catalog)
                   | _ => true
                   end /\
    (forall i src', i ∈ materialized (initial Scenario.catalog) ->
       sources st' !! i = Some src' ->
       getattr_opt src' "x" = Some (auto_convert (B := RefEnv.builtins) "5") /\
       (hasattr src' "pos" = true -> hasattr src' "flux" = true ->
        getTagValue src' "x" = Val (auto_convert (B := RefEnv.builtins) "5"))) /\
    (forall i, i ∉ materialized (initial Scenario.catalog) ->
       sources st' !! i = sources (initial Scenario.catalog) !! i).
Proof.
  apply (assignment_round_trip (B := RefEnv.builtins) Scenario.plain "x" "5"
           (initial Scenario.catalog));
    first [discriminate|reflexivity|exact catalog_objects].
Defined.

(** [!dE] after [A]: the source A carries [dE] with the value [False]. *)
Lemma boolean_round_trip_witness :
  exists st',
    step (B := RefEnv.builtins) Scenario.plain "!dE" (Scenario.after Scenario.plain ["A"])
      = Ok tt st' /\
    selection st' = Some (materialized (Scenario.after Scenario.plain ["A"])) /\
    modified st' = match materialized (Scenario.after Scenario.plain ["A"]) with
                   | [] => modified (Scenario.after Scenario.plain ["A"])
                   | _ => true
                   end /\
    (forall i src', i ∈ materialized (Scenario.after Scenario.plain ["A"]) ->
       sources st' !! i = Some src' ->
       getattr_opt src' "dE" =
         if Ascii.eqb "!" "/" then None else Some (VBool (Ascii.eqb "!" "+"))) /\
    (forall i, i ∉ materialized (Scenario.after Scenario.plain ["A"]) ->
       sources st' !! i = sources (Scenario.after Scenario.plain ["A"]) !! i).
Proof.
  apply (boolean_round_trip (B := RefEnv.builtins) Scenario.plain "!" "dE"
           (Scenario.after Scenario.plain ["A"]));
    first [discriminate|reflexivity|exact catalog_objects].
Defined.

(** [+pos.flag] against [pos.flag=bool:true] on the source A. *)
Lemma dotted_name_witness :
  exists st1 st2,
    setbool_branch "+" "pos.flag" [0%nat] (initial Scenario.catalog)
      = Ok tt st1 /\
    sources st1 =
      <[0%nat := VObj (<["pos" := VObj (<["pos.flag" := VBool true]>
                                         {[ "ra" := VFloat (5 * DEG)%float ]})]> attrs_A)]>
        (sources (initial Scenario.catalog)) /\
    set_branch (B := RefEnv.builtins) "pos.flag" (Some "bool") "true" [0%nat]
               (initial Scenario.catalog) = Ok tt st2 /\
    sources st2 =
      <[0%nat := VObj (<["pos" := VObj (<["flag" := VBool true]>
                                         {[ "ra" := VFloat (5 * DEG)%float ]})]> attrs_A)]>
        (sources (initial Scenario.catalog)).
Proof.
  apply (dotted_name_differs_between_branches (B := RefEnv.builtins) "pos" "flag" 0%nat
           attrs_A {[ "ra" := VFloat (5 * DEG)%float ]} (initial Scenario.catalog));
    first [reflexivity|vm_compute; reflexivity].
Defined.

(** [model.lsm A +dE] with [--force]. *)
Lemma completed_run_witness :
  exists skymodel args,
    ["model.lsm"; "A"; "+dE"] = skymodel :: args /\
    modified (Scenario.after Scenario.plain ["A"; "+dE"]) = true /\
    saved (out (final (main (B := RefEnv.builtins) Scenario.plain
                         ["model.lsm"; "A"; "+dE"] true (initial Scenario.catalog))))
    = [(save_path Scenario.plain skymodel,
        sources (final (main (B := RefEnv.builtins) Scenario.plain
                          ["model.lsm"; "A"; "+dE"] true (initial Scenario.catalog))))] /\
    (opt_force Scenario.plain = true \/ true = true).
Proof.
  apply (completed_run_saves_once (B := RefEnv.builtins) Scenario.plain
           ["model.lsm"; "A"; "+dE"] true Scenario.catalog
           (final (main (B := RefEnv.builtins) Scenario.plain
                     ["model.lsm"; "A"; "+dE"] true (initial Scenario.catalog)))).
  vm_compute. reflexivity.
Defined.

Lemma declined_prompt_witness :
  exists o st', main (B := RefEnv.builtins) prompting ["model.lsm"; "+dE"] false
                     (initial Scenario.catalog) = Stop o st' /\
                saved (out st') = [].
Proof.
  apply (declined_prompt_never_saves (B := RefEnv.builtins) prompting
           ["model.lsm"; "+dE"] Scenario.catalog).
  reflexivity.
Defined.

(** [--list] with the token [A]. *)
Lemma listed_is_bound_witness :
  is_Some (listed (Scenario.after Scenario.listing ["A"])) /\
  forall e st'',
    finish Scenario.listing "model.lsm" true
           (Scenario.after Scenario.listing ["A"]) = Stop (Raise e) st'' ->
    e = "AttributeError" \/ e = "TypeError".
Proof.
  apply (listed_is_bound_after_loop (B := RefEnv.builtins) Scenario.listing ["A"]
           "model.lsm" true (initial Scenario.catalog));
    [reflexivity|discriminate|vm_compute; reflexivity].
Defined.

(* ===================================================================== *)
(** ** The accumulated selection and the sources that match *)
(* ===================================================================== *)

Lemma try_filter_indices {A} (p : A -> try bool) (l : list A) (sel : list (nat * A)) :
  try_filter (fun it => p (snd it)) (zip (seq 0 (length l)) l) = Val sel ->
  forall i, i ∈ map fst sel <-> exists x, l !! i = Some x /\ p x = Val true.
Proof.
  intros E i. apply try_filter_Val in E as [_ Hmem].
  apply (elem_of_map_fst_zip l (fun y => p (snd y) = Val true) sel i Hmem).
Qed.

Lemma select_tag_elem (seltag : string) (srcs : list value) (sel : list nat) (i : nat) :
  select_tag seltag srcs = Val sel ->
  i ∈ sel <->
  exists src v, srcs !! i = Some src /\ getTagValue src seltag = Val v /\ truthy v = true.
Proof.
  unfold select_tag.
  destruct (try_filter _ _) as [sel0|e] eqn:E; [|discriminate].
  intros [= <-].
  rewrite (try_filter_indices (fun src => truthy <$> getTagValue src seltag) srcs sel0 E).
  split.
  - intros (src & Hl & Hq). exists src.
    destruct (getTagValue src seltag) as [v|]; cbn in Hq; [|discriminate].
    exists v. injection Hq as Hq. auto.
  - intros (src & v & Hl & Hg & Ht). exists src. rewrite Hg. cbn. rewrite Ht. auto.
Qed.

Lemma select_comp_elem (seltag : string) (predicate : value -> float -> try bool)
    (selval : float) (srcs : list value) (sel : list nat) (i : nat) :
  select_comp seltag predicate selval srcs = Val sel ->
  i ∈ sel <->
  exists src v, srcs !! i = Some src /\ getTagValue src seltag = Val v /\
                v <> VNone /\ predicate v selval = Val true.
Proof.
  unfold select_comp.
  destruct (try_map _ srcs) as [srctag|e] eqn:Em; [|discriminate].
  cbn [mbind try_mbind try_bind].
  destruct (try_filter _ _) as [sel0|e] eqn:E; [|discriminate].
  intros [= <-]. apply try_map_Val in Em.
  rewrite (try_filter_indices
             (fun v => if is_none v then Val false else predicate v selval) srctag sel0 E).
  split.
  - intros (v & Hl & Hq).
    destruct (Forall2_lookup_r _ _ _ _ _ Em Hl) as (src & Hsrc & Hg).
    exists src, v. destruct v; cbn [is_none] in Hq; try discriminate; repeat split; auto.
  - intros (src & v & Hl & Hg & Hv & Hp).
    destruct (Forall2_lookup_l _ _ _ _ _ Em Hl) as (v' & Hv' & Hg').
    assert (v' = v) by congruence. subst v'. exists v. split; [exact Hv'|].
    destruct v; cbn [is_none]; congruence.
Qed.

Section Accumulation.

Context {B : Builtins}.
Variable options : Options.

Lemma select_name_elem (arg : string) (srcs : list value) (sel : list nat) (i : nat) :
  select_name arg srcs = Val sel ->
  i ∈ sel <->
  exists src nm, srcs !! i = Some src /\ getattr src "name" = Val (VStr nm) /\
                 fnmatch nm arg = true.
Proof.
  unfold select_name.
  destruct (try_filter _ _) as [sel0|e] eqn:E; [|discriminate].
  intros [= <-].
  rewrite (try_filter_indices
             (fun src => nm ← getattr src "name";
                         match nm with
                         | VStr s => Val (fnmatch s arg)
                         | _ => Exc "TypeError"
                         end) srcs sel0 E).
  split.
  - intros (src & Hl & Hq). exists src.
    destruct (getattr src "name") as [[]|]; cbn in Hq; try discriminate.
    injection Hq as Hq. eauto.
  - intros (src & nm & Hl & Hg & Hf). exists src. rewrite Hg. cbn. rewrite Hf. auto.
Qed.

(** What a selection applied in the state [main] starts in leaves in the
    accumulator: the identities it was given. *)
Lemma apply_selection_alone (sel : list nat) (selstr : string) (srcs : list value)
    (ids : gset nat) :
  match apply_selection sel selstr (initial srcs) with
  | Ok _ st => selected_ids st
  | Stop _ _ => None
  end = Some ids ->
  forall i, i ∈ ids <-> i ∈ sel.
Proof.
  rewrite apply_selection_eq. cbv zeta.
  destruct (report _ _ _); [|discriminate].
  cbn. unfold base. cbn. rewrite (left_id_L ∅ (∪)). intros [= <-] i.
  apply elem_of_list_to_set.
Qed.

(** The match set of a token on its own holds the sources that match it. *)
Lemma alone_selects (srcs : list value) (arg : string) (ids : gset nat) :
  alone options srcs arg = Some ids ->
  forall i, i ∈ ids <-> selects srcs arg i.
Proof.
  unfold alone, step, selects.
  destruct (mselcomp arg) as [[[[seltag oper] selval] unit]|].
  { destruct (py_float selval) as [f|]; [|discriminate].
    destruct (dict_get select_predicates (Str.lower oper)) as [predicate|]; [|discriminate].
    run0. cbn [initial sources].
    destruct (select_comp seltag predicate _ srcs) as [sel|e] eqn:Es; [|discriminate].
    fold (initial srcs).
    intros H i. rewrite (apply_selection_alone _ _ _ _ H i), (select_comp_elem _ _ _ _ _ i Es).
    split.
    - intros (src & v & ?). exists f, predicate, src, v. tauto.
    - intros (f' & p' & src & v & Hf & Hp & Hrest).
      injection Hf as <-. injection Hp as <-. exists src, v. tauto. }
  destruct (mseltag arg) as [seltag|].
  { run0. cbn [initial sources].
    destruct (select_tag seltag srcs) as [sel|e] eqn:Es; [|discriminate].
    fold (initial srcs).
    intros H i. rewrite (apply_selection_alone _ _ _ _ H i). apply select_tag_elem, Es. }
  destruct (mset arg) as [[[[tagname typespec] typename] value]|].
  { intros H. exfalso. revert H.
    rewrite bind_eq, retrieve_selection_eq. cbv zeta. cbn [initial selection selected_ids].
    destruct (opt_list options).
    - destruct (names _ ≫= join_names); [|discriminate]. cbn. discriminate.
    - pose proof (set_branch_touches tagname typename value
                    (materialized (State srcs None None None false []))
                    (State srcs None (Some (materialized (State srcs None None None false [])))
                           None false
                           ([] ++ [Printed "No explicit selection, using all sources." []])))
        as (_ & H2 & _).
      cbn [sources selection selected_ids listed modified out] in *.
      destruct (set_branch _ _ _ _ _); cbn [final] in H2; [rewrite H2|]; discriminate. }
  destruct (msetbool arg) as [[op tagname]|].
  { intros H. exfalso. revert H.
    rewrite bind_eq, retrieve_selection_eq. cbv zeta. cbn [initial selection selected_ids].
    destruct (opt_list options).
    - destruct (names _ ≫= join_names); [|discriminate]. cbn. discriminate.
    - pose proof (setbool_branch_touches op tagname
                    (materialized (State srcs None None None false []))
                    (State srcs None (Some (materialized (State srcs None None None false [])))
                           None false
                           ([] ++ [Printed "No explicit selection, using all sources." []])))
        as (_ & H2 & _).
      cbn [sources selection selected_ids listed modified out] in *.
      destruct (setbool_branch _ _ _ _); cbn [final] in H2; [rewrite H2|]; discriminate. }
  run0. cbn [initial sources].
  destruct (select_name arg srcs) as [sel|e] eqn:Es; [|discriminate].
  fold (initial srcs).
  intros H i. rewrite (apply_selection_alone _ _ _ _ H i). apply select_name_elem, Es.
Qed.

(** C4: selection tokens processed one after the other, from the start of
    an accumulation cycle, leave in the accumulator the union of the match
    sets the tokens have on their own, and processing the same tokens in any
    other order leaves the same set.  A source is in that union exactly when
    it matches one of the tokens: when the tag of a comparison is found on it
    with a value for which the comparison holds, when the tag of an existence
    token is found on it with a true value, or when its name matches a name
    token. *)
Theorem selections_accumulate_by_union (args args' : list string) (st : state) :
  cycle_start st = true ->
  args <> [] ->
  Forall (fun arg => is_Some (alone options (sources st) arg)) args ->
  args' ≡ₚ args ->
  exists st1 st2,
    forM_ args (step options) st = Ok tt st1 /\
    forM_ args' (step options) st = Ok tt st2 /\
    selected_ids st1 = Some (⋃ omap (alone options (sources st)) args) /\
    selection st1 = None /\
    selected_ids st2 = selected_ids st1 /\
    selection st2 = selection st1 /\
    (forall i, i ∈ ⋃ omap (alone options (sources st)) args <->
               exists arg, arg ∈ args /\ selects (sources st) arg i).
Proof.
  intros Hstart Hne Hall Hperm.
  assert (Hall' : Forall (fun arg => is_Some (alone options (sources st) arg)) args').
  { rewrite Hperm. exact Hall. }
  assert (Hne' : args' <> []).
  { intros ->. apply Permutation_nil_l in Hperm. congruence. }
  destruct (selections_accumulate options args st Hall) as (st1 & H1 & _ & _ & Hacc1).
  destruct (selections_accumulate options args' st Hall') as (st2 & H2 & _ & _ & Hacc2).
  destruct (Hacc1 Hne) as [Hs1 Hi1]. destruct (Hacc2 Hne') as [Hs2 Hi2].
  assert (Hbase : base st = ∅) by (unfold base; rewrite Hstart; reflexivity).
  rewrite Hbase, (left_id_L ∅ (∪)) in Hi1, Hi2.
  exists st1, st2.
  split; [exact H1|]. split; [exact H2|]. split; [exact Hi1|]. split; [exact Hs1|].
  split; [rewrite Hi1, Hi2; f_equal; rewrite Hperm; reflexivity|].
  split; [congruence|].
  intros i. rewrite elem_of_union_list. split.
  - intros (ids & Hids & Hi). apply list_elem_of_omap in Hids as (arg & Harg & Hal).
    exists arg. split; [exact Harg|]. apply (alone_selects _ _ _ Hal), Hi.
  - intros (arg & Harg & Hsel).
    rewrite Forall_forall in Hall. destruct (Hall arg Harg) as [ids Hal].
    exists ids. split; [|apply (alone_selects _ _ _ Hal), Hsel].
    apply list_elem_of_omap. eauto.
Qed.

End Accumulation.

(* ===================================================================== *)
(** ** The sources a mutation works on *)
(* ===================================================================== *)

Section Targets.

Context {B : Builtins}.
Variable options : Options.

(** A conversion that returns does so in every state, with the same value. *)
Lemma convert_converted (typename : option string) (value : string) (newval : Py.value)
    (s s' : state) :
  convert typename value s = Ok newval s' ->
  s' = s /\ converted typename value = Some newval.
Proof.
  unfold converted, convert. case_bool_decide.
  - destruct (_ || _); [intros [= <- <-]; auto|].
    destruct (_ || _); [intros [= <- <-]; auto|].
    destruct (py_int value); [intros [= <- <-]; auto|discriminate].
  - destruct typename as [[|c t]|]; [intros [= <- <-]; auto| |intros [= <- <-]; auto].
    destruct (explicit_convert (String c t) value); [intros [= <- <-]; auto|discriminate].
Qed.

(** The calls of a method on the sources of a list without repetition: each
    source of the list is replaced by what the call leaves of it. *)
Lemma forM_mutate_acts (tagname : string) (method : value -> string -> try value)
    (l : list nat) (s s' : state) :
  NoDup l ->
  forM_ l (fun i => mutate i tagname method) s = Ok tt s' ->
  forall i src, i ∈ l -> sources s !! i = Some src ->
    exists src', act tagname method src = Val src' /\ sources s' !! i = Some src'.
Proof.
  intros Hnd. revert s. induction Hnd as [|j l Hj Hnd IH]; intros s Hrun i src Hi Hsrc.
  { inversion Hi. }
  cbn [forM_] in Hrun. rewrite bind_eq, mutate_eq in Hrun.
  apply elem_of_cons in Hi as [->|Hi].
  - rewrite Hsrc in Hrun. unfold act.
    destruct (resolve src _) as [obj|]; [|discriminate].
    destruct (method obj _) as [obj'|e]; [|discriminate].
    cbn [mbind try_mbind try_bind]. eexists. split; [reflexivity|].
    assert (Hl : Forall (fun i => i ∈ l) l) by (apply Forall_forall; auto).
    match type of Hrun with
    | forM_ _ _ ?s1 = _ =>
        pose proof (forM_mutate_touches l tagname method l s1 Hl) as (_ & _ & _ & _ & Hframe)
    end.
    rewrite Hrun in Hframe. cbn [final sources] in Hframe.
    rewrite (Hframe j Hj). apply list_lookup_insert_eq. eapply lookup_lt_Some, Hsrc.
  - assert (Hne : i <> j) by (intros ->; contradiction).
    destruct (sources s !! j) as [srcj|] eqn:Ej.
    + destruct (resolve srcj _) as [obj|]; [|discriminate].
      destruct (method obj _) as [obj'|e]; [|discriminate].
      apply (IH _ Hrun i src Hi). cbn [sources].
      rewrite list_lookup_insert_ne by congruence. exact Hsrc.
    + apply (IH _ Hrun i src Hi Hsrc).
Qed.

(** A branch that completes has operated on every source of its selection. *)
Lemma branch_operates (m : string) (srcs : list nat) (s s' : state) :
  NoDup srcs ->
  branch m srcs s = Ok tt s' ->
  (forall i src, i ∈ srcs -> sources s !! i = Some src ->
     exists src', operation m src = Val src' /\ sources s' !! i = Some src') /\
  (srcs <> [] -> is_mutation m = true -> modified s' = true).
Proof.
  intros Hnd. unfold branch, operation, is_mutation.
  destruct (mset m) as [[[[tagname typespec] typename] value]|].
  - unfold set_branch. rewrite bind_eq.
    destruct (convert typename value s) as [newval s1|] eqn:Ec; [|discriminate].
    apply convert_converted in Ec as [-> ->].
    destruct srcs as [|i0 srcs]; [intros _; split; [intros i src Hi; inversion Hi|congruence]|].
    rewrite bind_eq. cbn [print emit]. rewrite bind_eq.
    destruct (forM_ (i0 :: srcs) _ _) as [[] s2|] eqn:Ef; [|discriminate].
    intros [= <-]. split.
    + intros i src Hi Hsrc.
      destruct (forM_mutate_acts _ _ _ _ _ Hnd Ef i src Hi Hsrc) as (src' & Ha & Hs').
      exists src'. split; [exact Ha|]. destruct s2. exact Hs'.
    + intros _ _. destruct s2. reflexivity.
  - destruct (msetbool m) as [[op tagname]|].
    + unfold setbool_branch.
      destruct srcs as [|i0 srcs]; [intros _; split; [intros i src Hi; inversion Hi|congruence]|].
      rewrite bind_eq.
      destruct (String.eqb op "+"); [|destruct (String.eqb op "!")].
      all: rewrite bind_eq; cbn [print emit mret M_ret]; rewrite bind_eq.
      all: destruct (forM_ (i0 :: srcs) _ _) as [[] s2|] eqn:Ef; [|discriminate].
      all: intros [= <-]; split; [|intros _ _; destruct s2; reflexivity].
      all: intros i src Hi Hsrc.
      all: destruct (forM_mutate_acts _ _ _ _ _ Hnd Ef i src Hi Hsrc) as (src' & Ha & Hs').
      all: exists src'; split; [exact Ha|]; destruct s2; exact Hs'.
    + intros [= <-]. split; [eauto|].
      destruct (mselcomp m) as [[[[? ?] ?] ?]|]; [discriminate|].
      destruct (mseltag m); discriminate.
Qed.

(** C5: a mutation token works on the materialized selection.  After the
    selection tokens [args] of a cycle, and after the mutation tokens [ms]
    that may already have used that selection, the mutation token [m] does
    what its branch does on [target]: the sources whose identity is in the
    union of the match sets of [args], or all the sources when the run has
    selected nothing so far.  The sources outside [target] are left as they
    were; and when the token completes, each source of [target] has become
    what the operation of the token makes of it (the call of [setAttribute]
    or [removeAttribute] on the object its dotted name leads to), and the
    flag [modified] is set unless [target] is empty. *)
Theorem mutation_uses_materialized_selection
    (args ms : list string) (m : string) (st st1 : state) :
  cycle_start st = true ->
  args <> [] \/ (selection st = None /\ selected_ids st = None) ->
  Forall (fun arg => is_Some (alone options (sources st) arg)) args ->
  Forall (fun m' => is_mutation m' = true) (ms ++ [m]) ->
  forM_ (args ++ ms) (step options) st = Ok tt st1 ->
  let target :=
    match args with
    | [] => all_ids st
    | _ => filter (fun i => i ∈ ⋃ omap (alone options (sources st)) args) (all_ids st)
    end in
  (opt_list options = false ->
   exists note,
     step options m st1 =
       branch m target
         (State (sources st1) (selected_ids st1) (Some target) (listed st1)
                (modified st1) (out st1 ++ note))) /\
  selection (final (step options m st1)) = Some target /\
  (forall i, i ∉ target ->
     sources (final (step options m st1)) !! i = sources st !! i) /\
  (opt_list options = false ->
   forall st', step options m st1 = Ok tt st' ->
     (forall i src, i ∈ target -> sources st1 !! i = Some src ->
        exists src', operation m src = Val src' /\ sources st' !! i = Some src') /\
     (target <> [] -> modified st' = true)).
Proof.
  intros Hstart Hfresh Hargs Hmuts Hrun target.
  apply Forall_app in Hmuts as [Hms Hm]. apply (proj1 (Forall_singleton _ _)) in Hm.
  destruct (selections_accumulate options args st Hargs) as (st0 & Hrun0 & Hsrc0 & _ & Hacc0).
  assert (Hrun1 : forM_ ms (step options) st0 = Ok tt st1).
  { revert Hrun Hrun0. clear. revert st.
    induction args as [|a args IH]; intros st Hrun Hrun0.
    - cbn in Hrun0. injection Hrun0 as <-. exact Hrun.
    - cbn [forM_ app] in Hrun, Hrun0. rewrite bind_eq in Hrun, Hrun0.
      destruct (step options a st) as [[] st'|]; [|discriminate]. eauto. }
  (* the selection [m] will retrieve from the state after [args] *)
  assert (Hmat0 : materialized st0 = target /\ length (sources st0) = length (sources st)).
  { split; [|congruence]. unfold materialized, target, all_ids. rewrite Hsrc0.
    destruct args as [|a args].
    - cbn in Hrun0. injection Hrun0 as <-.
      destruct Hfresh as [?|[-> ->]]; [congruence|reflexivity].
    - destruct Hacc0 as [-> ->]; [discriminate|].
      assert (Hbase : base st = ∅) by (unfold base; rewrite Hstart; reflexivity).
      rewrite Hbase, (left_id_L ∅ (∪)). reflexivity. }
  destruct Hmat0 as [Hmat0 Hlen0].
  (* and from the state after [ms] *)
  assert (Hmat1 : materialized st1 = target /\
                  forall i, i ∉ target -> sources st1 !! i = sources st !! i).
  { destruct ms as [|m0 ms].
    - cbn in Hrun1. injection Hrun1 as <-. rewrite Hsrc0. auto.
    - cbn [forM_] in Hrun1. rewrite bind_eq in Hrun1.
      apply Forall_cons in Hms as [Hm0 Hms].
      pose proof (step_mutation_touches options m0 st0 Hm0) as (H1 & H2 & H3 & H4).
      destruct (step options m0 st0) as [[] st0'|]; [|discriminate]. cbn [final] in *.
      rewrite Hmat0 in H1, H4.
      destruct (mutations_keep_selection options ms st0' st1 target Hms H1 Hrun1)
        as (H1' & H2' & H3' & H4').
      split; [unfold materialized; rewrite H1'; reflexivity|].
      intros i Hi. rewrite H4', H4, Hsrc0; auto. }
  destruct Hmat1 as [Hmat1 Hframe1].
  assert (Hnd : NoDup target).
  { unfold target, all_ids. destruct args; [apply NoDup_seq|].
    apply NoDup_filter, NoDup_seq. }
  pose proof (step_mutation_touches options m st1 Hm) as (H1 & _ & _ & H4).
  rewrite Hmat1 in H1, H4.
  assert (Hstep : opt_list options = false ->
    exists note,
      step options m st1 =
        branch m target
          (State (sources st1) (selected_ids st1) (Some target) (listed st1)
                 (modified st1) (out st1 ++ note))).
  { intros Hlist. eexists.
    rewrite (step_mutation _ _ _ Hm), bind_eq, retrieve_selection_eq. cbv zeta.
    rewrite Hlist, Hmat1. reflexivity. }
  split; [exact Hstep|]. split; [exact H1|]. split.
  - intros i Hi. rewrite H4, Hframe1; auto.
  - intros Hlist st' Hst'. destruct (Hstep Hlist) as [note Hb]. rewrite Hb in Hst'.
    destruct (branch_operates m target _ st' Hnd Hst') as [Hop Hmod].
    split; [exact Hop|]. intros Hne. apply Hmod; assumption.
Qed.

End Targets.

(* ===================================================================== *)
(** ** The whole of [main] *)
(* ===================================================================== *)

Section WholeRuns.

Context {B : Builtins}.
Variable options : Options.
Variable transfer_tags : string -> string -> option string -> string -> float -> M unit.

(** Without [--transfer-tags], and with Tigger imported, the whole is
    [main]. *)
Lemma program_main (t : option string) (rem_args : list string) (stdin_ok : bool)
    (st : state) :
  t = None \/ t = Some EmptyString ->
  program options transfer_tags Imported t rem_args stdin_ok st = main options rem_args stdin_ok st.
Proof. intros [-> | ->]; reflexivity. Qed.

Lemma program_cases (found : tigger_import) (t : option string) (rem_args : list string)
    (stdin_ok : bool) (model : list value) :
  t = None \/ t = Some EmptyString ->
  (exists fmt args, found <> Imported /\
     program options transfer_tags found t rem_args stdin_ok (initial model) =
     Stop (Exit 1) (with_out (initial model) [Printed fmt args])) \/
  (found = Imported /\
   program options transfer_tags found t rem_args stdin_ok (initial model) =
   main options rem_args stdin_ok (initial model)).
Proof.
  intros Ht. destruct found as [|file|dirname].
  - right. split; [reflexivity|apply program_main, Ht].
  - left. eexists _, _. split; [discriminate|reflexivity].
  - left. eexists _, _. split; [discriminate|reflexivity].
Qed.

(** X20: without [--transfer-tags], a run that exits with status 0 has
    changed no source and has not saved the model. *)
Theorem exit_zero_means_untouched (found : tigger_import) (t : option string)
    (rem_args : list string) (stdin_ok : bool) (model : list value) (st' : state) :
  t = None \/ t = Some EmptyString ->
  program options transfer_tags found t rem_args stdin_ok (initial model) = Stop (Exit 0) st' ->
  sources st' = model /\ modified st' = false /\ saved (out st') = [].
Proof.
  intros Ht Hrun.
  destruct (program_cases found t rem_args stdin_ok model Ht)
    as [(fmt & args & _ & H)|[_ H]]; rewrite H in Hrun; [discriminate|].
  destruct (main_cases options rem_args stdin_ok model)
    as [(o & st1 & H1 & _ & Hsav & Hz & Ho)|(st1 & skymodel & args & H1 & _)];
    rewrite Hrun in H1; [|discriminate].
  injection H1 as <- <-. split; [exact (Hz eq_refl)|]. split; [|exact Hsav].
  destruct Ho as [Ho|[[_ Ho]|[Ho _]]]; [discriminate|exact Ho|discriminate].
Qed.

(** X21: without [--transfer-tags], a run that ends before its last line --
    an exit or an exception -- has not saved the model, whatever it has done
    to the sources in memory. *)
Theorem stopped_run_saves_nothing (found : tigger_import) (t : option string)
    (rem_args : list string) (stdin_ok : bool) (model : list value) (o : outcome)
    (st' : state) :
  t = None \/ t = Some EmptyString ->
  program options transfer_tags found t rem_args stdin_ok (initial model) = Stop o st' ->
  saved (out st') = [].
Proof.
  intros Ht Hrun.
  destruct (program_cases found t rem_args stdin_ok model Ht)
    as [(fmt & args & _ & H)|[_ H]]; rewrite H in Hrun.
  - injection Hrun as <- <-. reflexivity.
  - destruct (main_cases options rem_args stdin_ok model)
      as [(o1 & st1 & H1 & _ & Hsav & _)|(st1 & skymodel & args & H1 & _)];
      rewrite Hrun in H1; [|discriminate].
    injection H1 as <- <-. exact Hsav.
Qed.

(** X23: without [--transfer-tags], the exit statuses are 0, 1 and 2, and
    status 1 has two causes: the package Tigger is not found, and then the
    message about it is all the run has done; or the user declined to save a
    model that was modified.  The exit with status 1 that [lookupObject]
    holds is never taken. *)
Theorem exit_one_means_declined (found : tigger_import) (t : option string)
    (rem_args : list string) (stdin_ok : bool) (model : list value) (c : Z)
    (st' : state) :
  t = None \/ t = Some EmptyString ->
  program options transfer_tags found t rem_args stdin_ok (initial model) = Stop (Exit c) st' ->
  c <> 0 -> c <> 2 ->
  c = 1 /\
  ((found <> Imported /\
    exists fmt args, st' = with_out (initial model) [Printed fmt args]) \/
   (found = Imported /\ modified st' = true /\ opt_force options = false /\
    stdin_ok = false)).
Proof.
  intros Ht Hrun H0 H2.
  destruct (program_cases found t rem_args stdin_ok model Ht)
    as [(fmt & args & Hf & H)|[Hf H]]; rewrite H in Hrun.
  - injection Hrun as <- <-. split; [reflexivity|]. left. eauto.
  - destruct (main_cases options rem_args stdin_ok model)
      as [(o & st1 & H1 & _ & _ & _ & Ho)|(st1 & skymodel & args & H1 & _)];
      rewrite Hrun in H1; [|discriminate].
    injection H1 as <- <-.
    destruct Ho as [Ho|[[Ho _]|(Hc & Hm & Hforce & Hstdin)]];
      [contradiction|contradiction|].
    split; [exact Hc|]. right. auto.
Qed.

End WholeRuns.

(* ===================================================================== *)
(** ** These properties on the small catalog *)
(* ===================================================================== *)

(** [ra<10d] and [B], in both orders: the sources A and B. *)
Lemma selections_accumulate_witness :
  (exists st1 st2,
    forM_ ["ra<10d"; "B"] (step (B := RefEnv.builtins) Scenario.plain)
          (initial Scenario.catalog) = Ok tt st1 /\
    forM_ ["B"; "ra<10d"] (step (B := RefEnv.builtins) Scenario.plain)
          (initial Scenario.catalog) = Ok tt st2 /\
    selected_ids st1 =
      Some (⋃ omap (alone (B := RefEnv.builtins) Scenario.plain
                      (sources (initial Scenario.catalog))) ["ra<10d"; "B"]) /\
    selection st1 = None /\
    selected_ids st2 = selected_ids st1 /\
    selection st2 = selection st1 /\
    (forall i,
       i ∈ ⋃ omap (alone (B := RefEnv.builtins) Scenario.plain
                     (sources (initial Scenario.catalog))) ["ra<10d"; "B"] <->
       exists arg, arg ∈ ["ra<10d"; "B"] /\
                   selects (B := RefEnv.builtins) (sources (initial Scenario.catalog)) arg i)) /\
  ⋃ omap (alone (B := RefEnv.builtins) Scenario.plain
            (sources (initial Scenario.catalog))) ["ra<10d"; "B"] = {[0%nat; 1%nat]}.
Proof.
  split; [|vm_compute; reflexivity].
  apply (selections_accumulate_by_union (B := RefEnv.builtins) Scenario.plain
           ["ra<10d"; "B"] ["B"; "ra<10d"] (initial Scenario.catalog)).
  - reflexivity.
  - discriminate.
  - repeat constructor; vm_compute; eexists; reflexivity.
  - apply perm_swap.
Defined.

(** [ra<10d B +dE x=5]: the assignment works on A and B, which get the
    attribute [x], and C is left as it was. *)
Lemma mutation_targets_witness :
  selection (final (step (B := RefEnv.builtins) Scenario.plain "x=5"
                      (Scenario.after Scenario.plain ["ra<10d"; "B"; "+dE"])))
  = Some (filter (fun i => i ∈ ⋃ omap (alone (B := RefEnv.builtins) Scenario.plain
                                         (sources (initial Scenario.catalog)))
                                  ["ra<10d"; "B"])
                 (all_ids (initial Scenario.catalog))) /\
  sources (final (step (B := RefEnv.builtins) Scenario.plain "x=5"
                    (Scenario.after Scenario.plain ["ra<10d"; "B"; "+dE"]))) !! 2%nat
  = sources (initial Scenario.catalog) !! 2%nat /\
  (fun src => getattr_opt src "x") <$>
    sources (final (step (B := RefEnv.builtins) Scenario.plain "x=5"
                      (Scenario.after Scenario.plain ["ra<10d"; "B"; "+dE"])))
  = [Some (VInt 5); Some (VInt 5); None] /\
  (forall i src,
     i ∈ filter (fun i => i ∈ ⋃ omap (alone (B := RefEnv.builtins) Scenario.plain
                                        (sources (initial Scenario.catalog)))
                                 ["ra<10d"; "B"])
                (all_ids (initial Scenario.catalog)) ->
     sources (Scenario.after Scenario.plain ["ra<10d"; "B"; "+dE"]) !! i = Some src ->
     exists src',
       operation (B := RefEnv.builtins) "x=5" src = Val src' /\
       sources (final (step (B := RefEnv.builtins) Scenario.plain "x=5"
                         (Scenario.after Scenario.plain ["ra<10d"; "B"; "+dE"]))) !! i
       = Some src') /\
  modified (final (step (B := RefEnv.builtins) Scenario.plain "x=5"
                     (Scenario.after Scenario.plain ["ra<10d"; "B"; "+dE"]))) = true.
Proof.
  pose proof (mutation_uses_materialized_selection (B := RefEnv.builtins) Scenario.plain
                ["ra<10d"; "B"] ["+dE"] "x=5" (initial Scenario.catalog)
                (Scenario.after Scenario.plain ["ra<10d"; "B"; "+dE"])) as H.
  destruct H as (_ & Hsel & Hframe & Hop).
  - reflexivity.
  - left. discriminate.
  - repeat constructor; vm_compute; eexists; reflexivity.
  - repeat constructor; vm_compute; reflexivity.
  - vm_compute. reflexivity.
  - split; [exact Hsel|]. split; [|split; [vm_compute; reflexivity|]].
    + apply Hframe. vm_compute. intros Hin.
      apply list_elem_of_In in Hin. cbn in Hin. intuition discriminate.
    + destruct (Hop eq_refl
                  (final (step (B := RefEnv.builtins) Scenario.plain "x=5"
                            (Scenario.after Scenario.plain ["ra<10d"; "B"; "+dE"]))))
        as [Hin Hmod].
      * vm_compute. reflexivity.
      * split; [exact Hin|]. apply Hmod. vm_compute. discriminate.
Defined.

(** [model.lsm A]: a selection only. *)
Lemma exit_zero_witness :
  sources (final (program (B := RefEnv.builtins) Scenario.plain no_transfer Imported None
                    ["model.lsm"; "A"] true (initial Scenario.catalog))) = Scenario.catalog /\
  modified (final (program (B := RefEnv.builtins) Scenario.plain no_transfer Imported None
                     ["model.lsm"; "A"] true (initial Scenario.catalog))) = false /\
  saved (out (final (program (B := RefEnv.builtins) Scenario.plain no_transfer Imported None
                       ["model.lsm"; "A"] true (initial Scenario.catalog)))) = [].
Proof.
  apply (exit_zero_means_untouched (B := RefEnv.builtins) Scenario.plain no_transfer
           Imported None ["model.lsm"; "A"] true Scenario.catalog).
  - left. reflexivity.
  - vm_compute. reflexivity.
Defined.

(** [model.lsm +dE +foo.bar]: the sources carry [dE] when the run raises,
    and nothing is saved. *)
Lemma stopped_run_witness :
  saved (out (final (program (B := RefEnv.builtins) Scenario.plain no_transfer Imported None
                       ["model.lsm"; "+dE"; "+foo.bar"] true
                       (initial Scenario.catalog)))) = [].
Proof.
  apply (stopped_run_saves_nothing (B := RefEnv.builtins) Scenario.plain no_transfer
           Imported None ["model.lsm"; "+dE"; "+foo.bar"] true Scenario.catalog
           (Raise "AttributeError")).
  - left. reflexivity.
  - vm_compute. reflexivity.
Defined.

(** [model.lsm +dE] without [--force], the prompt not answered. *)
Lemma exit_one_witness :
  1 = 1 /\
  ((Imported <> Imported /\
    exists fmt args,
      final (program (B := RefEnv.builtins) prompting no_transfer Imported None
               ["model.lsm"; "+dE"] false (initial Scenario.catalog))
      = with_out (initial Scenario.catalog) [Printed fmt args]) \/
   (Imported = Imported /\
    modified (final (program (B := RefEnv.builtins) prompting no_transfer Imported None
                       ["model.lsm"; "+dE"] false (initial Scenario.catalog))) = true /\
    opt_force prompting = false /\ false = false)).
Proof.
  apply (exit_one_means_declined (B := RefEnv.builtins) prompting no_transfer Imported None
           ["model.lsm"; "+dE"] false Scenario.catalog 1
           (final (program (B := RefEnv.builtins) prompting no_transfer Imported None
                     ["model.lsm"; "+dE"] false (initial Scenario.catalog))));
    [left; reflexivity|vm_compute; reflexivity|discriminate|discriminate].
Defined.
